(** * TermView: the ANSI terminal-buffer engine of [extension.ts]

    A shallow embedding of [TermViewProvider.getAnsiHtml] (tokenizer,
    screen-buffer interpreter, style-run renderer), of the webview script
    ([reconstructAnsi], [processNode]) and of the interpreter loop of the
    compiled script [out/extension.js] ([getHtmlForWebview]), followed by
    the properties proved about them.

    Modelling conventions.
    - A JavaScript string is a list of 8-bit code units ([list ascii]); the
      line terminators U+2028/U+2029 and surrogate pairs lie outside this
      alphabet, so [for .. of] visits one code unit at a time.
    - A JavaScript number is an integer that a double holds, an infinity or
      NaN ([number]).  [parseInt] rounds to 53 significant bits and gives
      Infinity from 2^1024 on; sums and differences are rounded likewise,
      and Infinity - Infinity is NaN.
    - Arrays are dense lists of fewer than 2^32 elements.  A [push] beyond
      that stops the model with [RangeError], a loop whose counter cannot
      reach its bound with [Diverges], reading a property of [undefined]
      with [TypeError].  An assignment that would give the array of rows a
      hole or a property that is no element stops it with [NotDense]; in a
      row such an assignment changes no cell.
    - The webview reads the markup with the tokenizer and the tree builder
      of the HTML standard, modelled for tags with double-quoted attribute
      values, the elements div, span and br, text and the character
      references of [escapeHtml]; [None] stands for what is outside. *)

From Stdlib Require Import ZArith Ascii String List Bool Lia.
From stdpp Require Import base decidable option list strings.

Local Open Scope Z_scope.

(** ** JavaScript strings *)

Abbreviation jsstring := (list ascii).

Definition str (s : string) : jsstring := list_ascii_of_string s.

Definition ESC : ascii := "027"%char.
Definition BEL : ascii := "007"%char.
Definition BS : ascii := "008"%char.
Definition LF : ascii := "010"%char.
Definition CR : ascii := "013"%char.
Definition QUOTE : ascii := "034"%char.
Definition BACKSLASH : ascii := "092"%char.
Definition TAB : ascii := "009"%char.

(** The reset sequence [ESC[0m]. *)
Definition reset : jsstring := ESC :: str "[0m".

Definition code (c : ascii) : N := N_of_ascii c.

(** [[0-9]] *)
Definition is_digit (c : ascii) : bool :=
  (48 <=? code c)%N && (code c <=? 57)%N.

(** [[0-9;?]], the parameter bytes of a CSI sequence. *)
Definition is_param (c : ascii) : bool :=
  is_digit c || Ascii.eqb c ";" || Ascii.eqb c "?".

(** [[a-zA-Z]], the final byte of a CSI sequence. *)
Definition is_letter (c : ascii) : bool :=
  ((97 <=? code c)%N && (code c <=? 122)%N)
  || ((65 <=? code c)%N && (code c <=? 90)%N).

(** [[\r\n\b]] *)
Definition is_control (c : ascii) : bool :=
  Ascii.eqb c CR || Ascii.eqb c LF || Ascii.eqb c BS.

(** [[^\x1b\r\n\b]] *)
Definition is_text (c : ascii) : bool :=
  negb (Ascii.eqb c ESC || Ascii.eqb c CR || Ascii.eqb c LF || Ascii.eqb c BS).

(** What [.] refuses: the line terminators of the alphabet. *)
Definition is_line_terminator (c : ascii) : bool :=
  Ascii.eqb c LF || Ascii.eqb c CR.

(** Longest prefix whose characters satisfy [p], and what follows it. *)
Fixpoint take_while {A} (p : A -> bool) (l : list A) : list A :=
  match l with
  | x :: l' => if p x then x :: take_while p l' else []
  | [] => []
  end.

Fixpoint drop_while {A} (p : A -> bool) (l : list A) : list A :=
  match l with
  | x :: l' => if p x then drop_while p l' else l
  | [] => []
  end.

(** [s.endsWith(c)] for a one-character [c]. *)
Definition endsWith (s : jsstring) (c : ascii) : bool :=
  match last s with
  | Some d => Ascii.eqb d c
  | None => false
  end.

(** [s === t] on strings. *)
Definition str_eqb (s t : jsstring) : bool := bool_decide (s = t).

(** [lines.join(sep)] *)
Fixpoint join (sep : jsstring) (parts : list jsstring) : jsstring :=
  match parts with
  | [] => []
  | [p] => p
  | p :: ps => p ++ sep ++ join sep ps
  end.

(** [s.match(/\d+/)]: the first maximal run of digits, if there is one. *)
Definition match_digits (s : jsstring) : option jsstring :=
  match take_while is_digit (drop_while (fun c => negb (is_digit c)) s) with
  | [] => None
  | ds => Some ds
  end.

(** The value of a string of decimal digits. *)
Definition decimal (ds : jsstring) : Z :=
  foldl (fun acc d => 10 * acc + (Z.of_N (code d) - 48)) 0 ds.

(** ** JavaScript numbers

    The numbers of the interpreter are cursor positions and parameters:
    integers that a double holds, the two infinities and NaN.  Negative
    zero does not arise from the operations used. *)

Inductive number : Type :=
| Num (z : Z)
| Infinity
| NegInfinity
| NaN.

(** Array lengths stay below 2^32, and array indices below 2^32 - 1. *)
Definition max_length : Z := 4294967295.

(** From 2^53 on not every integer is a double. *)
Definition max_safe : Z := 9007199254740992.

(** The integer nearest to [z >= 0] among those that a double holds: 53
    significant bits are kept, and a tie goes to the even neighbour. *)
Definition round53 (z : Z) : Z :=
  if z <? max_safe then z
  else
    let sh := Z.log2 z - 52 in
    let q := Z.shiftr z sh in
    let r := z - Z.shiftl q sh in
    let half := Z.shiftl 1 (sh - 1) in
    Z.shiftl (if (half <? r) || ((r =? half) && Z.odd q) then q + 1 else q) sh.

(** The Number value of an integer: what rounds to 2^1024 or beyond is an
    infinity. *)
Definition to_number (z : Z) : number :=
  let v := round53 (Z.abs z) in
  if 2 ^ 1024 <=? v then (if z <? 0 then NegInfinity else Infinity)
  else Num (Z.sgn z * v).

(** [a + b] *)
Definition add (a b : number) : number :=
  match a, b with
  | NaN, _ | _, NaN => NaN
  | Infinity, NegInfinity | NegInfinity, Infinity => NaN
  | Infinity, _ | _, Infinity => Infinity
  | NegInfinity, _ | _, NegInfinity => NegInfinity
  | Num x, Num y => to_number (x + y)
  end.

(** [a - b] *)
Definition sub (a b : number) : number :=
  match a, b with
  | NaN, _ | _, NaN => NaN
  | Infinity, Infinity | NegInfinity, NegInfinity => NaN
  | Infinity, _ | _, NegInfinity => Infinity
  | NegInfinity, _ | _, Infinity => NegInfinity
  | Num x, Num y => to_number (x - y)
  end.

(** [Math.max(a, b)] *)
Definition Math_max (a b : number) : number :=
  match a, b with
  | NaN, _ | _, NaN => NaN
  | Infinity, _ | _, Infinity => Infinity
  | NegInfinity, n | n, NegInfinity => n
  | Num x, Num y => Num (Z.max x y)
  end.

(** [a < b] *)
Definition lt (a b : number) : bool :=
  match a, b with
  | NaN, _ | _, NaN => false
  | Infinity, _ | _, NegInfinity => false
  | NegInfinity, _ | _, Infinity => true
  | Num x, Num y => x <? y
  end.

(** [a <= b] *)
Definition le (a b : number) : bool :=
  match a, b with
  | NaN, _ | _, NaN => false
  | NegInfinity, _ | _, Infinity => true
  | Infinity, _ | _, NegInfinity => false
  | Num x, Num y => x <=? y
  end.

(** [a === z] for an integer literal [z]. *)
Definition is_num (a : number) (z : Z) : bool :=
  match a with
  | Num x => x =? z
  | _ => false
  end.

(** [parseInt(s)] on what [/\d+/] hands over, a string of decimal digits:
    the Number value of its leading digits, and NaN when there is none.
    The standard lets an implementation read the digits after the
    twentieth as 0; V8, on which the extension runs, reads them all, and
    so does this definition. *)
Definition parseInt (s : jsstring) : number :=
  match take_while is_digit s with
  | [] => NaN
  | ds => to_number (decimal ds)
  end.

(** ** Escape tokenizer

    [tokenRegex] is an alternation of five groups; a match defines exactly
    one of them, which is the kind of the token. *)

Inductive token : Type :=
| ansiCode (s : jsstring)      (* group 1: ESC [ [0-9;?]* [a-zA-Z] *)
| oscSequence (s : jsstring)   (* group 2: ESC ] .*? (BEL | ESC \) *)
| keypadMode (s : jsstring)    (* group 3: ESC [=>] *)
| controlChar (c : ascii)      (* group 4: [\r\n\b] *)
| textPart (s : jsstring).     (* group 5: [^\x1b\r\n\b]+ *)

(** Group 1 anchored at the head of [s]: the matched text and the rest.
    The parameter bytes are taken greedily; no letter is a parameter byte,
    so giving some back can never help. *)
Definition match_csi (s : jsstring) : option (jsstring * jsstring) :=
  match s with
  | e :: b :: r =>
      if Ascii.eqb e ESC && Ascii.eqb b "[" then
        match drop_while is_param r with
        | f :: r' =>
            if is_letter f
            then Some (e :: b :: take_while is_param r ++ [f], r')
            else None
        | [] => None
        end
      else None
  | _ => None
  end.

(** The lazy body of group 2 followed by its terminator: at each position
    the terminator is tried first, and only then does [.] take one more
    character, which must not be a line terminator. *)
Fixpoint osc_body (s : jsstring) : option (jsstring * jsstring) :=
  match s with
  | [] => None
  | c :: r =>
      if Ascii.eqb c BEL then Some ([c], r)
      else
        match r with
        | d :: r' =>
            if Ascii.eqb c ESC && Ascii.eqb d BACKSLASH then Some ([c; d], r')
            else if is_line_terminator c then None
            else
              match osc_body r with
              | Some (m, rest) => Some (c :: m, rest)
              | None => None
              end
        | [] => None
        end
  end.

Definition match_osc (s : jsstring) : option (jsstring * jsstring) :=
  match s with
  | e :: b :: r =>
      if Ascii.eqb e ESC && Ascii.eqb b "]" then
        match osc_body r with
        | Some (m, rest) => Some (e :: b :: m, rest)
        | None => None
        end
      else None
  | _ => None
  end.

Definition match_keypad (s : jsstring) : option (jsstring * jsstring) :=
  match s with
  | e :: k :: r =>
      if Ascii.eqb e ESC && (Ascii.eqb k "=" || Ascii.eqb k ">")
      then Some ([e; k], r) else None
  | _ => None
  end.

(** [tokenRegex] anchored at the head of [s]: the alternatives in their
    order of priority. *)
Definition tokenRegex (s : jsstring) : option (token * jsstring) :=
  match match_csi s with
  | Some (m, rest) => Some (ansiCode m, rest)
  | None =>
  match match_osc s with
  | Some (m, rest) => Some (oscSequence m, rest)
  | None =>
  match match_keypad s with
  | Some (m, rest) => Some (keypadMode m, rest)
  | None =>
  match s with
  | [] => None
  | c :: r =>
      if is_control c then Some (controlChar c, r)
      else if is_text c
      then Some (textPart (take_while is_text s), drop_while is_text s)
      else None
  end end end end.

(** The loop [while ((match = tokenRegex.exec(text)) !== null)]: [exec]
    looks for the leftmost match at or after [lastIndex], so a character at
    which no alternative matches is stepped over.  Every match is at least
    one character long, hence the length of the text is fuel enough. *)
Fixpoint exec_loop (fuel : nat) (s : jsstring) : list token :=
  match fuel with
  | O => []
  | S fuel' =>
      match s with
      | [] => []
      | _ :: s' =>
          match tokenRegex s with
          | Some (t, rest) => t :: exec_loop fuel' rest
          | None => exec_loop fuel' s'
          end
      end
  end.

Definition tokenize (text : jsstring) : list token :=
  exec_loop (length text) text.

(** ** Outcomes of the token loop *)

Inductive outcome (A : Type) : Type :=
| Ok (a : A)
| TypeError   (* a property of [undefined] was read *)
| NotDense    (* the array of rows would get a hole or a property that is
                 no element *)
| RangeError  (* [push] on an array of 2^32 - 1 elements *)
| Diverges.   (* a loop whose counter cannot reach its bound *)
Arguments Ok {A} a.
Arguments TypeError {A}.
Arguments NotDense {A}.
Arguments RangeError {A}.
Arguments Diverges {A}.

#[global] Instance outcome_ret : MRet outcome := fun A a => Ok a.
#[global] Instance outcome_bind : MBind outcome := fun A B f m =>
  match m with
  | Ok a => f a
  | TypeError => TypeError
  | NotDense => NotDense
  | RangeError => RangeError
  | Diverges => Diverges
  end.

(** [arr[n]]: [None] stands for [undefined].  An array is a list of fewer
    than 2^32 elements; a number that is no index names no element. *)
Definition index {A} (arr : list A) (n : number) : option A :=
  match n with
  | Num i => if i <? 0 then None else arr !! Z.to_nat i
  | _ => None
  end.

(** [arr[n] = v]: overwrites inside the array and appends at its length,
    as long as that is an array index. *)
Definition assign {A} (arr : list A) (n : number) (v : A) : outcome (list A) :=
  match n with
  | Num i =>
      if i <? 0 then NotDense
      else if i <? Z.of_nat (length arr) then Ok (<[Z.to_nat i := v]> arr)
      else if (i =? Z.of_nat (length arr)) && (i <? max_length)
      then Ok (arr ++ [v])
      else NotDense
  | _ => NotDense
  end.

(** The start index of [splice]: the number is turned into an integer or
    an infinity (NaN into 0) and taken relative to the length. *)
Definition relativeStart (len : nat) (start : number) : nat :=
  match start with
  | Num z =>
      if z <? 0 then Z.to_nat (Z.max (Z.of_nat len + z) 0)
      else Z.to_nat (Z.min z (Z.of_nat len))
  | Infinity => len
  | NegInfinity | NaN => 0%nat
  end.

(** [arr.splice(start)]: what is left in [arr]. *)
Definition splice {A} (arr : list A) (start : number) : list A :=
  take (relativeStart (length arr) start) arr.

(** [arr.splice(start, deleteCount)]: what is left in [arr]. *)
Definition splice_count {A} (arr : list A) (start deleteCount : number)
  : list A :=
  let from := relativeStart (length arr) start in
  let dc :=
    match deleteCount with
    | Num d => Z.to_nat (Z.min (Z.max d 0) (Z.of_nat (length arr - from)))
    | Infinity => (length arr - from)%nat
    | NegInfinity | NaN => 0%nat
    end in
  take from arr ++ drop (from + dc) arr.

(** ** Screen buffer model *)

Record cell : Type := { char : ascii; style : jsstring }.

Record state : Type := {
  linesBuffer : list (list cell);
  cursorX : number;
  cursorY : number;
  currentStyle : jsstring
}.

(** [let linesBuffer = [[]]; let cursorX = 0; let cursorY = 0;
    let currentStyle = '']. *)
Definition initial : state :=
  {| linesBuffer := [[]]; cursorX := Num 0; cursorY := Num 0;
     currentStyle := [] |}.

Definition set_linesBuffer (s : state) (lb : list (list cell)) : state :=
  {| linesBuffer := lb; cursorX := cursorX s; cursorY := cursorY s;
     currentStyle := currentStyle s |}.

Definition set_cursorX (s : state) (x : number) : state :=
  {| linesBuffer := linesBuffer s; cursorX := x; cursorY := cursorY s;
     currentStyle := currentStyle s |}.

Definition set_cursorY (s : state) (y : number) : state :=
  {| linesBuffer := linesBuffer s; cursorX := cursorX s; cursorY := y;
     currentStyle := currentStyle s |}.

Definition set_currentStyle (s : state) (st : jsstring) : state :=
  {| linesBuffer := linesBuffer s; cursorX := cursorX s; cursorY := cursorY s;
     currentStyle := st |}.

(** [{ char: ' ', style: '' }] *)
Definition blank : cell := {| char := " "; style := [] |}.

(** The current row was read into [line] and changed in place: the change
    shows in [linesBuffer[cursorY]]. *)
Definition set_line (s : state) (line : list cell) : state :=
  match cursorY s with
  | Num y => set_linesBuffer s (<[Z.to_nat y := line]> (linesBuffer s))
  | _ => s
  end.

(** What [for (let i = 0; i < n; i++) if (line[i]) line[i] = blank] does to
    the elements of [line]. *)
Fixpoint blank_before (n : nat) (line : list cell) : list cell :=
  match n, line with
  | S n', _ :: line' => blank :: blank_before n' line'
  | _, _ => line
  end.

(** [while (line.length < x) line.push(blank)]: no turn when [x] is NaN or
    not above the length; [push] fails on an array of 2^32 - 1 elements,
    which a bound beyond that length always reaches. *)
Definition pad (line : list cell) (x : number) : outcome (list cell) :=
  if lt (Num (Z.of_nat (length line))) x then
    match x with
    | Num i =>
        if i <=? max_length
        then Ok (line ++ replicate (Z.to_nat (i - Z.of_nat (length line))) blank)
        else RangeError
    | _ => RangeError
    end
  else Ok line.

(** [line[x] = c] after the padding.  When [x] is an array index the cell
    becomes an element.  Otherwise (NaN, or 2^32 - 1 and beyond) the
    assignment sets a property that is no element; no statement reads such
    a property of a row as a cell, so the elements are all that is kept. *)
Definition put (line : list cell) (x : number) (c : cell)
  : outcome (list cell) :=
  match x with
  | Num i => if (0 <=? i) && (i <? max_length) then assign line x c else Ok line
  | _ => Ok line
  end.

(** The body of [for (const char of textPart)], over the characters left. *)
Fixpoint write (line : list cell) (x : number) (sty : jsstring) (txt : jsstring)
  : outcome (list cell * number) :=
  match txt with
  | [] => Ok (line, x)
  | ch :: txt' =>
      line1 ← pad line x;
      line2 ← put line1 x {| char := ch; style := sty |};
      write line2 (add x (Num 1)) sty txt'
  end.

(** [param ? parseInt(param[0]) : dflt] with [param = ansiCode.match(/\d+/)]. *)
Definition param_or (dflt : Z) (ansi : jsstring) : number :=
  match match_digits ansi with
  | Some p => parseInt p
  | None => Num dflt
  end.

(** [while (linesBuffer.length <= y) linesBuffer.push([])]: no turn when
    [y] is NaN or below the length; [push] fails on an array of 2^32 - 1
    elements. *)
Definition grow (lb : list (list cell)) (y : number)
  : outcome (list (list cell)) :=
  if le (Num (Z.of_nat (length lb))) y then
    match y with
    | Num i =>
        if i <? max_length
        then Ok (lb ++ replicate (Z.to_nat (i + 1 - Z.of_nat (length lb))) [])
        else RangeError
    | _ => RangeError
    end
  else Ok lb.

(** [for (let i = y + 1; i < linesBuffer.length; i++) linesBuffer[i] = []],
    reached with the index [y] of a row. *)
Definition clear_below (lb : list (list cell)) (y : number)
  : list (list cell) :=
  match y with
  | Num i =>
      let keep := Z.to_nat (Z.max 0 (i + 1)) in
      take keep lb ++ replicate (length lb - keep) []
  | _ => lb
  end.

(** [for (let i = 0; i < x; i++) if (line[i]) line[i] = blank] on the row
    [line], which is [None] when [linesBuffer[cursorY]] is [undefined].
    Without a turn the row is not touched.  The counter is a double: from
    2^53 its increment leaves it where it is, so a bound above 2^53 is
    never reached. *)
Definition blank_loop (line : option (list cell)) (x : number)
  : outcome (option (list cell)) :=
  if lt (Num 0) x then
    match line with
    | Some l =>
        match x with
        | Num i =>
            if i <=? max_safe then Ok (Some (blank_before (Z.to_nat i) l))
            else Diverges
        | _ => Diverges
        end
    | None => TypeError
    end
  else Ok line.

(** ** Buffer interpreter: the body of the token loop *)

Definition step_control (s : state) (c : ascii) : outcome state :=
  if Ascii.eqb c LF then
    let y := add (cursorY s) (Num 1) in
    lb ← match index (linesBuffer s) y with
         | Some _ => Ok (linesBuffer s)
         | None => assign (linesBuffer s) y []
         end;
    Ok {| linesBuffer := lb; cursorX := Num 0; cursorY := y;
          currentStyle := currentStyle s |}
  else if Ascii.eqb c CR then Ok (set_cursorX s (Num 0))
  else if Ascii.eqb c BS
  then Ok (set_cursorX s (Math_max (Num 0) (sub (cursorX s) (Num 1))))
  else Ok s.

Definition step_ansi (s : state) (ansi : jsstring) : outcome state :=
  if endsWith ansi "m" then
    if str_eqb ansi reset then Ok (set_currentStyle s [])
    else Ok (set_currentStyle s (currentStyle s ++ ansi))
  else if endsWith ansi "K" then
    let mode := param_or 0 ansi in
    let line := index (linesBuffer s) (cursorY s) in
    if is_num mode 0 then
      match line with
      | Some l => Ok (set_line s (splice l (cursorX s)))
      | None => TypeError
      end
    else if is_num mode 1 then
      line' ← blank_loop line (cursorX s);
      match line' with
      | Some l => Ok (set_line s l)
      | None => Ok s
      end
    else if is_num mode 2 then
      lb ← assign (linesBuffer s) (cursorY s) [];
      Ok (set_linesBuffer s lb)
    else Ok s
  else if endsWith ansi "J" then
    let mode := param_or 0 ansi in
    if is_num mode 0 then
      match index (linesBuffer s) (cursorY s) with
      | Some l =>
          let s' := set_line s (splice l (cursorX s)) in
          Ok (set_linesBuffer s' (clear_below (linesBuffer s') (cursorY s)))
      | None => TypeError
      end
    else if is_num mode 2 then
      Ok {| linesBuffer := [[]]; cursorX := Num 0; cursorY := Num 0;
            currentStyle := currentStyle s |}
    else Ok s
  else if endsWith ansi "P" then
    let count := param_or 1 ansi in
    match index (linesBuffer s) (cursorY s) with
    | Some l => Ok (set_line s (splice_count l (cursorX s) count))
    | None => TypeError
    end
  else
    let count := param_or 1 ansi in
    if endsWith ansi "A"
    then Ok (set_cursorY s (Math_max (Num 0) (sub (cursorY s) count)))
    else if endsWith ansi "B" then
      let y := add (cursorY s) count in
      lb ← grow (linesBuffer s) y;
      Ok (set_linesBuffer (set_cursorY s y) lb)
    else if endsWith ansi "D"
    then Ok (set_cursorX s (Math_max (Num 0) (sub (cursorX s) count)))
    else if endsWith ansi "C" then Ok (set_cursorX s (add (cursorX s) count))
    else Ok s.

Definition step_text (s : state) (txt : jsstring) : outcome state :=
  match index (linesBuffer s) (cursorY s) with
  | Some l =>
      '(l', x) ← write l (cursorX s) (currentStyle s) txt;
      Ok (set_cursorX (set_line s l') x)
  | None => TypeError
  end.

(** The chain [if (oscSequence || keypadMode) .. else if (controlChar) ..
    else if (ansiCode) .. else if (textPart) ..]; a group holding the empty
    string would be falsy and select no branch. *)
Definition step (s : state) (t : token) : outcome state :=
  match t with
  | oscSequence _ | keypadMode _ => Ok s
  | controlChar c => step_control s c
  | ansiCode [] => Ok s
  | ansiCode ansi => step_ansi s ansi
  | textPart [] => Ok s
  | textPart txt => step_text s txt
  end.

(** The token loop from a given state. *)
Fixpoint run (s : state) (ts : list token) : outcome state :=
  match ts with
  | [] => Ok s
  | t :: ts' => s' ← step s t; run s' ts'
  end.

(** The first half of [getAnsiHtml]: the buffer built from the raw text. *)
Definition interpret (text : jsstring) : outcome state :=
  run initial (tokenize text).

(** ** Style-run renderer *)

(** [s.replace(/c/g, by)] for a one-character pattern. *)
Definition replace_char (c : ascii) (by_ : jsstring) (s : jsstring) : jsstring :=
  flat_map (fun d => if Ascii.eqb d c then by_ else [d]) s.

(** The three replacements applied to [currentSpanText], in their order. *)
Definition escapeHtml (s : jsstring) : jsstring :=
  replace_char ">" (str "&gt;")
    (replace_char "<" (str "&lt;") (replace_char "&" (str "&amp;") s)).

(** [currentSpanAnsi.replace(/\x1b/g, '\\x1b')]: every ESC becomes the
    four characters backslash, x, 1, b. *)
Definition escapeEsc (s : jsstring) : jsstring :=
  replace_char ESC (BACKSLASH :: str "x1b") s.

(** [Some r] when [s] is [p] followed by [r]. *)
Fixpoint strip_prefix (p s : jsstring) : option jsstring :=
  match p, s with
  | [], _ => Some s
  | c :: p', d :: s' => if Ascii.eqb c d then strip_prefix p' s' else None
  | _ :: _, [] => None
  end.

Definition not_quote (c : ascii) : bool := negb (Ascii.eqb c QUOTE).

(** [styledSnippet.match(..)] for the pattern: style=, a double quote, one
    or more characters other than a double quote (group 1), a double quote.
    The result is group 1 of the leftmost match. *)
Fixpoint styleMatch (s : jsstring) : option jsstring :=
  match s with
  | [] => None
  | _ :: s' =>
      match strip_prefix (str "style=" ++ [QUOTE]) s with
      | Some r =>
          match take_while not_quote r, drop_while not_quote r with
          | (_ :: _) as v, _ :: _ => Some v
          | _, _ => styleMatch s'
          end
      | None => styleMatch s'
      end
  end.

(** One [<span>] of the output: its [style] attribute (empty when absent),
    the escape string kept in [data-ansi] (empty when absent) and its text. *)
Record span : Type := {
  styleAttr : jsstring;
  spanAnsi : jsstring;
  spanText : jsstring
}.

(** The template literal that [flushSpan] appends to [lineHtml]. *)
Definition spanHtml (sp : span) : jsstring :=
  str "<span"
  ++ match styleAttr sp with
     | [] => []
     | a => str " style=" ++ [QUOTE] ++ a ++ [QUOTE]
     end
  ++ match spanAnsi sp with
     | [] => []
     | a => str " data-ansi=" ++ [QUOTE] ++ escapeEsc a ++ [QUOTE]
     end
  ++ str ">" ++ escapeHtml (spanText sp) ++ str "</span>".

(** The template literal of the callback: a [div] of class [line] around
    [lineHtml || '<br>']. *)
Definition lineMarkup (spans : list span) : jsstring :=
  str "<div class=" ++ [QUOTE] ++ str "line" ++ [QUOTE] ++ str ">"
  ++ match concat (map spanHtml spans) with
     | [] => str "<br>"
     | h => h
     end
  ++ str "</div>".

Section Renderer.

(** The [ansi_up] package is not part of the repository: an [AnsiUp]
    object is a state, [new AnsiUp()] its initial value, and
    [ansi_to_html] returns the markup and the state it leaves behind. *)
Variable AnsiUp : Type.
Variable new_AnsiUp : AnsiUp.
Variable ansi_to_html : AnsiUp -> jsstring -> jsstring * AnsiUp.

(** The variables that the callback of [linesBuffer.map] and its closure
    [flushSpan] share; [lineHtml] is kept as the list of spans appended. *)
Record lineState : Type := {
  ansiUp : AnsiUp;
  lineHtml : list span;
  currentSpanAnsi : jsstring;
  currentSpanText : jsstring
}.

Definition flushSpan (st : lineState) : lineState :=
  match currentSpanText st with
  | [] => st
  | txt =>
      let '(attr, up) :=
        match currentSpanAnsi st with
        | [] => ([], ansiUp st)
        | a =>
            let '(styledSnippet, up) :=
              ansi_to_html (ansiUp st) (reset ++ a ++ str "X" ++ reset) in
            (match styleMatch styledSnippet with
             | Some m => m
             | None => []
             end, up)
        end in
      {| ansiUp := up;
         lineHtml := lineHtml st
           ++ [{| styleAttr := attr; spanAnsi := currentSpanAnsi st;
                  spanText := txt |}];
         currentSpanAnsi := currentSpanAnsi st;
         currentSpanText := [] |}
  end.

(** The body of [for (const cell of line)]. *)
Definition addCell (st : lineState) (c : cell) : lineState :=
  let st1 :=
    if str_eqb (style c) (currentSpanAnsi st) then st
    else
      let st' := flushSpan st in
      {| ansiUp := ansiUp st'; lineHtml := lineHtml st';
         currentSpanAnsi := style c;
         currentSpanText := currentSpanText st' |} in
  {| ansiUp := ansiUp st1; lineHtml := lineHtml st1;
     currentSpanAnsi := currentSpanAnsi st1;
     currentSpanText := currentSpanText st1 ++ [char c] |}.

(** One call of the callback: the spans of the row and the state in which
    the [AnsiUp] object is left. *)
Definition renderLine (up : AnsiUp) (line : list cell) : list span * AnsiUp :=
  let st0 := {| ansiUp := up; lineHtml := [];
                currentSpanAnsi := []; currentSpanText := [] |} in
  let st := flushSpan (foldl addCell st0 line) in
  (lineHtml st, ansiUp st).

(** [linesBuffer.map(...)], rows in order, one [AnsiUp] object for all. *)
Fixpoint renderLines (up : AnsiUp) (lb : list (list cell))
  : list (list span) :=
  match lb with
  | [] => []
  | line :: lb' =>
      let '(spans, up') := renderLine up line in
      spans :: renderLines up' lb'
  end.

(** The structured output: one list of spans per row of the buffer. *)
Definition render (text : jsstring) : outcome (list (list span)) :=
  s ← interpret text; Ok (renderLines new_AnsiUp (linesBuffer s)).

(** What [getAnsiHtml] reads of its receiver and of its argument. *)
Record TermViewProvider : Type := { isUpdatingFromWebview : bool }.
Record TextDocument : Type := { getText : jsstring; uri : jsstring }.

Definition getAnsiHtml (this : TermViewProvider) (document : TextDocument)
  : outcome jsstring :=
  lines ← render (getText document);
  Ok (concat (map lineMarkup lines)).

End Renderer.

Arguments ansiUp {AnsiUp} _.
Arguments lineHtml {AnsiUp} _.
Arguments currentSpanAnsi {AnsiUp} _.
Arguments currentSpanText {AnsiUp} _.
Arguments flushSpan {AnsiUp} ansi_to_html st.
Arguments addCell {AnsiUp} ansi_to_html st c.
Arguments renderLine {AnsiUp} ansi_to_html up line.
Arguments renderLines {AnsiUp} ansi_to_html up lb.
Arguments render {AnsiUp} new_AnsiUp ansi_to_html text.
Arguments getAnsiHtml {AnsiUp} new_AnsiUp ansi_to_html this document.

(** ** The webview: document tree and escape reconstructor *)

(** A node as the script reads it: an element with its tag name, classes,
    [data-ansi] attribute ([None] when absent), [innerText] and children;
    a text node; or a node of another type. *)
Inductive node : Type :=
| Element (tagName : jsstring) (classList : list jsstring)
    (dataAnsi : option jsstring) (innerText : jsstring)
    (childNodes : list node)
| TextNode (textContent : jsstring)
| OtherNode.

(** [dataAnsi.replace(/\\x1b/g, '\x1b')] as the script receives it: every
    backslash, x, 1, b becomes ESC. *)
Fixpoint unescapeEsc (s : jsstring) : jsstring :=
  match s with
  | [] => []
  | c :: s' =>
      match s' with
      | x :: o :: b :: s'' =>
          if Ascii.eqb c BACKSLASH && Ascii.eqb x "x" && Ascii.eqb o "1"
             && Ascii.eqb b "b"
          then ESC :: unescapeEsc s''
          else c :: unescapeEsc s'
      | _ => c :: unescapeEsc s'
      end
  end.

(** The text of the children of a node, in their order; [if (dataAnsi)]
    holds when the attribute is present and not empty. *)
Fixpoint processNode (n : node) : jsstring :=
  match n with
  | Element _ _ _ _ children =>
      foldl (fun text child =>
        match child with
        | Element tagName _ dataAnsi innerText _ =>
            if str_eqb tagName (str "SPAN") then
              match dataAnsi with
              | Some ((_ :: _) as a) =>
                  ((text ++ unescapeEsc a) ++ innerText) ++ reset
              | _ => text ++ innerText
              end
            else if str_eqb tagName (str "BR") then text
            else text ++ processNode child
        | TextNode textContent => text ++ textContent
        | OtherNode => text
        end) [] children
  | _ => []
  end.

(** The selector [.line, div]. *)
Definition is_line (n : node) : bool :=
  match n with
  | Element tagName classList _ _ _ =>
      str_eqb tagName (str "DIV") || existsb (str_eqb (str "line")) classList
  | _ => false
  end.

Fixpoint descendants (n : node) : list node :=
  match n with
  | Element _ _ _ _ children => flat_map (fun c => c :: descendants c) children
  | _ => []
  end.

Definition children_of (n : node) : list node :=
  match n with
  | Element _ _ _ _ children => children
  | _ => []
  end.

(** [content.querySelectorAll('.line, div')] *)
Definition querySelectorAll (content : node) : list node :=
  filter (fun n => is_line n = true) (descendants content).

(** The matches whose [parentElement] is [content] are the matching
    children of [content], in document order. *)
Definition reconstructAnsi (content : node) : jsstring :=
  match querySelectorAll content with
  | [] => join [LF] [processNode content]
  | _ =>
      join [LF]
        (map processNode (filter (fun n => is_line n = true) (children_of content)))
  end.

(** ** The webview: reading the markup

    The webview gets the markup as [innerHTML] of the content element, or
    inside the page.  What follows is the tokenizer and the tree builder of
    the HTML standard for the markup that the renderer writes and a little
    around it: tags with double-quoted attribute values, the elements div,
    span and br, text, and the character references of [escapeHtml].
    Whatever else the standard provides for (comments, other elements,
    other references, attribute values without double quotes, input that
    ends inside a tag, end tags without their start tag) is outside the
    model: the parser answers [None]. *)

Definition NUL : ascii := "000"%char.
Definition FF : ascii := "012"%char.
Definition APOSTROPHE : ascii := "039"%char.

(** ASCII white space. *)
Definition is_space (c : ascii) : bool :=
  Ascii.eqb c TAB || Ascii.eqb c LF || Ascii.eqb c FF || Ascii.eqb c CR
  || Ascii.eqb c " ".

Definition is_alnum (c : ascii) : bool := is_letter c || is_digit c.

Definition lower (c : ascii) : ascii :=
  if (65 <=? code c)%N && (code c <=? 90)%N then ascii_of_N (code c + 32) else c.

Definition upper (c : ascii) : ascii :=
  if (97 <=? code c)%N && (code c <=? 122)%N then ascii_of_N (code c - 32) else c.

Inductive htoken : Type :=
| StartTag (name : jsstring) (attrs : list (jsstring * jsstring))
| EndTag (name : jsstring)
| Character (c : ascii).

(** The states of the tokenizer, with what they have gathered: the tag
    name, the attributes so far, the name and the value of the attribute
    being read. *)
Inductive tstate : Type :=
| Data
| AfterCR
| Reference (seen : jsstring)
| TagOpen
| TagName (name : jsstring)
| BeforeAttributeName (name : jsstring) (attrs : list (jsstring * jsstring))
| AttributeName (name : jsstring) (attrs : list (jsstring * jsstring))
    (aname : jsstring)
| AfterAttributeName (name : jsstring) (attrs : list (jsstring * jsstring))
    (aname : jsstring)
| BeforeAttributeValue (name : jsstring) (attrs : list (jsstring * jsstring))
    (aname : jsstring)
| AttributeValue (name : jsstring) (attrs : list (jsstring * jsstring))
    (aname value : jsstring)
| AfterAttributeValue (name : jsstring) (attrs : list (jsstring * jsstring))
| SelfClosingStartTag (name : jsstring) (attrs : list (jsstring * jsstring))
| EndTagOpen
| EndTagName (name : jsstring)
| AfterEndTagName (name : jsstring).

(** A character in the data state: U+0000 is dropped (the tree builder
    ignores it in a body), a carriage return is read as a line feed. *)
Definition data_char (c : ascii) : list htoken * tstate :=
  if Ascii.eqb c "<" then ([], TagOpen)
  else if Ascii.eqb c "&" then ([], Reference [])
  else if Ascii.eqb c NUL then ([], Data)
  else if Ascii.eqb c CR then ([Character LF], AfterCR)
  else ([Character c], Data).

(** The character that a reference names, for the references that the
    model knows. *)
Definition named (seen : jsstring) : option ascii :=
  if str_eqb seen (str "amp") then Some "&"%char
  else if str_eqb seen (str "lt") then Some "<"%char
  else if str_eqb seen (str "gt") then Some ">"%char
  else if str_eqb seen (str "quot") then Some QUOTE
  else None.

(** A character that may not stand in a tag or attribute name here. *)
Definition bad_in_name (c : ascii) : bool :=
  Ascii.eqb c NUL || Ascii.eqb c QUOTE || Ascii.eqb c APOSTROPHE
  || Ascii.eqb c "<".

(** One character in one state: the tokens emitted and the next state. *)
Definition tokenizer_step (st : tstate) (c : ascii)
  : option (list htoken * tstate) :=
  match st with
  | Data => Some (data_char c)
  | AfterCR => if Ascii.eqb c LF then Some ([], Data) else Some (data_char c)
  | Reference seen =>
      if Ascii.eqb c ";" then
        match named seen with
        | Some d => Some ([Character d], Data)
        | None => None
        end
      else if is_alnum c || Ascii.eqb c "#" then Some ([], Reference (seen ++ [c]))
      else
        match seen with
        | [] => let '(ts, st') := data_char c in Some (Character "&" :: ts, st')
        | _ => None
        end
  | TagOpen =>
      if is_letter c then Some ([], TagName [lower c])
      else if Ascii.eqb c "/" then Some ([], EndTagOpen)
      else if Ascii.eqb c "!" || Ascii.eqb c "?" then None
      else let '(ts, st') := data_char c in Some (Character "<" :: ts, st')
  | TagName name =>
      if is_space c then Some ([], BeforeAttributeName name [])
      else if Ascii.eqb c "/" then Some ([], SelfClosingStartTag name [])
      else if Ascii.eqb c ">" then Some ([StartTag name []], Data)
      else if Ascii.eqb c NUL then None
      else Some ([], TagName (name ++ [lower c]))
  | BeforeAttributeName name attrs =>
      if is_space c then Some ([], st)
      else if Ascii.eqb c "/" then Some ([], SelfClosingStartTag name attrs)
      else if Ascii.eqb c ">" then Some ([StartTag name attrs], Data)
      else if Ascii.eqb c "=" || bad_in_name c then None
      else Some ([], AttributeName name attrs [lower c])
  | AttributeName name attrs aname =>
      if is_space c then Some ([], AfterAttributeName name attrs aname)
      else if Ascii.eqb c "/"
      then Some ([], SelfClosingStartTag name (attrs ++ [(aname, [])]))
      else if Ascii.eqb c ">"
      then Some ([StartTag name (attrs ++ [(aname, [])])], Data)
      else if Ascii.eqb c "=" then Some ([], BeforeAttributeValue name attrs aname)
      else if bad_in_name c then None
      else Some ([], AttributeName name attrs (aname ++ [lower c]))
  | AfterAttributeName name attrs aname =>
      if is_space c then Some ([], st)
      else if Ascii.eqb c "/"
      then Some ([], SelfClosingStartTag name (attrs ++ [(aname, [])]))
      else if Ascii.eqb c ">"
      then Some ([StartTag name (attrs ++ [(aname, [])])], Data)
      else if Ascii.eqb c "=" then Some ([], BeforeAttributeValue name attrs aname)
      else if bad_in_name c then None
      else Some ([], AttributeName name (attrs ++ [(aname, [])]) [lower c])
  | BeforeAttributeValue name attrs aname =>
      if is_space c then Some ([], st)
      else if Ascii.eqb c QUOTE then Some ([], AttributeValue name attrs aname [])
      else None
  | AttributeValue name attrs aname value =>
      if Ascii.eqb c QUOTE
      then Some ([], AfterAttributeValue name (attrs ++ [(aname, value)]))
      else Some ([], AttributeValue name attrs aname (value ++ [c]))
  | AfterAttributeValue name attrs =>
      if is_space c then Some ([], BeforeAttributeName name attrs)
      else if Ascii.eqb c "/" then Some ([], SelfClosingStartTag name attrs)
      else if Ascii.eqb c ">" then Some ([StartTag name attrs], Data)
      else None
  | SelfClosingStartTag name attrs =>
      if Ascii.eqb c ">" then Some ([StartTag name attrs], Data) else None
  | EndTagOpen =>
      if is_letter c then Some ([], EndTagName [lower c]) else None
  | EndTagName name =>
      if is_space c then Some ([], AfterEndTagName name)
      else if Ascii.eqb c ">" then Some ([EndTag name], Data)
      else if Ascii.eqb c "/" || Ascii.eqb c NUL then None
      else Some ([], EndTagName (name ++ [lower c]))
  | AfterEndTagName name =>
      if is_space c then Some ([], st)
      else if Ascii.eqb c ">" then Some ([EndTag name], Data)
      else None
  end.

(** The tokenizer over a stretch of the input. *)
Fixpoint tokenizer (st : tstate) (s : jsstring) : option (list htoken * tstate) :=
  match s with
  | [] => Some ([], st)
  | c :: r =>
      '(ts, st1) ← tokenizer_step st c;
      '(ts', st2) ← tokenizer st1 r;
      Some (ts ++ ts', st2)
  end.

(** The end of the input. *)
Definition end_of_input (st : tstate) : option (list htoken) :=
  match st with
  | Data | AfterCR => Some []
  | Reference [] => Some [Character "&"]
  | TagOpen => Some [Character "<"]
  | _ => None
  end.

Definition html_tokens (s : jsstring) : option (list htoken) :=
  '(ts, st) ← tokenizer Data s;
  ts' ← end_of_input st;
  Some (ts ++ ts').

(** *** The tree builder *)

(** The value of an attribute that the script reads: the model has it only
    when it is written without character reference, U+0000 and carriage
    return.  The values of other attributes are not read. *)
Definition plain_value (v : jsstring) : bool :=
  forallb (fun c => negb (Ascii.eqb c "&" || Ascii.eqb c NUL || Ascii.eqb c CR)) v.

(** Of two attributes of one name the first counts. *)
Fixpoint get_attribute (name : jsstring) (attrs : list (jsstring * jsstring))
  : option jsstring :=
  match attrs with
  | [] => None
  | (n, v) :: attrs' => if str_eqb n name then Some v else get_attribute name attrs'
  end.

(** The tokens of a class attribute. *)
Fixpoint class_tokens (cur : jsstring) (v : jsstring) : list jsstring :=
  match v with
  | [] => match cur with [] => [] | _ => [cur] end
  | c :: v' =>
      if is_space c
      then match cur with
           | [] => class_tokens [] v'
           | _ => cur :: class_tokens [] v'
           end
      else class_tokens (cur ++ [c]) v'
  end.

(** What a child adds to [innerText] of a span: the page sets
    [white-space: pre-wrap], so text stands as it is, and a br is a line
    feed. *)
Definition rendered_text (n : node) : jsstring :=
  match n with
  | Element tagName _ _ innerText _ =>
      if str_eqb tagName (str "BR") then [LF] else innerText
  | TextNode textContent => textContent
  | OtherNode => []
  end.

(** The element of a start tag and its children.  The script reads
    [innerText] of spans only; a div gets the same concatenation, which
    nothing reads. *)
Definition createElement (name : jsstring) (attrs : list (jsstring * jsstring))
    (children : list node) : option node :=
  let class := default [] (get_attribute (str "class") attrs) in
  let ansi := get_attribute (str "data-ansi") attrs in
  if plain_value class && plain_value (default [] ansi)
  then Some (Element (map upper name) (class_tokens [] class) ansi
               (concat (map rendered_text children)) children)
  else None.

(** What the tree builder holds: the children gathered for the current
    node, and the open elements from the current node outwards, each with
    its name, its attributes and the children that its parent had before
    it. *)
Record builder : Type := {
  current_children : list node;
  open_elements : list (jsstring * list (jsstring * jsstring) * list node)
}.

(** A character joins the text node before it, if there is one. *)
Definition insert_character (kids : list node) (c : ascii) : list node :=
  match last kids with
  | Some (TextNode t) => removelast kids ++ [TextNode (t ++ [c])]
  | _ => kids ++ [TextNode [c]]
  end.

Definition open_element (b : builder) (name : jsstring)
    (attrs : list (jsstring * jsstring)) : builder :=
  {| current_children := [];
     open_elements := (name, attrs, current_children b) :: open_elements b |}.

Definition append_child (b : builder) (el : node) : builder :=
  {| current_children := current_children b ++ [el];
     open_elements := open_elements b |}.

Definition current_name (b : builder) : option jsstring :=
  match open_elements b with
  | (name, _, _) :: _ => Some name
  | [] => None
  end.

(** The current node is closed and joins the children of its parent. *)
Definition pop (b : builder) : option builder :=
  match open_elements b with
  | (name, attrs, before) :: rest =>
      el ← createElement name attrs (current_children b);
      Some {| current_children := before ++ [el]; open_elements := rest |}
  | [] => None
  end.

(** Open elements are closed until a div has been closed. *)
Fixpoint close_div (kids : list node)
    (open : list (jsstring * list (jsstring * jsstring) * list node))
  : option builder :=
  match open with
  | [] => None
  | (name, attrs, before) :: rest =>
      el ← createElement name attrs kids;
      if str_eqb name (str "div")
      then Some {| current_children := before ++ [el]; open_elements := rest |}
      else close_div (before ++ [el]) rest
  end.

(** One token in the insertion mode of a body.  An end tag of span closes
    the current node when that is a span and is ignored otherwise; an end
    tag of br is read as its start tag.  Elements other than div, span and
    br, a div inside a span and an end tag of div without an open div are
    outside the model. *)
Definition tree_step (b : builder) (t : htoken) : option builder :=
  match t with
  | Character c =>
      Some {| current_children := insert_character (current_children b) c;
              open_elements := open_elements b |}
  | StartTag name attrs =>
      if str_eqb name (str "br") then
        el ← createElement name attrs []; Some (append_child b el)
      else if str_eqb name (str "span") then Some (open_element b name attrs)
      else if str_eqb name (str "div") then
        match current_name b with
        | Some n =>
            if str_eqb n (str "div") then Some (open_element b name attrs)
            else None
        | None => Some (open_element b name attrs)
        end
      else None
  | EndTag name =>
      if str_eqb name (str "br") then
        el ← createElement name [] []; Some (append_child b el)
      else if str_eqb name (str "span") then
        match current_name b with
        | Some n => if str_eqb n (str "span") then pop b else Some b
        | None => Some b
        end
      else if str_eqb name (str "div") then
        close_div (current_children b) (open_elements b)
      else None
  end.

Fixpoint tree (b : builder) (ts : list htoken) : option builder :=
  match ts with
  | [] => Some b
  | t :: ts' => b' ← tree_step b t; tree b' ts'
  end.

(** The children that the content element gets from a markup.  A markup
    that leaves an element open is outside the model. *)
Definition parseFragment (html : jsstring) : option (list node) :=
  ts ← html_tokens html;
  b ← tree {| current_children := []; open_elements := [] |} ts;
  match open_elements b with
  | [] => Some (current_children b)
  | _ => None
  end.

(** The white space that the page template puts before the markup (a line
    feed and five tabs) and after it (a line feed and four tabs). *)
Definition template_space (with_page : bool) (n : nat) : jsstring :=
  if with_page then LF :: replicate n TAB else [].

(** The content element of the webview after it was given the markup:
    inside the page, or by [content.innerHTML = html]. *)
Definition content_of (with_page : bool) (html : jsstring) : option node :=
  kids ← parseFragment
            (template_space with_page 5 ++ html ++ template_space with_page 4);
  Some (Element (str "DIV") [] None (concat (map rendered_text kids)) kids).

(** ** The compiled script [out/extension.js]

    [getHtmlForWebview] scans with the same pattern and has the same
    branches for control characters, erasing, deleting, cursor moves and
    text; its branch for sequences ending in m appends every one of them to
    the current style, the reset form included. *)

Definition getHtmlForWebview_ansi (s : state) (ansi : jsstring) : outcome state :=
  if endsWith ansi "m" then
    Ok (set_currentStyle s (currentStyle s ++ ansi))
  else if endsWith ansi "K" then
    let mode := param_or 0 ansi in
    let line := index (linesBuffer s) (cursorY s) in
    if is_num mode 0 then
      match line with
      | Some l => Ok (set_line s (splice l (cursorX s)))
      | None => TypeError
      end
    else if is_num mode 1 then
      line' ← blank_loop line (cursorX s);
      match line' with
      | Some l => Ok (set_line s l)
      | None => Ok s
      end
    else if is_num mode 2 then
      lb ← assign (linesBuffer s) (cursorY s) [];
      Ok (set_linesBuffer s lb)
    else Ok s
  else if endsWith ansi "J" then
    let mode := param_or 0 ansi in
    if is_num mode 0 then
      match index (linesBuffer s) (cursorY s) with
      | Some l =>
          let s' := set_line s (splice l (cursorX s)) in
          Ok (set_linesBuffer s' (clear_below (linesBuffer s') (cursorY s)))
      | None => TypeError
      end
    else if is_num mode 2 then
      Ok {| linesBuffer := [[]]; cursorX := Num 0; cursorY := Num 0;
            currentStyle := currentStyle s |}
    else Ok s
  else if endsWith ansi "P" then
    let count := param_or 1 ansi in
    match index (linesBuffer s) (cursorY s) with
    | Some l => Ok (set_line s (splice_count l (cursorX s) count))
    | None => TypeError
    end
  else if endsWith ansi "A" then
    let count := param_or 1 ansi in
    Ok (set_cursorY s (Math_max (Num 0) (sub (cursorY s) count)))
  else if endsWith ansi "B" then
    let count := param_or 1 ansi in
    let y := add (cursorY s) count in
    lb ← grow (linesBuffer s) y;
    Ok (set_linesBuffer (set_cursorY s y) lb)
  else if endsWith ansi "D" then
    let count := param_or 1 ansi in
    Ok (set_cursorX s (Math_max (Num 0) (sub (cursorX s) count)))
  else if endsWith ansi "C" then
    let count := param_or 1 ansi in
    Ok (set_cursorX s (add (cursorX s) count))
  else Ok s.

Definition getHtmlForWebview_step (s : state) (t : token) : outcome state :=
  match t with
  | oscSequence _ | keypadMode _ => Ok s
  | controlChar c => step_control s c
  | ansiCode [] => Ok s
  | ansiCode ansi => getHtmlForWebview_ansi s ansi
  | textPart [] => Ok s
  | textPart txt => step_text s txt
  end.

Fixpoint getHtmlForWebview_run (s : state) (ts : list token) : outcome state :=
  match ts with
  | [] => Ok s
  | t :: ts' => s' ← getHtmlForWebview_step s t; getHtmlForWebview_run s' ts'
  end.

(** The buffer that [getHtmlForWebview] builds from the raw text. *)
Definition getHtmlForWebview_buffer (text : jsstring) : outcome state :=
  getHtmlForWebview_run initial (tokenize text).

(** * Vocabulary of the properties *)

(** The text that a token captured. *)
Definition token_text (t : token) : jsstring :=
  match t with
  | ansiCode s | oscSequence s | keypadMode s | textPart s => s
  | controlChar c => [c]
  end.

(** A column that is not below 0: an integer from 0 on, Infinity or NaN. *)
Definition column_ok (x : number) : Prop :=
  match x with
  | Num i => 0 <= i
  | Infinity | NaN => True
  | NegInfinity => False
  end.

(** A parameter: an integer from 0 on, or Infinity. *)
Definition count_ok (c : number) : Prop :=
  match c with
  | Num i => 0 <= i
  | Infinity => True
  | NegInfinity | NaN => False
  end.

(** The cursor row is a row of the buffer, the cursor column is not below
    0, and the buffer has no more rows than an array can hold. *)
Definition cursor_ok (s : state) : Prop :=
  column_ok (cursorX s)
  /\ (exists y, cursorY s = Num y
                /\ 0 <= y < Z.of_nat (length (linesBuffer s)))
  /\ Z.of_nat (length (linesBuffer s)) <= max_length.

(** What an outcome may be when the interpreter is safe: a result with the
    property, or a failure other than reading a property of [undefined]. *)
Definition safely {A} (P : A -> Prop) (o : outcome A) : Prop :=
  match o with
  | Ok a => P a
  | TypeError => False
  | NotDense | RangeError | Diverges => True
  end.

(** The current style after a token, as the specification words it once
    the full-screen clear is left out: the reset form empties it, any other
    sequence ending in m is appended, and nothing else touches it. *)
Definition style_after (st : jsstring) (t : token) : jsstring :=
  match t with
  | ansiCode a =>
      if endsWith a "m" then
        if str_eqb a reset then [] else st ++ a
      else st
  | _ => st
  end.

(** A body that the lazy scan of an OSC sequence runs through: it holds no
    bell, no line terminator, and no ESC followed by a backslash. *)
Fixpoint osc_plain (body : jsstring) : bool :=
  match body with
  | [] => true
  | c :: r =>
      negb (Ascii.eqb c BEL) && negb (is_line_terminator c)
      && negb (Ascii.eqb c ESC
               && match r with d :: _ => Ascii.eqb d BACKSLASH | [] => false end)
      && osc_plain r
  end.

(** What one child of a line adds to the reconstructed text. *)
Definition contribution (child : node) : jsstring :=
  match child with
  | Element tagName _ dataAnsi innerText _ =>
      if str_eqb tagName (str "SPAN") then
        match dataAnsi with
        | Some ((_ :: _) as tag) => unescapeEsc tag ++ innerText ++ reset
        | _ => innerText
        end
      else if str_eqb tagName (str "BR") then []
      else processNode child
  | TextNode textContent => textContent
  | OtherNode => []
  end.

(** The cells that a span stands for: its characters, each in its style. *)
Definition span_cells (sp : span) : list cell :=
  map (fun ch => {| char := ch; style := spanAnsi sp |}) (spanText sp).

(** No two neighbouring spans have the same style string. *)
Definition adjacent_differ (spans : list span) : Prop :=
  forall i a b,
    spans !! i = Some a -> spans !! S i = Some b -> spanAnsi a <> spanAnsi b.

(** The spans of a row: they spell the row, none is empty, and neighbours
    differ in style. *)
Definition spans_of (spans : list span) (line : list cell) : Prop :=
  flat_map span_cells spans = line
  /\ Forall (fun sp => spanText sp <> []) spans
  /\ adjacent_differ spans.

(** The shape of a CSI match: ESC, an opening bracket, parameter bytes and
    a final letter. *)
Definition csi_shape (a : jsstring) : Prop :=
  exists ps f, a = ESC :: "["%char :: ps ++ [f]
               /\ Forall (fun c => is_param c = true) ps
               /\ is_letter f = true.

(** What the scanner can yield. *)
Definition token_wf (t : token) : Prop :=
  match t with
  | ansiCode a => csi_shape a
  | textPart txt => txt <> [] /\ Forall (fun c => is_text c = true) txt
  | _ => True
  end.

(** An SGR sequence that is not the reset form. *)
Definition sgr_code (a : jsstring) : Prop :=
  exists ps, a = ESC :: "["%char :: ps ++ ["m"%char]
             /\ Forall (fun c => is_param c = true) ps
             /\ a <> reset.

(** An accumulated style: such sequences, one after the other. *)
Inductive sgr_string : jsstring -> Prop :=
| sgr_nil : sgr_string []
| sgr_cons a st : sgr_code a -> sgr_string st -> sgr_string (a ++ st).

(** A cell as the interpreter writes them: a character of a text run, or
    the blank, in an accumulated style. *)
Definition good_cell (c : cell) : Prop :=
  is_text (char c) = true /\ sgr_string (style c).

(** A row of such cells that an array can hold. *)
Definition good_row (line : list cell) : Prop :=
  Forall good_cell line /\ Z.of_nat (length line) <= max_length.

Definition grid_ok (s : state) : Prop :=
  Forall good_row (linesBuffer s) /\ sgr_string (currentStyle s).

(** The text that the reconstructor gives for the spans of a line. *)
Definition span_raw (sp : span) : jsstring :=
  match spanAnsi sp with
  | [] => spanText sp
  | a => a ++ spanText sp ++ reset
  end.

Definition line_raw (spans : list span) : jsstring :=
  concat (map span_raw spans).

(** The interpreter at the end of the last row [cur] of a buffer, the rows
    [above] being complete. *)
Definition at_row (above : list (list cell)) (cur : list cell) (sty : jsstring)
  : state :=
  {| linesBuffer := above ++ [cur];
     cursorX := Num (Z.of_nat (length cur));
     cursorY := Num (Z.of_nat (length above));
     currentStyle := sty |}.

(** A text run ends where the text ends or a character outside the class
    of text runs follows. *)
Definition boundary (r : jsstring) : Prop :=
  match r with
  | [] => True
  | c :: _ => is_text c = false
  end.

(** A span whose text a text run can hold and whose style is an accumulated
    style. *)
Definition span_good (sp : span) : Prop :=
  spanText sp <> []
  /\ Forall (fun c => is_text c = true) (spanText sp)
  /\ sgr_string (spanAnsi sp).

(** What holds of the loop variables of the renderer after the cells
    [seen] of a row. *)
Record line_inv {AnsiUp : Type} (st : lineState AnsiUp) (seen : list cell)
  : Prop := {
  li_cells :
    flat_map span_cells (lineHtml st)
    ++ map (fun ch => {| char := ch; style := currentSpanAnsi st |})
         (currentSpanText st) = seen;
  li_nonempty : Forall (fun sp => spanText sp <> []) (lineHtml st);
  li_adjacent : adjacent_differ (lineHtml st);
  li_last : forall l, last (lineHtml st) = Some l ->
                      spanAnsi l <> currentSpanAnsi st;
  li_start : currentSpanText st = [] -> lineHtml st = []
}.

(** ** Vocabulary of the markup as the webview reads it *)

(** A text without the characters U+0000, which the parser drops. *)
Definition strip_nul (t : jsstring) : jsstring :=
  List.filter (fun c => negb (Ascii.eqb c NUL)) t.

(** The text node of a text, if it is not empty. *)
Definition text_nodes (t : jsstring) : list node :=
  match t with
  | [] => []
  | _ => [TextNode t]
  end.

(** The attributes that [spanHtml] writes. *)
Definition span_attributes (sp : span) : list (jsstring * jsstring) :=
  match styleAttr sp with
  | [] => []
  | a => [(str "style", a)]
  end
  ++ match spanAnsi sp with
     | [] => []
     | a => [(str "data-ansi", escapeEsc a)]
     end.

(** The tokens that the markup of a span and of a line is read as. *)
Definition span_tokens (sp : span) : list htoken :=
  StartTag (str "span") (span_attributes sp)
  :: map Character (strip_nul (spanText sp)) ++ [EndTag (str "span")].

Definition line_tokens (spans : list span) : list htoken :=
  StartTag (str "div") [(str "class", str "line")]
  :: match spans with
     | [] => [StartTag (str "br") []]
     | _ => concat (map span_tokens spans)
     end
  ++ [EndTag (str "div")].

(** The elements that they are built into. *)
Definition span_element (sp : span) : node :=
  Element (str "SPAN") []
    match spanAnsi sp with
    | [] => None
    | a => Some (escapeEsc a)
    end
    (strip_nul (spanText sp)) (text_nodes (strip_nul (spanText sp))).

Definition line_children (spans : list span) : list node :=
  match spans with
  | [] => [Element (str "BR") [] None [] []]
  | _ => map span_element spans
  end.

Definition line_element (spans : list span) : node :=
  Element (str "DIV") [str "line"] None
    (concat (map rendered_text (line_children spans))) (line_children spans).

(** What the parser needs of a span: attribute values without a double
    quote, and a text that a text run can hold. *)
Definition span_readable (sp : span) : Prop :=
  Forall (fun c => c <> QUOTE) (styleAttr sp)
  /\ Forall (fun c => c <> QUOTE) (escapeEsc (spanAnsi sp))
  /\ plain_value (escapeEsc (spanAnsi sp)) = true
  /\ Forall (fun c => is_text c = true) (spanText sp).

(** A span whose text holds no U+0000. *)
Definition span_clean (sp : span) : Prop :=
  span_good sp /\ Forall (fun c => c <> NUL) (spanText sp).

(** ** Vocabulary of the further properties *)

(** The final letters for which the interpreter has a branch. *)
Definition known_final (f : ascii) : bool :=
  existsb (Ascii.eqb f)
    ["m"; "K"; "J"; "P"; "A"; "B"; "C"; "D"]%char.

(** The text ends, or goes on with a line terminator. *)
Definition line_end (r : jsstring) : Prop :=
  match r with
  | [] => True
  | c :: _ => is_line_terminator c = true
  end.

(** The tokens that change cells of the buffer: text runs and the erase
    and delete sequences (final letters K, J and P). *)
Definition edits_cells (t : token) : bool :=
  match t with
  | textPart (_ :: _) => true
  | ansiCode a =>
      negb (endsWith a "m")
      && (endsWith a "K" || endsWith a "J" || endsWith a "P")
  | _ => false
  end.

(** A row after the padding loop has made it reach column [x]. *)
Definition padded (line : list cell) (x : Z) : list cell :=
  line ++ replicate (Z.to_nat (x - Z.of_nat (length line))) blank.

(** The number of cells that a count stands for in a row. *)
Definition count_cells (count : number) (len : nat) : nat :=
  match count with
  | Num n => Z.to_nat n
  | Infinity => len
  | NegInfinity | NaN => 0%nat
  end.

(** Lines that are no more and no longer than an array has room for. *)
Definition fits (lines : list jsstring) : Prop :=
  Z.of_nat (length lines) <= max_length
  /\ Forall (fun l : jsstring => Z.of_nat (length l) <= max_length) lines.

(** A cell with a character and a style. *)
Definition mk_cell (sty : jsstring) (ch : ascii) : cell :=
  {| char := ch; style := sty |}.

(** The spans of a row of unstyled cells spelling [l]. *)
Definition text_spans (l : jsstring) : list span :=
  match l with
  | [] => []
  | _ => [{| styleAttr := []; spanAnsi := []; spanText := l |}]
  end.

(** The markup of a line of plain text. *)
Definition plain_markup (l : jsstring) : jsstring :=
  str "<div class=" ++ [QUOTE] ++ str "line" ++ [QUOTE] ++ str ">"
  ++ match l with
     | [] => str "<br>"
     | _ => str "<span>" ++ escapeHtml l ++ str "</span>"
     end
  ++ str "</div>".

(** A tree in which no span carries a tag and no text holds ESC. *)
Fixpoint esc_free (n : node) : bool :=
  match n with
  | Element tagName _ dataAnsi innerText children =>
      (if str_eqb tagName (str "SPAN")
       then match dataAnsi with
            | Some (_ :: _) => false
            | _ => forallb (fun c => negb (Ascii.eqb c ESC)) innerText
            end
       else true)
      && forallb esc_free children
  | TextNode textContent => forallb (fun c => negb (Ascii.eqb c ESC)) textContent
  | OtherNode => true
  end.

(** A left inverse of [escapeHtml]: the three character references that it
    writes are replaced by their characters. *)
Fixpoint decodeRefs (s : jsstring) : jsstring :=
  match s with
  | [] => []
  | c :: s1 =>
      match s1 with
      | c1 :: c2 :: c3 :: s4 =>
          if str_eqb [c; c1; c2; c3] (str "&lt;") then "<"%char :: decodeRefs s4
          else if str_eqb [c; c1; c2; c3] (str "&gt;") then ">"%char :: decodeRefs s4
          else
            match s4 with
            | c4 :: s5 =>
                if str_eqb [c; c1; c2; c3; c4] (str "&amp;")
                then "&"%char :: decodeRefs s5
                else c :: decodeRefs s1
            | [] => c :: decodeRefs s1
            end
      | _ => c :: decodeRefs s1
      end
  end.

(** Two cells with the same character. *)
Definition same_char (c1 c2 : cell) : Prop := char c1 = char c2.

(** Two states with the same cursor and the same characters in the same
    cells, whatever the styles. *)
Definition same_chars (s1 s2 : state) : Prop :=
  cursorX s1 = cursorX s2 /\ cursorY s1 = cursorY s2
  /\ Forall2 (Forall2 same_char) (linesBuffer s1) (linesBuffer s2).

(** Two states with the same cursor and the same characters in the same
    cells of the same rows. *)
Definition same_layout (s1 s2 : state) : Prop :=
  cursorX s1 = cursorX s2 /\ cursorY s1 = cursorY s2
  /\ map (map char) (linesBuffer s1) = map (map char) (linesBuffer s2).

(** Two outcomes that are the same failure or two related results. *)
Definition outcome_rel {A} (R : A -> A -> Prop) (o1 o2 : outcome A) : Prop :=
  match o1, o2 with
  | Ok a, Ok b => R a b
  | TypeError, TypeError => True
  | NotDense, NotDense => True
  | RangeError, RangeError => True
  | Diverges, Diverges => True
  | _, _ => False
  end.

(** A token holding a sequence that ends in m. *)
Definition is_sgr (t : token) : bool :=
  match t with
  | ansiCode a => endsWith a "m"
  | _ => false
  end.

(** The current style of the compiled script after a token. *)
Definition compiled_style_after (st : jsstring) (t : token) : jsstring :=
  match t with
  | ansiCode a => if endsWith a "m" then st ++ a else st
  | _ => st
  end.

(** * Properties of the tokenizer *)

Section WhileLemmas.
Context {A : Type} (p : A -> bool).

Lemma take_drop_while (l : list A) : take_while p l ++ drop_while p l = l.
Proof.
  induction l as [|x l IH]; simpl; [done|].
  destruct (p x); simpl; [by rewrite IH | done].
Qed.

Lemma drop_while_length (l : list A) :
  (length (drop_while p l) <= length l)%nat.
Proof.
  induction l as [|x l IH]; simpl; [lia|].
  destruct (p x); simpl; lia.
Qed.

Lemma take_while_Forall (l : list A) :
  Forall (fun x => p x = true) (take_while p l).
Proof.
  induction l as [|x l IH]; simpl; [constructor|].
  destruct (p x) eqn:E; by constructor.
Qed.

Lemma drop_while_head (l : list A) x r :
  drop_while p l = x :: r -> p x = false.
Proof.
  induction l as [|y l IH]; simpl; [done|].
  destruct (p y) eqn:E; [done|]. by intros [= -> _].
Qed.

Lemma take_while_app (l r : list A) :
  Forall (fun x => p x = true) l ->
  take_while p (l ++ r) = l ++ take_while p r.
Proof.
  induction 1 as [|x l Hx _ IH]; simpl; [done|]. by rewrite Hx, IH.
Qed.

Lemma drop_while_app (l r : list A) :
  Forall (fun x => p x = true) l ->
  drop_while p (l ++ r) = drop_while p r.
Proof.
  induction 1 as [|x l Hx _ IH]; simpl; [done|]. by rewrite Hx, IH.
Qed.

Lemma take_while_stop (x : A) (r : list A) :
  p x = false -> take_while p (x :: r) = [].
Proof. simpl. by intros ->. Qed.

Lemma drop_while_stop (x : A) (r : list A) :
  p x = false -> drop_while p (x :: r) = x :: r.
Proof. simpl. by intros ->. Qed.
End WhileLemmas.

Lemma osc_body_split s m rest :
  osc_body s = Some (m, rest) -> s = m ++ rest /\ m <> [].
Proof.
  revert m rest. induction s as [|c r IH]; intros m rest; simpl; [done|].
  destruct (Ascii.eqb c BEL); [by intros [= <- <-]|].
  destruct r as [|d r']; [done|].
  destruct (Ascii.eqb c ESC && Ascii.eqb d BACKSLASH); [by intros [= <- <-]|].
  destruct (is_line_terminator c); [done|].
  destruct (osc_body (d :: r')) as [[m' rest']|]; [|done].
  intros [= <- <-]. destruct (IH m' rest' eq_refl) as [-> _]. done.
Qed.

Lemma match_csi_split s m rest :
  match_csi s = Some (m, rest) -> s = m ++ rest /\ m <> [].
Proof.
  unfold match_csi. destruct s as [|e [|b r]]; try done.
  destruct (Ascii.eqb e ESC && Ascii.eqb b "["); [|done].
  destruct (drop_while is_param r) as [|f r'] eqn:E; [done|].
  destruct (is_letter f); [|done]. intros [= <- <-]. split; [|done].
  simpl. rewrite <- (app_assoc _ [f] r'). simpl. rewrite <- E.
  by rewrite take_drop_while.
Qed.

Lemma match_osc_split s m rest :
  match_osc s = Some (m, rest) -> s = m ++ rest /\ m <> [].
Proof.
  unfold match_osc. destruct s as [|e [|b r]]; try done.
  destruct (Ascii.eqb e ESC && Ascii.eqb b "]"); [|done].
  destruct (osc_body r) as [[m' rest']|] eqn:E; [|done].
  intros [= <- <-]. apply osc_body_split in E as [-> _]. done.
Qed.

Lemma match_keypad_split s m rest :
  match_keypad s = Some (m, rest) -> s = m ++ rest /\ m <> [].
Proof.
  unfold match_keypad. destruct s as [|e [|k r]]; try done.
  destruct (Ascii.eqb e ESC && _); [|done]. by intros [= <- <-].
Qed.

(** A match is a non-empty prefix of the text, captured whole. *)
Lemma tokenRegex_split s t rest :
  tokenRegex s = Some (t, rest) ->
  s = token_text t ++ rest /\ token_text t <> [].
Proof.
  unfold tokenRegex.
  destruct (match_csi s) as [[m r]|] eqn:E1.
  { intros [= <- <-]. by apply match_csi_split. }
  destruct (match_osc s) as [[m r]|] eqn:E2.
  { intros [= <- <-]. by apply match_osc_split. }
  destruct (match_keypad s) as [[m r]|] eqn:E3.
  { intros [= <- <-]. by apply match_keypad_split. }
  destruct s as [|c r]; [done|].
  destruct (is_control c); [by intros [= <- <-]|].
  destruct (is_text c) eqn:Et; [|done].
  intros [= <- <-]. split.
  - exact (eq_sym (take_drop_while is_text (c :: r))).
  - simpl. by rewrite Et.
Qed.

Lemma tokenRegex_shorter s t rest :
  tokenRegex s = Some (t, rest) -> (length rest < length s)%nat.
Proof.
  intros H. apply tokenRegex_split in H as [-> Hne].
  rewrite length_app. destruct (token_text t); [done|]. simpl. lia.
Qed.

(** Any fuel at least the length of the text gives the same tokens. *)
Lemma exec_loop_fuel f1 f2 s :
  (length s <= f1)%nat -> (length s <= f2)%nat ->
  exec_loop f1 s = exec_loop f2 s.
Proof.
  revert f2 s. induction f1 as [|f1 IH]; intros f2 s H1 H2.
  - destruct s; [|simpl in H1; lia]. by destruct f2.
  - destruct f2 as [|f2]; [destruct s; [done|simpl in H2; lia]|].
    simpl. destruct s as [|c s']; [done|]. simpl in H1, H2.
    destruct (tokenRegex (c :: s')) as [[t rest]|] eqn:E.
    + apply tokenRegex_shorter in E. simpl in E. f_equal. apply IH; lia.
    + apply IH; lia.
Qed.

(** The scanning loop, one match at a time. *)
Lemma tokenize_cons c s :
  tokenize (c :: s) =
  match tokenRegex (c :: s) with
  | Some (t, rest) => t :: tokenize rest
  | None => tokenize s
  end.
Proof.
  unfold tokenize. simpl.
  destruct (tokenRegex (c :: s)) as [[t rest]|] eqn:E.
  - apply tokenRegex_shorter in E. simpl in E. f_equal. apply exec_loop_fuel; lia.
  - done.
Qed.

(** * Properties of the numbers *)

Lemma round53_small z : z < max_safe -> round53 z = z.
Proof.
  intros H. unfold round53. by destruct (Z.ltb_spec z max_safe); [|lia].
Qed.

Lemma round53_nonneg z : 0 <= z -> 0 <= round53 z.
Proof.
  intros H. unfold round53. destruct (Z.ltb_spec z max_safe); [done|].
  apply Z.shiftl_nonneg.
  assert (0 <= Z.shiftr z (Z.log2 z - 52)) by (apply Z.shiftr_nonneg; lia).
  destruct (_ || _); lia.
Qed.

(** Below 2^53 in absolute value every integer is a double. *)
Lemma to_number_exact z : - max_safe < z < max_safe -> to_number z = Num z.
Proof.
  intros H. unfold to_number. rewrite round53_small by (unfold max_safe in *; lia).
  destruct (Z.leb_spec (2 ^ 1024) (Z.abs z)) as [Hb|_].
  - assert (max_safe < 2 ^ 1024) by (by vm_compute). lia.
  - f_equal. lia.
Qed.

Lemma to_number_nonneg z :
  0 <= z -> (exists v, to_number z = Num v /\ 0 <= v) \/ to_number z = Infinity.
Proof.
  intros H. unfold to_number.
  pose proof (round53_nonneg (Z.abs z) ltac:(lia)) as Hr.
  destruct (2 ^ 1024 <=? round53 (Z.abs z)).
  - right. by destruct (Z.ltb_spec z 0); [lia|].
  - left. eexists. split; [done|]. nia.
Qed.

Lemma to_number_nonpos z :
  z <= 0 ->
  (exists v, to_number z = Num v /\ v <= 0) \/ to_number z = NegInfinity.
Proof.
  intros H. unfold to_number.
  pose proof (round53_nonneg (Z.abs z) ltac:(lia)) as Hr.
  destruct (Z.leb_spec (2 ^ 1024) (round53 (Z.abs z))) as [Hb|_].
  - destruct (Z.ltb_spec z 0); [by right|].
    assert (z = 0) as -> by lia. exfalso. revert Hb. vm_compute.
    intros Hb. by apply Hb.
  - left. eexists. split; [done|]. nia.
Qed.

Lemma decimal_nonneg ds :
  Forall (fun c => is_digit c = true) ds -> 0 <= decimal ds.
Proof.
  unfold decimal. intros Hds.
  cut (forall a, 0 <= a ->
         0 <= foldl (fun acc d => 10 * acc + (Z.of_N (code d) - 48)) a ds).
  { intros H. by apply H. }
  induction Hds as [|d ds Hd _ IH]; intros a Ha; simpl; [done|].
  apply IH. unfold is_digit in Hd. apply andb_prop in Hd as [Hd _].
  apply N.leb_le in Hd. lia.
Qed.

Lemma count_ok_to_number z : 0 <= z -> count_ok (to_number z).
Proof.
  intros H. by destruct (to_number_nonneg z H) as [(v & -> & Hv)| ->].
Qed.

Lemma parseInt_digits ds :
  ds <> [] -> Forall (fun c => is_digit c = true) ds ->
  parseInt ds = to_number (decimal ds).
Proof.
  intros Hne Hd. unfold parseInt.
  replace (take_while is_digit ds) with ds.
  - by destruct ds.
  - clear Hne. induction Hd as [|d ds Hd _ IH]; simpl; [done|].
    by rewrite Hd, <- IH.
Qed.

(** A parameter is an integer from 0 on or, from 309 digits, Infinity. *)
Lemma param_or_ok dflt ansi : 0 <= dflt -> count_ok (param_or dflt ansi).
Proof.
  intros H. unfold param_or, match_digits.
  pose proof (take_while_Forall is_digit
                (drop_while (fun c => negb (is_digit c)) ansi)) as Hd.
  destruct (take_while is_digit _) as [|d ds] eqn:E; [done|].
  rewrite parseInt_digits by done.
  apply count_ok_to_number. by apply decimal_nonneg.
Qed.

Lemma column_ok_max n : column_ok (Math_max (Num 0) n).
Proof. destruct n; simpl; try done. lia. Qed.

Lemma column_ok_add x c : column_ok x -> count_ok c -> column_ok (add x c).
Proof.
  destruct x as [x| | |], c as [c| | |]; simpl; try done.
  intros Hx Hc. by destruct (to_number_nonneg (x + c)) as [(v & -> & Hv)| ->];
    [lia| |].
Qed.

Lemma count_ok_add y c : 0 <= y -> count_ok c -> count_ok (add (Num y) c).
Proof.
  destruct c as [c| | |]; simpl; try done.
  intros Hy Hc. by apply count_ok_to_number; lia.
Qed.

(** Moving up from a row of the buffer leads to a row of the buffer. *)
Lemma row_up y c :
  0 <= y < max_length -> count_ok c ->
  exists y', Math_max (Num 0) (sub (Num y) c) = Num y' /\ 0 <= y' <= y.
Proof.
  intros Hy Hc. destruct c as [c| | |]; simpl in *; try done.
  - destruct (Z.le_gt_cases c y).
    + rewrite to_number_exact by (unfold max_length, max_safe in *; lia).
      exists (y - c). split; [f_equal|]; lia.
    + destruct (to_number_nonpos (y - c)) as [(v & -> & Hv)| ->]; [lia| |].
      * exists 0. split; [simpl; f_equal|]; lia.
      * exists 0. split; [done|lia].
  - exists 0. split; [done|lia].
Qed.

(** * Properties of the arrays *)

Lemma index_in_range {A} (arr : list A) i :
  0 <= i < Z.of_nat (length arr) -> exists v, index arr (Num i) = Some v.
Proof.
  intros H. unfold index. destruct (Z.ltb_spec i 0); [lia|].
  apply lookup_lt_is_Some_2. lia.
Qed.

Lemma index_Some_range {A} (arr : list A) n v :
  index arr n = Some v ->
  exists i, n = Num i /\ 0 <= i < Z.of_nat (length arr)
            /\ arr !! Z.to_nat i = Some v.
Proof.
  unfold index. destruct n as [i| | |]; try done.
  destruct (Z.ltb_spec i 0); [done|].
  intros Hl. exists i. split; [done|]. split; [|done].
  apply lookup_lt_Some in Hl. lia.
Qed.

Lemma index_length {A} (arr : list A) :
  index arr (Num (Z.of_nat (length arr))) = None.
Proof.
  unfold index. destruct (Z.ltb_spec (Z.of_nat (length arr)) 0); [done|].
  apply lookup_ge_None_2. lia.
Qed.

Lemma assign_inside {A} (arr : list A) i v :
  0 <= i < Z.of_nat (length arr) ->
  assign arr (Num i) v = Ok (<[Z.to_nat i := v]> arr).
Proof.
  intros H. unfold assign.
  destruct (Z.ltb_spec i 0); [lia|].
  destruct (Z.ltb_spec i (Z.of_nat (length arr))); [done|lia].
Qed.

Lemma assign_end {A} (arr : list A) v :
  Z.of_nat (length arr) < max_length ->
  assign arr (Num (Z.of_nat (length arr))) v = Ok (arr ++ [v]).
Proof.
  intros H. unfold assign.
  destruct (Z.ltb_spec (Z.of_nat (length arr)) 0); [lia|].
  destruct (Z.ltb_spec (Z.of_nat (length arr)) (Z.of_nat (length arr))); [lia|].
  rewrite Z.eqb_refl. by destruct (Z.ltb_spec (Z.of_nat (length arr)) max_length);
    [|lia].
Qed.

Lemma length_clear_below lb y : length (clear_below lb y) = length lb.
Proof.
  unfold clear_below. destruct y; [|done..].
  rewrite length_app, length_take, length_replicate. lia.
Qed.

Lemma length_set_line s line :
  length (linesBuffer (set_line s line)) = length (linesBuffer s).
Proof.
  unfold set_line. destruct (cursorY s); [|done..]. simpl.
  by rewrite length_insert.
Qed.

Lemma cursor_set_line s line :
  cursorX (set_line s line) = cursorX s /\ cursorY (set_line s line) = cursorY s
  /\ currentStyle (set_line s line) = currentStyle s.
Proof. destruct s as [lb x y st]. unfold set_line. simpl. by destruct y. Qed.

Lemma currentStyle_set_line s line :
  currentStyle (set_line s line) = currentStyle s.
Proof. apply cursor_set_line. Qed.

(** * The cursor stays on the buffer *)

(** Case analysis on the tests and array accesses of a branch of [step]. *)
Ltac branches :=
  repeat match goal with
  | |- context [if ?b then _ else _] => destruct b
  | |- context [match index ?l ?i with _ => _ end] => destruct (index l i)
  | |- context [assign ?l ?i ?v] => destruct (assign l i v) eqn:?
  | |- context [blank_loop ?l ?x] => destruct (blank_loop l x) as [[?|]| | | |] eqn:?
  | |- context [grow ?l ?y] => destruct (grow l y) eqn:?
  end.

Lemma safely_bind {A B} (P : A -> Prop) (Q : B -> Prop)
    (m : outcome A) (f : A -> outcome B) :
  safely P m -> (forall a, P a -> safely Q (f a)) -> safely Q (m ≫= f).
Proof. destruct m; simpl; auto. Qed.

Lemma safely_impl {A} (P Q : A -> Prop) (o : outcome A) :
  safely P o -> (forall a, P a -> Q a) -> safely Q o.
Proof. destruct o; simpl; auto. Qed.

Lemma assign_Ok {A} (arr : list A) n v arr' :
  assign arr n v = Ok arr' ->
  exists i, n = Num i
    /\ (0 <= i < Z.of_nat (length arr) /\ arr' = <[Z.to_nat i := v]> arr
        \/ i = Z.of_nat (length arr) /\ i < max_length /\ arr' = arr ++ [v]).
Proof.
  unfold assign. destruct n as [i| | |]; try done.
  destruct (Z.ltb_spec i 0); [done|].
  destruct (Z.ltb_spec i (Z.of_nat (length arr))).
  { intros [= <-]. exists i. split; [done|]. left. split; [lia|done]. }
  destruct (Z.eqb_spec i (Z.of_nat (length arr))); [|done].
  destruct (Z.ltb_spec i max_length); [|done].
  intros [= <-]. exists i. split; [done|]. by right.
Qed.

Lemma assign_safe {A} (arr : list A) n v : safely (fun _ => True) (assign arr n v).
Proof.
  unfold assign. destruct n; try done. by repeat (destruct (_ : bool)).
Qed.

Lemma pad_Ok line x line' :
  pad line x = Ok line' ->
  (lt (Num (Z.of_nat (length line))) x = false /\ line' = line)
  \/ exists i, x = Num i /\ Z.of_nat (length line) < i <= max_length
               /\ line' = line ++ replicate (Z.to_nat (i - Z.of_nat (length line))) blank.
Proof.
  unfold pad. destruct (lt _ x) eqn:E.
  - destruct x as [i| | |]; try done. simpl in E.
    destruct (Z.leb_spec i max_length); [|done]. intros [= <-].
    right. exists i. split; [done|]. split; [lia|done].
  - intros [= <-]. by left.
Qed.

Lemma pad_safe line x : safely (fun _ => True) (pad line x).
Proof.
  unfold pad. destruct (lt _ x); [|done].
  destruct x; try done. by destruct (_ <=? _).
Qed.

Lemma put_safe line x c : safely (fun _ => True) (put line x c).
Proof.
  unfold put. destruct x; try done. destruct (_ && _); [|done].
  apply assign_safe.
Qed.

Lemma write_ok line x sty txt :
  column_ok x -> safely (fun r => column_ok r.2) (write line x sty txt).
Proof.
  revert line x. induction txt as [|ch txt IH]; intros line x Hx; [done|].
  cbn [write]. eapply safely_bind; [apply pad_safe|]. intros l1 _.
  eapply safely_bind; [apply put_safe|]. intros l2 _.
  apply IH. by apply column_ok_add.
Qed.

Lemma cursor_ok_set_line s line : cursor_ok s -> cursor_ok (set_line s line).
Proof.
  intros (Hx & (y & Hy & Hr) & Hl). unfold set_line. rewrite Hy.
  split; [done|]. simpl. rewrite length_insert. split; [|done]. by exists y.
Qed.

Lemma cursor_ok_set_linesBuffer s lb :
  cursor_ok s -> length lb = length (linesBuffer s) ->
  cursor_ok (set_linesBuffer s lb).
Proof.
  intros (Hx & (y & Hy & Hr) & Hl) E. split; [done|]. simpl. rewrite E.
  split; [by exists y|done].
Qed.

Lemma cursor_ok_set_cursorX s x :
  cursor_ok s -> column_ok x -> cursor_ok (set_cursorX s x).
Proof. intros (_ & Hy & Hl) Hx. by split. Qed.

Lemma step_control_ok s c :
  cursor_ok s -> safely cursor_ok (step_control s c).
Proof.
  intros (Hx & (y & Hy & Hr) & Hl). unfold step_control.
  destruct (Ascii.eqb c LF).
  - rewrite Hy. cbn [add].
    rewrite to_number_exact by (unfold max_length, max_safe in *; lia).
    destruct (index (linesBuffer s) (Num (y + 1))) as [v|] eqn:E;
      cbn [mbind outcome_bind safely].
    + apply index_Some_range in E as (i & [= <-] & Hi & _).
      split; [simpl; lia|]. split; [|done]. exists (y + 1). by split.
    + pose proof (assign_safe (linesBuffer s) (Num (y + 1)) []) as Hs.
      destruct (assign (linesBuffer s) (Num (y + 1)) []) as [lb| | | |] eqn:Ea;
        try done; cbn [mbind outcome_bind safely].
      apply assign_Ok in Ea as (i & [= <-] & [(Hi & ->)|(Hi & Hm & ->)]).
      * destruct (index_in_range (linesBuffer s) (y + 1) Hi) as [v Hv].
        congruence.
      * split; [simpl; lia|]. simpl. rewrite length_app. simpl.
        split; [|lia]. exists (y + 1). split; [done|lia].
  - destruct (Ascii.eqb c CR); [|destruct (Ascii.eqb c BS)]; simpl.
    + apply cursor_ok_set_cursorX; [by split; [|split; [exists y|]]|simpl; lia].
    + apply cursor_ok_set_cursorX; [by split; [|split; [exists y|]]|].
      apply column_ok_max.
    + by split; [|split; [exists y|]].
Qed.

Lemma blank_loop_safe l x :
  safely (fun r => exists l', r = Some l') (blank_loop (Some l) x).
Proof.
  unfold blank_loop. destruct (lt (Num 0) x); [|by exists l].
  destruct x; try done. destruct (_ <=? _); [|done]. by eexists.
Qed.

Lemma grow_Ok lb y lb' :
  grow lb y = Ok lb' ->
  (le (Num (Z.of_nat (length lb))) y = false /\ lb' = lb)
  \/ exists i, y = Num i /\ Z.of_nat (length lb) <= i < max_length
               /\ lb' = lb ++ replicate (Z.to_nat (i + 1 - Z.of_nat (length lb))) [].
Proof.
  unfold grow. destruct (le _ y) eqn:E.
  - destruct y as [i| | |]; try done. simpl in E.
    destruct (Z.ltb_spec i max_length); [|done]. intros [= <-].
    right. exists i. split; [done|]. split; [lia|done].
  - intros [= <-]. by left.
Qed.

Lemma grow_safe lb y : safely (fun _ => True) (grow lb y).
Proof.
  unfold grow. destruct (le _ y); [|done].
  destruct y; try done. by destruct (_ <? _).
Qed.

Lemma step_ansi_ok s ansi :
  cursor_ok s -> safely cursor_ok (step_ansi s ansi).
Proof.
  intros H. pose proof H as (Hx & (y & Hy & Hr) & Hl). unfold step_ansi.
  destruct (index_in_range (linesBuffer s) y Hr) as [l Hi].
  pose proof (param_or_ok 1 ansi ltac:(lia)) as Hc.
  rewrite Hy, Hi.
  destruct (endsWith ansi "m").
  { by destruct (str_eqb ansi reset). }
  destruct (endsWith ansi "K").
  { destruct (is_num _ 0); [by apply cursor_ok_set_line|].
    destruct (is_num _ 1).
    - eapply safely_bind; [apply blank_loop_safe|]. intros r (l' & ->).
      by apply cursor_ok_set_line.
    - destruct (is_num _ 2); [|done].
      rewrite assign_inside by done. cbn [mbind outcome_bind safely].
      apply cursor_ok_set_linesBuffer; [done|apply length_insert]. }
  destruct (endsWith ansi "J").
  { destruct (is_num _ 0).
    - apply cursor_ok_set_linesBuffer; [by apply cursor_ok_set_line|].
      apply length_clear_below.
    - destruct (is_num _ 2); [|done]. simpl.
      split; [simpl; lia|]. split; [exists 0; simpl; split; [done|lia]|].
      by vm_compute. }
  destruct (endsWith ansi "P"); [by apply cursor_ok_set_line|].
  destruct (endsWith ansi "A").
  { destruct (row_up y (param_or 1 ansi)) as (y' & -> & Hy'); [lia|done|].
    split; [done|]. split; [exists y'; split; [done|simpl; lia]|done]. }
  destruct (endsWith ansi "B").
  { eapply safely_bind with (P := fun lb =>
      exists y', add (Num y) (param_or 1 ansi) = Num y'
                 /\ 0 <= y' < Z.of_nat (length lb)
                 /\ Z.of_nat (length lb) <= max_length).
    - pose proof (grow_safe (linesBuffer s) (add (Num y) (param_or 1 ansi)))
        as Hs.
      destruct (grow _ _) as [lb| | | |] eqn:Eg; try done. cbn [safely].
      assert (count_ok (add (Num y) (param_or 1 ansi))) as Hcol
        by (apply count_ok_add; [lia|done]).
      apply grow_Ok in Eg as [(Hle & ->)|(i & Ey & Hg & ->)].
      + destruct (add (Num y) (param_or 1 ansi)) as [y'| | |]; try done.
        simpl in Hle, Hcol. exists y'. split; [done|]. split; [|done].
        destruct (Z.leb_spec (Z.of_nat (length (linesBuffer s))) y'); [done|lia].
      + exists i. split; [done|]. rewrite length_app, length_replicate. lia.
    - intros lb (y' & Ey & Hy' & Hl'). cbn [safely]. rewrite Ey.
      split; [done|]. split; [by exists y'|done]. }
  destruct (endsWith ansi "D").
  { apply cursor_ok_set_cursorX; [done|apply column_ok_max]. }
  destruct (endsWith ansi "C"); [|done].
  apply cursor_ok_set_cursorX; [done|by apply column_ok_add].
Qed.

Lemma step_text_ok s txt :
  cursor_ok s -> safely cursor_ok (step_text s txt).
Proof.
  intros H. pose proof H as (Hx & (y & Hy & Hr) & Hl). unfold step_text.
  destruct (index_in_range (linesBuffer s) y Hr) as [l Hi].
  rewrite Hy, Hi.
  eapply safely_bind; [by apply write_ok|]. intros [l' x] Hx'.
  cbn [safely snd] in *.
  apply cursor_ok_set_cursorX; [by apply cursor_ok_set_line|done].
Qed.

(** One turn of the token loop never reads a property of [undefined] and
    keeps the cursor where it may be, whatever the token. *)
Lemma step_ok s t :
  cursor_ok s -> safely cursor_ok (step s t).
Proof.
  intros H. destruct t as [a|a|a|c|a]; simpl; try done.
  - destruct a; [done|]. by apply step_ansi_ok.
  - by apply step_control_ok.
  - destruct a; [done|]. by apply step_text_ok.
Qed.

Lemma run_ok ts : forall s,
  cursor_ok s -> safely cursor_ok (run s ts).
Proof.
  induction ts as [|t ts IH]; intros s H; simpl; [done|].
  eapply safely_bind; [by apply step_ok|]. apply IH.
Qed.

Lemma initial_ok : cursor_ok initial.
Proof.
  split; [simpl; lia|]. split; [exists 0; simpl; split; [done|lia]|].
  by vm_compute.
Qed.

(** C6, amended: for every input and every prefix of its token stream
    that the interpreter gets through, the cursor row is an integer from 0
    on and the cursor column is not below 0: it is an integer from 0 on,
    Infinity or NaN.  No prefix makes the interpreter read a property of
    [undefined]. *)
Theorem C6_cursor_never_negative (text : jsstring) (n : nat) :
  safely (fun s => (exists y, cursorY s = Num y /\ 0 <= y)
                   /\ column_ok (cursorX s))
    (run initial (take n (tokenize text))).
Proof.
  eapply safely_impl; [apply run_ok, initial_ok|].
  intros s (Hx & (y & Hy & Hr) & _). split; [|done]. exists y. split; [done|lia].
Qed.

(** C6 as stated fails on cursor forward and then cursor back by a
    parameter of 309 digits: the column is Infinity less Infinity,
    which is NaN, and NaN is not at least 0. *)
Lemma C6_column_nan :
  let nines := replicate 309 "9"%char in
  let text := ESC :: "["%char :: nines ++ "C"%char
              :: ESC :: "["%char :: nines ++ ["D"%char] in
  exists s, interpret text = Ok s
            /\ cursorX s = NaN /\ le (Num 0) (cursorX s) = false.
Proof. eexists. split; [vm_compute; reflexivity|]. done. Qed.

(** C7, amended: no prefix of the token stream of any input makes the
    interpreter read a property of [undefined], and after every prefix
    that it gets through the cursor row is a row of the buffer. *)
Theorem C7_cursor_row_exists (text : jsstring) (n : nat) :
  safely (fun s => exists line, index (linesBuffer s) (cursorY s) = Some line)
    (run initial (take n (tokenize text))).
Proof.
  eapply safely_impl; [apply run_ok, initial_ok|].
  intros s (_ & (y & -> & Hr) & _). by apply index_in_range.
Qed.

(** C7 as stated fails on cursor down by 2^32: the cursor row is set to
    2^32, the rows up to it cannot be supplied, since [push] fails at
    2^32 - 1 rows, and no state is reached in which the cursor row exists. *)
Lemma C7_cursor_down_past_limit :
  let text := ESC :: str "[4294967296B" in
  add (cursorY initial) (param_or 1 text) = Num 4294967296
  /\ index (linesBuffer initial) (Num 4294967296) = None
  /\ run initial (tokenize text) = RangeError
  /\ ~ exists s line,
         run initial (tokenize text) = Ok s
         /\ index (linesBuffer s) (cursorY s) = Some line.
Proof.
  intros text. split; [by vm_compute|]. split; [done|].
  assert (run initial (tokenize text) = RangeError) as H by (by vm_compute).
  split; [exact H|]. intros (s & line & Hs & _). by rewrite H in Hs.
Qed.

(** C4: on the text A ESC[31m B ESC[0m C the buffer has row 0 equal to the
    three cells A unstyled, B styled ESC[31m, C unstyled. *)
Theorem C4_sgr_example :
  exists s, interpret (str "A" ++ ESC :: str "[31mB" ++ ESC :: str "[0mC") = Ok s
            /\ index (linesBuffer s) (Num 0)
                = Some [ {| char := "A"; style := [] |};
                         {| char := "B"; style := ESC :: str "[31m" |};
                         {| char := "C"; style := [] |} ].
Proof. eexists. split; [vm_compute; reflexivity|]. reflexivity. Qed.

(** The other worked inputs of the specification, evaluated. *)

Example carriage_return_overwrites :
  interpret (str "A" ++ [CR] ++ str "B")
  = Ok {| linesBuffer := [[ {| char := "B"; style := [] |} ]];
          cursorX := Num 1; cursorY := Num 0; currentStyle := [] |}.
Proof. vm_compute. reflexivity. Qed.

Example erase_to_end_of_line :
  interpret (str "AB" ++ ESC :: str "[2D" ++ ESC :: str "[0KC")
  = Ok {| linesBuffer := [[ {| char := "C"; style := [] |} ]];
          cursorX := Num 1; cursorY := Num 0; currentStyle := [] |}.
Proof. vm_compute. reflexivity. Qed.

Example two_lines :
  exists s, interpret (str "Line1" ++ [LF] ++ str "Line2") = Ok s
            /\ map (map char) (linesBuffer s) = [str "Line1"; str "Line2"].
Proof. eexists. split; [vm_compute; reflexivity|]. reflexivity. Qed.

Example erase_display :
  exists s, interpret (ESC :: str "[31mRed" ++ ESC :: str "[2J") = Ok s
            /\ linesBuffer s = [[]] /\ cursorX s = Num 0 /\ cursorY s = Num 0.
Proof. eexists. split; [vm_compute; reflexivity|]. done. Qed.

(** * The current style *)

Lemma step_style s t s' :
  step s t = Ok s' -> currentStyle s' = style_after (currentStyle s) t.
Proof.
  destruct t as [a|a|a|c|a]; simpl.
  - destruct a as [|a0 a]; [by intros [= <-]|].
    unfold step_ansi. generalize (a0 :: a) as ansi. intros ansi.
    destruct (endsWith ansi "m").
    { destruct (str_eqb ansi reset); by intros [= <-]. }
    branches; cbn [mbind outcome_bind]; try done; intros [= <-]; simpl;
      by rewrite ?currentStyle_set_line.
  - by intros [= <-].
  - by intros [= <-].
  - unfold step_control.
    branches; simpl; try done; by intros [= <-].
  - destruct a as [|a0 a]; [by intros [= <-]|].
    unfold step_text. destruct (index _ _); [|done].
    destruct (write _ _ _ _) as [[l' x]| | | |]; simpl; try done.
    intros [= <-]. apply cursor_set_line.
Qed.

Lemma run_style ts : forall s s',
  run s ts = Ok s' -> currentStyle s' = foldl style_after (currentStyle s) ts.
Proof.
  induction ts as [|t ts IH]; intros s s'; simpl; [by intros [= <-]|].
  destruct (step s t) as [s1| | | |] eqn:E; simpl; try done.
  intros H. apply IH in H. by rewrite (step_style _ _ _ E) in H.
Qed.

(** C1, amended: after any prefix of the token stream the current style is
    what the SGR tokens of that prefix made it, the reset form emptying it
    and every other sequence ending in m being appended; no other token,
    line break and full-screen clear included, changes it, and nothing
    happens to it at the end of the input. *)
Theorem C1_current_style (text : jsstring) (n : nat) :
  safely (fun s =>
            currentStyle s = foldl style_after [] (take n (tokenize text)))
    (run initial (take n (tokenize text))).
Proof.
  pose proof (run_ok (take n (tokenize text)) initial initial_ok) as Hs.
  destruct (run initial (take n (tokenize text))) as [s| | | |] eqn:E; try done.
  by apply run_style in E.
Qed.

(** C1 as stated fails: a full-screen clear empties the buffer and leaves
    the current style as it was. *)
Lemma C1_clear_keeps_style :
  exists s, interpret (ESC :: str "[31m" ++ ESC :: str "[2J") = Ok s
            /\ linesBuffer s = [[]]
            /\ currentStyle s = ESC :: str "[31m"
            /\ currentStyle s <> [].
Proof. eexists. split; [vm_compute; reflexivity|]. by repeat split. Qed.

(** * OSC sequences *)

Lemma osc_body_plain body term rest :
  osc_plain body = true ->
  term = [BEL] \/ term = [ESC; BACKSLASH] ->
  osc_body (body ++ term ++ rest) = Some (body ++ term, rest).
Proof.
  intros Hb Ht. induction body as [|c body IH].
  - destruct Ht as [-> | ->]; reflexivity.
  - simpl in Hb. apply andb_prop in Hb as [Hb Hrec].
    apply andb_prop in Hb as [Hb Hesc]. apply andb_prop in Hb as [Hbel Hlt].
    apply negb_true_iff in Hbel, Hlt, Hesc.
    specialize (IH Hrec). change ((c :: body) ++ term ++ rest)
      with (c :: (body ++ term ++ rest)).
    cbn [osc_body]. rewrite Hbel.
    destruct (body ++ term ++ rest) as [|d r'] eqn:E; [done|].
    assert (Ascii.eqb c ESC && Ascii.eqb d BACKSLASH = false) as ->.
    { destruct body as [|d' body'].
      - destruct Ht as [-> | ->]; simpl in E; injection E as <- _;
          apply andb_false_r.
      - simpl in E. injection E as <- _. exact Hesc. }
    rewrite Hlt, IH. done.
Qed.

Lemma tokenize_osc body term rest :
  osc_plain body = true ->
  term = [BEL] \/ term = [ESC; BACKSLASH] ->
  tokenize (ESC :: "]"%char :: body ++ term ++ rest)
  = oscSequence (ESC :: "]"%char :: body ++ term) :: tokenize rest.
Proof.
  intros Hb Ht. rewrite tokenize_cons. unfold tokenRegex.
  change (match_csi (ESC :: "]"%char :: body ++ term ++ rest)) with
    (@None (jsstring * jsstring)).
  cbn [match_osc]. change (Ascii.eqb ESC ESC && Ascii.eqb "]" "]") with true.
  cbn iota. rewrite (osc_body_plain body term rest Hb Ht).
  reflexivity.
Qed.

(** C8, amended: an OSC sequence at which the scan stands, whose body holds
    no line break and no earlier terminator, ended by the bell or by ESC and
    a backslash, is one OSC token, and the interpreter goes on from the
    same buffer, cursor and current style as if it were not there. *)
Theorem C8_osc_discarded (body term rest : jsstring) (s : state) :
  osc_plain body = true ->
  term = [BEL] \/ term = [ESC; BACKSLASH] ->
  tokenize (ESC :: "]"%char :: body ++ term ++ rest)
  = oscSequence (ESC :: "]"%char :: body ++ term) :: tokenize rest
  /\ step s (oscSequence (ESC :: "]"%char :: body ++ term)) = Ok s
  /\ run s (tokenize (ESC :: "]"%char :: body ++ term ++ rest))
     = run s (tokenize rest).
Proof.
  intros Hb Ht. rewrite (tokenize_osc body term rest Hb Ht). done.
Qed.

Lemma C8_osc_discarded_witness :
  osc_plain (str "0;title") = true
  /\ tokenize (ESC :: "]"%char :: str "0;title" ++ [BEL] ++ str "x")
     = [oscSequence (ESC :: "]"%char :: str "0;title" ++ [BEL]); textPart (str "x")]
  /\ run initial (tokenize (ESC :: "]"%char :: str "0;title" ++ [BEL] ++ str "x"))
     = run initial (tokenize (str "x")).
Proof.
  split; [reflexivity|].
  destruct (C8_osc_discarded (str "0;title") [BEL] (str "x") initial)
    as (Ht & _ & Hr); [reflexivity | by left |].
  split; [exact Ht | exact Hr].
Defined.

(** C8 as stated fails: with a line break in its body the sequence is not
    an OSC token; its characters are written to the buffer and the cursor
    moves. *)
Lemma C8_osc_with_line_break :
  tokenize (ESC :: str "]a" ++ [LF] ++ str "b" ++ [BEL])
  = [textPart (str "]a"); controlChar LF; textPart (str "b" ++ [BEL])]
  /\ exists s, interpret (ESC :: str "]a" ++ [LF] ++ str "b" ++ [BEL]) = Ok s
       /\ linesBuffer s
          = [ [ {| char := "]"; style := [] |}; {| char := "a"; style := [] |} ];
              [ {| char := "b"; style := [] |}; {| char := BEL; style := [] |} ] ]
       /\ cursorX s = Num 2 /\ cursorY s = Num 1.
Proof.
  split; [reflexivity|]. eexists. split; [vm_compute; reflexivity|]. done.
Qed.

(** The lazy body ends at the first terminator: what follows it is text. *)
Example osc_ends_at_first_terminator :
  tokenize (ESC :: str "]a" ++ [BEL] ++ str "b" ++ [BEL])
  = [oscSequence (ESC :: str "]a" ++ [BEL]); textPart (str "b" ++ [BEL])].
Proof. reflexivity. Qed.

(** An OSC sequence that is still open takes a later one into its body. *)
Example osc_inside_open_osc :
  tokenize (ESC :: str "]x" ++ ESC :: str "]y" ++ [BEL])
  = [oscSequence (ESC :: str "]x" ++ ESC :: str "]y" ++ [BEL])].
Proof. reflexivity. Qed.

(** * The escape reconstructor *)

Lemma processNode_children tagName classList dataAnsi innerText children :
  processNode (Element tagName classList dataAnsi innerText children)
  = concat (map contribution children).
Proof.
  cbn [processNode].
  cut (forall acc,
    foldl (fun text child =>
        match child with
        | Element tagName _ dataAnsi innerText _ =>
            if str_eqb tagName (str "SPAN") then
              match dataAnsi with
              | Some ((_ :: _) as a) =>
                  ((text ++ unescapeEsc a) ++ innerText) ++ reset
              | _ => text ++ innerText
              end
            else if str_eqb tagName (str "BR") then text
            else text ++ processNode child
        | TextNode textContent => text ++ textContent
        | OtherNode => text
        end) acc children
    = acc ++ concat (map contribution children)).
  { intros H. apply (H []). }
  induction children as [|child children IH]; intros acc; simpl.
  - by rewrite app_nil_r.
  - rewrite IH. rewrite app_assoc. f_equal.
    destruct child as [t c d i ch| |]; simpl.
    + destruct (str_eqb t _).
      * destruct d as [[|d0 d]|]; try done. by rewrite <- !app_assoc.
      * destruct (str_eqb t _); [by rewrite app_nil_r|done].
    + done.
    + by rewrite app_nil_r.
Qed.

Lemma processNode_contributions n :
  processNode n = concat (map contribution (children_of n)).
Proof. destruct n; [apply processNode_children|done..]. Qed.

(** C2, amended: the reconstructed text is the lines joined by line feeds,
    and a line is its runs in order, where a span run with a non-empty tag
    contributes the tag (its escapes restored), then its text, then one
    reset, with no reset before the tag, and a run without a tag contributes
    its text alone. *)
Theorem C2_reconstruct (content : node) :
  reconstructAnsi content
  = join [LF]
      (map (fun line => concat (map contribution (children_of line)))
         match querySelectorAll content with
         | [] => [content]
         | _ => filter (fun n => is_line n = true) (children_of content)
         end)
  /\ (forall tag text cls kids, tag <> [] ->
        contribution (Element (str "SPAN") cls (Some tag) text kids)
        = unescapeEsc tag ++ text ++ reset)
  /\ (forall text cls kids,
        contribution (Element (str "SPAN") cls None text kids) = text
        /\ contribution (Element (str "SPAN") cls (Some []) text kids) = text)
  /\ (forall text, contribution (TextNode text) = text).
Proof.
  split; [|split; [|split]].
  - unfold reconstructAnsi. destruct (querySelectorAll content).
    + simpl. apply processNode_contributions.
    + f_equal. apply map_ext. intros line. apply processNode_contributions.
  - intros tag text cls kids Hne. simpl. by destruct tag.
  - done.
  - done.
Qed.

Lemma C2_witness :
  ESC :: str "[31m" <> []
  /\ contribution (Element (str "SPAN") [] (Some (ESC :: str "[31m")) (str "B") [])
     = unescapeEsc (ESC :: str "[31m") ++ str "B" ++ reset.
Proof.
  split; [done|].
  apply (proj1 (proj2 (C2_reconstruct OtherNode))). done.
Defined.

(** C2 as stated fails: no reset is put before the tag of a run. *)
Lemma C2_no_leading_reset :
  let run := Element (str "SPAN") [] (Some (BACKSLASH :: str "x1b[31m")) (str "B")
               [TextNode (str "B")] in
  let content := Element (str "DIV") [] None (str "B")
               [Element (str "DIV") [str "line"] None (str "B") [run]] in
  reconstructAnsi content = ESC :: str "[31mB" ++ reset
  /\ reconstructAnsi content <> reset ++ ESC :: str "[31mB" ++ reset.
Proof. split; [reflexivity|discriminate]. Qed.

(** * The style-run renderer *)

Lemma adjacent_differ_nil : adjacent_differ [].
Proof. intros i a b H. by rewrite lookup_nil in H. Qed.

Lemma adjacent_differ_snoc spans sp :
  adjacent_differ spans ->
  (forall l, last spans = Some l -> spanAnsi l <> spanAnsi sp) ->
  adjacent_differ (spans ++ [sp]).
Proof.
  intros Hadj Hlast i a b Ha Hb.
  destruct (decide (S i < length spans)%nat) as [Hlt|Hge].
  - rewrite lookup_app_l in Ha by lia. rewrite lookup_app_l in Hb by lia.
    by apply (Hadj i).
  - pose proof (lookup_lt_Some _ _ _ Hb) as Hl.
    rewrite length_app in Hl. simpl in Hl.
    assert (S i = length spans) as Hi by lia.
    rewrite lookup_app_l in Ha by lia.
    rewrite lookup_app_r in Hb by lia.
    replace (S i - length spans)%nat with 0%nat in Hb by lia.
    injection Hb as <-. apply Hlast. rewrite last_lookup.
    by replace (pred (length spans)) with i by lia.
Qed.

Lemma Forall2_left {A B} (P : A -> B -> Prop) (Q : A -> Prop) l k :
  Forall2 P l k -> (forall x y, P x y -> Q x) -> Forall Q l.
Proof. intros H HPQ. induction H; constructor; eauto. Qed.

Section RendererFacts.
Context {AnsiUp : Type} (new_AnsiUp : AnsiUp).
Context (ansi_to_html : AnsiUp -> jsstring -> jsstring * AnsiUp).

Lemma flushSpan_nothing (st : lineState AnsiUp) :
  currentSpanText st = [] -> flushSpan ansi_to_html st = st.
Proof. unfold flushSpan. by intros ->. Qed.

Lemma flushSpan_span (st : lineState AnsiUp) :
  currentSpanText st <> [] ->
  exists attr,
    lineHtml (flushSpan ansi_to_html st)
    = lineHtml st ++ [{| styleAttr := attr; spanAnsi := currentSpanAnsi st;
                         spanText := currentSpanText st |}]
    /\ currentSpanAnsi (flushSpan ansi_to_html st) = currentSpanAnsi st
    /\ currentSpanText (flushSpan ansi_to_html st) = [].
Proof.
  unfold flushSpan. destruct (currentSpanText st) as [|c txt]; [done|].
  intros _. destruct (currentSpanAnsi st) as [|a0 a].
  - by eexists.
  - destruct (ansi_to_html _ _) as [snippet up]. by eexists.
Qed.

Lemma flat_map_snoc {A B} (f : A -> list B) l x :
  flat_map f (l ++ [x]) = flat_map f l ++ f x.
Proof. rewrite flat_map_app. simpl. by rewrite app_nil_r. Qed.

Lemma addCell_inv st seen c :
  line_inv st seen -> line_inv (addCell ansi_to_html st c) (seen ++ [c]).
Proof.
  intros [Hc Hn Ha Hl Hs]. unfold addCell.
  destruct (str_eqb (style c) (currentSpanAnsi st)) eqn:E.
  - apply bool_decide_eq_true in E. split; simpl.
    + rewrite map_app, app_assoc, Hc. simpl. rewrite <- E. by destruct c.
    + done.
    + done.
    + done.
    + by intros ?%app_eq_nil%proj2.
  - apply bool_decide_eq_false in E.
    destruct (currentSpanText st) as [|t0 txt] eqn:Et.
    + rewrite (flushSpan_nothing st Et). specialize (Hs eq_refl).
      split; simpl; rewrite ?Hs, ?Et in *; simpl in *.
      * subst seen. by destruct c.
      * constructor.
      * apply adjacent_differ_nil.
      * done.
      * done.
    + destruct (flushSpan_span st) as (attr & E1 & _ & E3);
        [by rewrite Et|].
      split; simpl; rewrite ?E1, ?E3.
      * rewrite flat_map_snoc. unfold span_cells at 2. simpl.
        rewrite Et, Hc. by destruct c.
      * apply Forall_app. split; [done|]. repeat constructor. simpl.
        by rewrite Et.
      * apply adjacent_differ_snoc; done.
      * intros l. rewrite last_snoc. intros [= <-]. simpl. congruence.
      * done.
Qed.

Lemma foldl_addCell_inv line : forall st seen,
  line_inv st seen ->
  line_inv (foldl (addCell ansi_to_html) st line) (seen ++ line).
Proof.
  induction line as [|c line IH]; intros st seen H; simpl.
  - by rewrite app_nil_r.
  - replace (seen ++ c :: line) with ((seen ++ [c]) ++ line)
      by (by rewrite <- app_assoc).
    apply IH. by apply addCell_inv.
Qed.

(** The spans of a row spell the row in maximal runs. *)
Lemma renderLine_spans up line :
  spans_of (fst (renderLine ansi_to_html up line)) line.
Proof.
  unfold renderLine. simpl.
  set (st0 := {| ansiUp := up; lineHtml := []; currentSpanAnsi := [];
                 currentSpanText := [] |}).
  assert (line_inv st0 []) as H0.
  { split; simpl; try done. }
  apply (foldl_addCell_inv line) in H0. simpl in H0.
  destruct H0 as [Hc Hn Ha Hl Hs].
  set (st := foldl (addCell ansi_to_html) st0 line) in *.
  destruct (currentSpanText st) as [|t0 txt] eqn:Et.
  - rewrite (flushSpan_nothing st Et). rewrite (Hs eq_refl) in *.
    simpl in Hc. subst line. repeat split; [constructor|].
    apply adjacent_differ_nil.
  - destruct (flushSpan_span st) as (attr & -> & _ & _); [by rewrite Et|].
    repeat split.
    + rewrite flat_map_snoc. unfold span_cells at 2. simpl. by rewrite Et.
    + apply Forall_app. split; [done|]. repeat constructor. simpl.
      by rewrite Et.
    + by apply adjacent_differ_snoc.
Qed.

Lemma renderLines_spans lb : forall up,
  Forall2 spans_of (renderLines ansi_to_html up lb) lb.
Proof.
  induction lb as [|line lb IH]; intros up; cbn [renderLines]; [constructor|].
  pose proof (renderLine_spans up line) as H.
  destruct (renderLine ansi_to_html up line) as [spans up'].
  constructor; [exact H | apply IH].
Qed.


Lemma interpret_ok text : safely cursor_ok (interpret text).
Proof. apply run_ok, initial_ok. Qed.

(** The renderer adds no failure to those of the interpreter. *)
Lemma render_safely (P : list (list span) -> Prop) text :
  (forall s, interpret text = Ok s ->
             P (renderLines ansi_to_html new_AnsiUp (linesBuffer s))) ->
  safely P (render new_AnsiUp ansi_to_html text).
Proof.
  intros H. unfold render. pose proof (interpret_ok text) as Hs.
  destruct (interpret text) as [s| | | |]; try done. by apply H.
Qed.

(** C5: for every input the interpreter gets through, and for every row
    of its buffer, no two neighbouring runs that the renderer forms for the
    row carry the same style string; no input makes the interpreter read a
    property of [undefined]. *)
Theorem C5_runs_are_maximal (text : jsstring) :
  safely (Forall adjacent_differ) (render new_AnsiUp ansi_to_html text).
Proof.
  apply render_safely. intros s _.
  apply (Forall2_left _ _ _ _ (renderLines_spans (linesBuffer s) new_AnsiUp)).
  by intros spans line (_ & _ & Hadj).
Qed.

(** C9: the markup is a function of the raw text alone: two invocations,
    whatever the provider's state at each and whichever document objects
    hand over the same text, return the same outcome, and that outcome is
    never a read of a property of [undefined].  More, the markup depends on
    the text through the rows of the buffer only: two texts interpreted
    into the same rows have the same markup. *)
Theorem C9_render_deterministic
    (this1 this2 : TermViewProvider) (doc1 doc2 : TextDocument) :
  (getText doc1 = getText doc2 ->
   getAnsiHtml new_AnsiUp ansi_to_html this1 doc1
   = getAnsiHtml new_AnsiUp ansi_to_html this2 doc2)
  /\ safely (fun _ => True) (getAnsiHtml new_AnsiUp ansi_to_html this1 doc1)
  /\ (forall s1 s2,
        interpret (getText doc1) = Ok s1 -> interpret (getText doc2) = Ok s2 ->
        linesBuffer s1 = linesBuffer s2 ->
        getAnsiHtml new_AnsiUp ansi_to_html this1 doc1
        = getAnsiHtml new_AnsiUp ansi_to_html this2 doc2).
Proof.
  unfold getAnsiHtml, render. split; [|split].
  - by intros ->.
  - pose proof (interpret_ok (getText doc1)) as Hs.
    by destruct (interpret (getText doc1)).
  - intros s1 s2 -> -> E. simpl. by rewrite E.
Qed.

End RendererFacts.

Lemma C9_render_deterministic_witness :
  let doc1 := {| getText := str "A<b"; uri := str "one" |} in
  let doc2 := {| getText := str "A<b"; uri := str "two" |} in
  getText doc1 = getText doc2
  /\ getAnsiHtml tt (fun up s => (s, up)) {| isUpdatingFromWebview := false |} doc1
     = getAnsiHtml tt (fun up s => (s, up)) {| isUpdatingFromWebview := true |} doc2.
Proof.
  split; [reflexivity|].
  apply (C9_render_deterministic tt (fun up s => (s, up))). reflexivity.
Defined.

(** * What the scanner yields, and what the buffer holds *)

Lemma match_csi_shape s m rest : match_csi s = Some (m, rest) -> csi_shape m.
Proof.
  unfold match_csi. destruct s as [|e [|b r]]; try done.
  destruct (Ascii.eqb e ESC && Ascii.eqb b "[") eqn:E; [|done].
  apply andb_prop in E as [->%Ascii.eqb_eq ->%Ascii.eqb_eq].
  destruct (drop_while is_param r) as [|f r'] eqn:Ed; [done|].
  destruct (is_letter f) eqn:Ef; [|done]. intros [= <- <-].
  exists (take_while is_param r), f. split; [done|]. split; [|done].
  apply take_while_Forall.
Qed.

Lemma tokenRegex_wf s t rest : tokenRegex s = Some (t, rest) -> token_wf t.
Proof.
  unfold tokenRegex.
  destruct (match_csi s) as [[m r]|] eqn:E1.
  { intros [= <- <-]. by apply match_csi_shape in E1. }
  destruct (match_osc s) as [[m r]|]; [by intros [= <- <-]|].
  destruct (match_keypad s) as [[m r]|]; [by intros [= <- <-]|].
  destruct s as [|c r]; [done|].
  destruct (is_control c); [by intros [= <- <-]|].
  destruct (is_text c) eqn:Et; [|done].
  intros [= <- <-]. split.
  - simpl. by rewrite Et.
  - exact (take_while_Forall is_text (c :: r)).
Qed.

Lemma exec_loop_wf fuel : forall s, Forall token_wf (exec_loop fuel s).
Proof.
  induction fuel as [|fuel IH]; intros s; simpl; [constructor|].
  destruct s as [|c s']; [constructor|].
  destruct (tokenRegex (c :: s')) as [[t rest]|] eqn:E; [|apply IH].
  constructor; [by apply tokenRegex_wf in E | apply IH].
Qed.

Lemma tokenize_wf text : Forall token_wf (tokenize text).
Proof. apply exec_loop_wf. Qed.

Lemma endsWith_snoc s f c : endsWith (s ++ [f]) c = Ascii.eqb f c.
Proof. unfold endsWith. by rewrite last_snoc. Qed.

Lemma sgr_code_of_token a :
  csi_shape a -> endsWith a "m" = true -> str_eqb a reset = false -> sgr_code a.
Proof.
  intros (ps & f & -> & Hps & _) Hm Hr.
  change (ESC :: "["%char :: ps ++ [f]) with ((ESC :: "["%char :: ps) ++ [f]) in Hm.
  rewrite endsWith_snoc in Hm. apply Ascii.eqb_eq in Hm as ->.
  apply bool_decide_eq_false in Hr. by exists ps.
Qed.

Lemma sgr_string_app a b : sgr_string a -> sgr_string b -> sgr_string (a ++ b).
Proof.
  intros Ha Hb. induction Ha as [|c st Hc _ IH]; [done|].
  rewrite <- app_assoc. by constructor.
Qed.

Lemma sgr_string_code a : sgr_code a -> sgr_string a.
Proof.
  intros H. rewrite <- (app_nil_r a). constructor; [done|constructor].
Qed.

Lemma good_blank : good_cell blank.
Proof. split; [done|constructor]. Qed.

Lemma length_blank_before n line : length (blank_before n line) = length line.
Proof.
  revert line. induction n as [|n IH]; intros [|c line]; simpl; try done.
  by rewrite IH.
Qed.

Lemma cells_blank_before n line :
  Forall good_cell line -> Forall good_cell (blank_before n line).
Proof.
  revert line. induction n as [|n IH]; intros line H; simpl; [done|].
  destruct H as [|c line Hc H]; [constructor|].
  constructor; [apply good_blank | by apply IH].
Qed.

Lemma good_nil : good_row [].
Proof. split; [constructor|by vm_compute]. Qed.

Lemma good_blank_before n line : good_row line -> good_row (blank_before n line).
Proof.
  intros [H Hl]. split; [by apply cells_blank_before|].
  by rewrite length_blank_before.
Qed.

Lemma good_pad line x line' :
  good_row line -> pad line x = Ok line' -> good_row line'.
Proof.
  intros [H Hl] [(_ & ->)|(i & -> & Hi & ->)]%pad_Ok; [done|]. split.
  - apply Forall_app. split; [done|]. apply Forall_replicate, good_blank.
  - rewrite length_app, length_replicate. lia.
Qed.

Lemma good_assign line x c line' :
  good_row line -> good_cell c -> assign line x c = Ok line' -> good_row line'.
Proof.
  intros [H Hl] Hc (i & -> & [(Hi & ->)|(Hi & Hm & ->)])%assign_Ok; split.
  - by apply Forall_insert.
  - by rewrite length_insert.
  - apply Forall_app. split; [done|]. by constructor.
  - rewrite length_app. simpl. lia.
Qed.

Lemma good_put line x c line' :
  good_row line -> good_cell c -> put line x c = Ok line' -> good_row line'.
Proof.
  intros H Hc. unfold put. destruct x; try by intros [= <-].
  destruct (_ && _); [by apply good_assign|by intros [= <-]].
Qed.

Lemma good_write txt : forall line x sty line' x',
  good_row line -> sgr_string sty ->
  Forall (fun c => is_text c = true) txt ->
  write line x sty txt = Ok (line', x') -> good_row line'.
Proof.
  induction txt as [|ch txt IH]; intros line x sty line' x' H Hs Ht;
    cbn [write].
  - by intros [= <- _].
  - destruct (pad line x) as [l1| | | |] eqn:Ep; try done.
    cbn [mbind outcome_bind].
    destruct (put l1 x {| char := ch; style := sty |}) as [l2| | | |] eqn:Eq;
      try done.
    cbn [mbind outcome_bind]. apply Forall_cons in Ht as [Hch Ht].
    apply IH; try done.
    eapply good_put; [|split; simpl|exact Eq]; [by eapply good_pad|done..].
Qed.

Lemma good_splice line x : good_row line -> good_row (splice line x).
Proof.
  intros [H Hl]. split; [by apply Forall_take|].
  unfold splice. rewrite length_take. lia.
Qed.

Lemma good_splice_count line x n :
  good_row line -> good_row (splice_count line x n).
Proof.
  intros [H Hl]. split.
  - apply Forall_app. split; [by apply Forall_take|by apply Forall_drop].
  - unfold splice_count. rewrite length_app, length_take, length_drop. lia.
Qed.

Lemma rows_index (lb : list (list cell)) y l :
  Forall good_row lb -> index lb y = Some l -> good_row l.
Proof.
  intros H (i & _ & _ & Hl)%index_Some_range.
  by apply (Forall_lookup_1 _ _ _ _ H Hl).
Qed.

Lemma rows_assign (lb : list (list cell)) y l lb' :
  Forall good_row lb -> good_row l ->
  assign lb y l = Ok lb' -> Forall good_row lb'.
Proof.
  intros H Hl (i & -> & [(Hi & ->)|(Hi & Hm & ->)])%assign_Ok.
  - by apply Forall_insert.
  - apply Forall_app. split; [done|]. by constructor.
Qed.

Lemma rows_grow lb y lb' :
  Forall good_row lb -> grow lb y = Ok lb' -> Forall good_row lb'.
Proof.
  intros H [(_ & ->)|(i & -> & Hi & ->)]%grow_Ok; [done|].
  apply Forall_app. split; [done|]. apply Forall_replicate, good_nil.
Qed.

Lemma rows_clear_below lb y :
  Forall good_row lb -> Forall good_row (clear_below lb y).
Proof.
  intros H. unfold clear_below. destruct y; [|done..].
  apply Forall_app. split; [by apply Forall_take|].
  apply Forall_replicate, good_nil.
Qed.

Lemma rows_set_line s l :
  Forall good_row (linesBuffer s) -> good_row l ->
  Forall good_row (linesBuffer (set_line s l)).
Proof.
  intros H Hl. unfold set_line. destruct (cursorY s); [|done..].
  by apply Forall_insert.
Qed.

Lemma good_blank_loop l x r :
  good_row l -> blank_loop (Some l) x = Ok r ->
  exists l', r = Some l' /\ good_row l'.
Proof.
  intros H. unfold blank_loop. destruct (lt (Num 0) x).
  - destruct x; try done. destruct (_ <=? _); [|done]. intros [= <-].
    eexists. split; [done|]. by apply good_blank_before.
  - intros [= <-]. by exists l.
Qed.

Create HintDb grid.
#[local] Hint Resolve rows_assign rows_grow rows_clear_below rows_set_line
  good_splice good_splice_count good_nil : grid.

Lemma step_grid_ok s t s' :
  token_wf t -> grid_ok s -> step s t = Ok s' -> grid_ok s'.
Proof.
  intros Ht [Hg Hs]. destruct t as [a|a|a|c|a]; simpl.
  - destruct a as [|a0 a]; [by intros [= <-]|].
    revert Ht. generalize (a0 :: a) as ansi. intros ansi Ht.
    unfold step_ansi. destruct (endsWith ansi "m") eqn:Em.
    { destruct (str_eqb ansi reset) eqn:Er; intros [= <-]; split; simpl;
        try done; [constructor|].
      apply sgr_string_app; [done|].
      by apply sgr_string_code, sgr_code_of_token. }
    destruct (index (linesBuffer s) (cursorY s)) as [l|] eqn:El.
    2:{ unfold blank_loop.
        branches; cbn [mbind outcome_bind]; try done; intros [= <-];
          split; simpl; try done; eauto with grid. }
    pose proof (rows_index _ _ _ Hg El) as Hl.
    destruct (blank_loop (Some l) (cursorX s)) as [r| | | |] eqn:Eb;
      [apply (good_blank_loop _ _ _ Hl) in Eb as (l' & -> & Hl')|..];
      branches; cbn [mbind outcome_bind]; try done; intros [= <-];
      split; simpl; rewrite ?currentStyle_set_line; try done;
      eauto 6 with grid.
  - by intros [= <-].
  - by intros [= <-].
  - unfold step_control.
    branches; cbn [mbind outcome_bind]; try done; intros [= <-];
      split; simpl; try done; eauto with grid.
  - destruct a as [|a0 a]; [by intros [= <-]|].
    destruct Ht as [_ Ht]. revert Ht. generalize (a0 :: a) as txt.
    intros txt Ht. unfold step_text.
    destruct (index (linesBuffer s) (cursorY s)) as [l|] eqn:El; [|done].
    pose proof (rows_index _ _ _ Hg El) as Hl.
    destruct (write l (cursorX s) (currentStyle s) txt) as [[l' x]| | | |] eqn:Ew;
      cbn [mbind outcome_bind]; try done.
    intros [= <-]. split; simpl; [|by rewrite currentStyle_set_line].
    apply rows_set_line; [done|]. by eapply good_write.
Qed.

Lemma run_grid_ok ts : forall s s',
  Forall token_wf ts -> grid_ok s -> run s ts = Ok s' -> grid_ok s'.
Proof.
  induction ts as [|t ts IH]; intros s s' Hts Hs; simpl; [by intros [= <-]|].
  apply Forall_cons in Hts as [Ht Hts].
  destruct (step s t) as [s1| | | |] eqn:E; simpl; try done.
  apply IH; [done|]. by eapply step_grid_ok.
Qed.

Lemma interpret_grid_ok text s : interpret text = Ok s -> grid_ok s.
Proof.
  apply run_grid_ok; [apply tokenize_wf|].
  split; simpl; repeat constructor. by vm_compute.
Qed.

(** * Restoring the escapes of a tag *)

Lemma unescapeEsc_cons c r :
  c <> BACKSLASH -> unescapeEsc (c :: r) = c :: unescapeEsc r.
Proof.
  intros Hc. apply Ascii.eqb_neq in Hc.
  destruct r as [|x [|o [|b r]]]; simpl; try done. by rewrite Hc.
Qed.

Lemma escapeEsc_cons c a :
  escapeEsc (c :: a)
  = (if Ascii.eqb c ESC then BACKSLASH :: str "x1b" else [c]) ++ escapeEsc a.
Proof. reflexivity. Qed.

Lemma unescapeEsc_escaped r :
  unescapeEsc ((BACKSLASH :: str "x1b") ++ r) = ESC :: unescapeEsc r.
Proof. reflexivity. Qed.

Lemma unescape_escape a :
  Forall (fun c => c <> BACKSLASH) a -> unescapeEsc (escapeEsc a) = a.
Proof.
  induction 1 as [|c a Hc _ IH]; [done|].
  rewrite escapeEsc_cons. destruct (Ascii.eqb_spec c ESC) as [->|Hne].
  - by rewrite unescapeEsc_escaped, IH.
  - cbn [app]. rewrite unescapeEsc_cons by done. by rewrite IH.
Qed.

Lemma param_not_backslash c : is_param c = true -> c <> BACKSLASH.
Proof. by intros H ->. Qed.

Lemma sgr_code_no_backslash a :
  sgr_code a -> Forall (fun c => c <> BACKSLASH) a.
Proof.
  intros (ps & -> & Hps & _). repeat constructor; try done.
  apply Forall_app. split; [|by repeat constructor].
  eapply Forall_impl; [exact Hps|]. apply param_not_backslash.
Qed.

Lemma sgr_string_no_backslash a :
  sgr_string a -> Forall (fun c => c <> BACKSLASH) a.
Proof.
  induction 1 as [|c st Hc _ IH]; [constructor|].
  apply Forall_app. split; [by apply sgr_code_no_backslash|done].
Qed.

Lemma sgr_string_boundary a r : sgr_string a -> a <> [] -> boundary (a ++ r).
Proof.
  intros H Hne. destruct H as [|c st (ps & -> & _) _]; [done|]. done.
Qed.

(** * Scanning a reconstructed text *)

Lemma letter_not_param f : is_letter f = true -> is_param f = false.
Proof.
  destruct f as [[] [] [] [] [] [] [] []]; vm_compute; congruence.
Qed.

Lemma tokenize_csi ps f r :
  Forall (fun c => is_param c = true) ps -> is_letter f = true ->
  tokenize (ESC :: "["%char :: ps ++ f :: r)
  = ansiCode (ESC :: "["%char :: ps ++ [f]) :: tokenize r.
Proof.
  intros Hps Hf. rewrite tokenize_cons. unfold tokenRegex, match_csi.
  change (Ascii.eqb ESC ESC && Ascii.eqb "[" "[") with true. cbn iota.
  rewrite (drop_while_app is_param ps (f :: r) Hps).
  rewrite (drop_while_stop is_param f r (letter_not_param f Hf)).
  rewrite Hf. rewrite (take_while_app is_param ps (f :: r) Hps).
  rewrite (take_while_stop is_param f r (letter_not_param f Hf)).
  by rewrite app_nil_r.
Qed.

Lemma not_esc_no_escape c r :
  Ascii.eqb c ESC = false ->
  match_csi (c :: r) = None /\ match_osc (c :: r) = None
  /\ match_keypad (c :: r) = None.
Proof.
  intros H. unfold match_csi, match_osc, match_keypad.
  destruct r; rewrite ?H; done.
Qed.

Lemma is_text_classes c :
  is_text c = true -> Ascii.eqb c ESC = false /\ is_control c = false.
Proof.
  unfold is_text, is_control. intros H%negb_true_iff.
  apply orb_false_elim in H as [H Hbs]. apply orb_false_elim in H as [H Hlf].
  apply orb_false_elim in H as [H Hcr]. by rewrite Hcr, Hlf, Hbs.
Qed.

Lemma take_while_boundary r : boundary r -> take_while is_text r = [].
Proof. destruct r; [done|]. simpl. by intros ->. Qed.

Lemma drop_while_boundary r : boundary r -> drop_while is_text r = r.
Proof. destruct r; [done|]. simpl. by intros ->. Qed.

Lemma tokenize_text txt r :
  txt <> [] -> Forall (fun c => is_text c = true) txt -> boundary r ->
  tokenize (txt ++ r) = textPart txt :: tokenize r.
Proof.
  intros Hne Ht Hr. destruct txt as [|c txt]; [done|].
  pose proof (Forall_inv Ht) as Hc.
  destruct (is_text_classes c Hc) as [Hesc Hctl].
  change ((c :: txt) ++ r) with (c :: (txt ++ r)).
  rewrite tokenize_cons. unfold tokenRegex.
  destruct (not_esc_no_escape c (txt ++ r) Hesc) as (-> & -> & ->).
  rewrite Hctl, Hc.
  change (c :: (txt ++ r)) with ((c :: txt) ++ r).
  rewrite (take_while_app is_text _ r Ht), (drop_while_app is_text _ r Ht).
  rewrite (take_while_boundary r Hr), (drop_while_boundary r Hr).
  by rewrite app_nil_r.
Qed.

Lemma tokenize_lf r : tokenize (LF :: r) = controlChar LF :: tokenize r.
Proof.
  rewrite tokenize_cons. unfold tokenRegex.
  by destruct (not_esc_no_escape LF r eq_refl) as (-> & -> & ->).
Qed.

(** * Interpreting a reconstructed text *)

Lemma index_at_row above (cur : list cell) :
  index (above ++ [cur]) (Num (Z.of_nat (length above))) = Some cur.
Proof.
  unfold index. destruct (Z.ltb_spec (Z.of_nat (length above)) 0); [lia|].
  rewrite Nat2Z.id. by apply list_lookup_middle.
Qed.

Lemma insert_at_row above (cur l : list cell) :
  <[Z.to_nat (Z.of_nat (length above)) := l]> (above ++ [cur]) = above ++ [l].
Proof.
  rewrite Nat2Z.id. rewrite insert_app_r_alt by lia.
  by replace (length above - length above)%nat with 0%nat by lia.
Qed.

Lemma step_sgr above cur sty a :
  sgr_code a ->
  step (at_row above cur sty) (ansiCode a) = Ok (at_row above cur (sty ++ a)).
Proof.
  intros (ps & -> & _ & Hr). cbn [step]. unfold step_ansi.
  change (ESC :: "["%char :: ps ++ ["m"%char])
    with ((ESC :: "["%char :: ps) ++ ["m"%char]) at 1.
  rewrite endsWith_snoc. change (Ascii.eqb "m" "m") with true. cbn iota.
  unfold str_eqb. by rewrite bool_decide_eq_false_2.
Qed.

Lemma step_reset above cur sty :
  step (at_row above cur sty) (ansiCode reset) = Ok (at_row above cur []).
Proof. reflexivity. Qed.

Lemma add_one n :
  Z.of_nat n < max_length ->
  add (Num (Z.of_nat n)) (Num 1) = Num (Z.of_nat (S n)).
Proof.
  intros H. cbn [add].
  rewrite to_number_exact by (unfold max_length, max_safe in *; lia).
  f_equal. lia.
Qed.

(** Writing at the end of a row that has room for the text. *)
Lemma write_end sty txt : forall cur,
  Z.of_nat (length cur + length txt) <= max_length ->
  write cur (Num (Z.of_nat (length cur))) sty txt
  = Ok (cur ++ map (fun ch => {| char := ch; style := sty |}) txt,
        Num (Z.of_nat (length (cur ++ map (fun ch => {| char := ch; style := sty |}) txt)))).
Proof.
  induction txt as [|ch txt IH]; intros cur Hl; cbn [write].
  - by rewrite app_nil_r.
  - cbn [length] in Hl. unfold pad. cbn [lt]. rewrite Z.ltb_irrefl.
    cbn [mbind outcome_bind]. unfold put.
    destruct (Z.leb_spec 0 (Z.of_nat (length cur))); [|lia].
    destruct (Z.ltb_spec (Z.of_nat (length cur)) max_length); [|lia].
    cbn [andb]. rewrite assign_end by done. cbn [mbind outcome_bind].
    rewrite add_one by done.
    replace (S (length cur))
      with (length (cur ++ [{| char := ch; style := sty |}]))
      by (rewrite length_app; simpl; lia).
    rewrite IH by (rewrite length_app; simpl; lia).
    cbn [map]. by rewrite <- app_assoc.
Qed.

Lemma step_text_end above cur sty txt :
  txt <> [] -> Z.of_nat (length cur + length txt) <= max_length ->
  step (at_row above cur sty) (textPart txt)
  = Ok (at_row above
          (cur ++ map (fun ch => {| char := ch; style := sty |}) txt) sty).
Proof.
  intros Hne Hl. destruct txt as [|c txt]; [done|]. cbn [step].
  unfold step_text. cbn [at_row linesBuffer cursorX cursorY currentStyle].
  rewrite index_at_row, write_end by done. cbn [mbind outcome_bind].
  unfold set_cursorX, set_line, set_linesBuffer, at_row.
  cbn [linesBuffer cursorX cursorY currentStyle].
  by rewrite insert_at_row.
Qed.

Lemma step_lf above cur sty :
  Z.of_nat (length above) + 1 < max_length ->
  step (at_row above cur sty) (controlChar LF)
  = Ok (at_row (above ++ [cur]) [] sty).
Proof.
  intros Hl. cbn [step]. unfold step_control. change (Ascii.eqb LF LF) with true.
  cbn iota. cbn [at_row linesBuffer cursorX cursorY currentStyle].
  rewrite add_one by lia.
  replace (S (length above)) with (length (above ++ [cur]))
    by (rewrite length_app; simpl; lia).
  rewrite index_length, assign_end by (rewrite length_app; simpl; lia).
  cbn [mbind outcome_bind]. reflexivity.
Qed.

Lemma run_cons s t ts : run s (t :: ts) = (s' ← step s t; run s' ts).
Proof. reflexivity. Qed.

Lemma run_sgr_string a : sgr_string a -> forall above cur sty r,
  run (at_row above cur sty) (tokenize (a ++ r))
  = run (at_row above cur (sty ++ a)) (tokenize r).
Proof.
  induction 1 as [|c st Hc _ IH]; intros above cur sty r.
  - by rewrite app_nil_r.
  - pose proof Hc as (ps & Ec & Hps & _).
    rewrite <- app_assoc. rewrite Ec at 1.
    change ((ESC :: "["%char :: ps ++ ["m"%char]) ++ st ++ r)
      with (ESC :: "["%char :: (ps ++ ["m"%char]) ++ st ++ r).
    rewrite <- (app_assoc ps ["m"%char]). cbn [app].
    rewrite (tokenize_csi ps "m" (st ++ r) Hps eq_refl). rewrite <- Ec.
    rewrite run_cons, (step_sgr above cur sty c Hc). cbn [mbind outcome_bind].
    rewrite IH. by rewrite <- app_assoc.
Qed.

Lemma tokenize_reset r : tokenize (reset ++ r) = ansiCode reset :: tokenize r.
Proof. exact (tokenize_csi ["0"%char] "m" r ltac:(by repeat constructor) eq_refl). Qed.

Lemma line_raw_cons sp spans : line_raw (sp :: spans) = span_raw sp ++ line_raw spans.
Proof. reflexivity. Qed.

Lemma line_raw_boundary spans tail :
  boundary tail ->
  match spans with
  | [] => True
  | sp :: _ => spanAnsi sp <> [] /\ sgr_string (spanAnsi sp)
  end ->
  boundary (line_raw spans ++ tail).
Proof.
  intros Ht. destruct spans as [|sp spans]; [done|]. intros [Hne Hs].
  rewrite line_raw_cons. unfold span_raw.
  destruct (spanAnsi sp) as [|a0 a] eqn:E; [done|].
  rewrite <- !app_assoc. by apply sgr_string_boundary.
Qed.

(** The text of a line, read at the end of the row [cur] in the empty
    style, writes the cells of its spans after [cur] and leaves the style
    empty, when the row has room for them. *)
Lemma run_line spans : forall above cur tail,
  Forall span_good spans -> adjacent_differ spans -> boundary tail ->
  Z.of_nat (length cur + length (flat_map span_cells spans)) <= max_length ->
  run (at_row above cur []) (tokenize (line_raw spans ++ tail))
  = run (at_row above (cur ++ flat_map span_cells spans) []) (tokenize tail).
Proof.
  induction spans as [|sp spans IH]; intros above cur tail Hg Hadj Ht Hl.
  - simpl. by rewrite app_nil_r.
  - apply Forall_cons in Hg as [(Hne & Htxt & Hsty) Hg].
    assert (adjacent_differ spans) as Hadj'.
    { intros i x y Hx Hy. by apply (Hadj (S i)). }
    cbn [flat_map] in Hl. rewrite length_app in Hl.
    assert (length (span_cells sp) = length (spanText sp)) as Hlen
      by (unfold span_cells; apply length_map).
    rewrite line_raw_cons. cbn [flat_map].
    rewrite (app_assoc cur).
    rewrite <- (IH above _ tail Hg Hadj' Ht) by (rewrite length_app; lia).
    unfold span_raw, span_cells.
    destruct (spanAnsi sp) as [|a0 a] eqn:Ea.
    + rewrite <- app_assoc. rewrite tokenize_text; [|done..|].
      * by rewrite run_cons, step_text_end by (done || lia).
      * apply line_raw_boundary; [done|].
        destruct spans as [|sp2 spans]; [done|].
        apply Forall_cons in Hg as [(_ & _ & Hs2) _]. split; [|done].
        intros E2. apply (Hadj 0%nat sp sp2); try done. by rewrite Ea, E2.
    + rewrite <- !app_assoc.
      rewrite (run_sgr_string _ Hsty above cur []). cbn [app].
      rewrite tokenize_text; [|done..].
      rewrite run_cons, step_text_end by (done || lia).
      cbn [mbind outcome_bind].
      by rewrite tokenize_reset, run_cons, step_reset.
Qed.

Lemma run_lines lines : forall rows above,
  Forall2 (fun spans row =>
             Forall span_good spans /\ adjacent_differ spans
             /\ flat_map span_cells spans = row) lines rows ->
  lines <> [] ->
  Forall (fun row : list cell => Z.of_nat (length row) <= max_length) rows ->
  Z.of_nat (length above + length rows) <= max_length ->
  exists s, run (at_row above [] []) (tokenize (join [LF] (map line_raw lines)))
            = Ok s
            /\ linesBuffer s = above ++ rows.
Proof.
  induction lines as [|spans lines IH]; intros rows above H Hne Hrows Hl;
    [done|].
  inversion H as [|? row ? rows' (Hg & Hadj & Hrow) Hrest]; subst.
  apply Forall_cons in Hrows as [Hr Hrows]. cbn [length] in Hl.
  destruct lines as [|spans2 lines].
  - inversion Hrest; subst. cbn [map join].
    rewrite <- (app_nil_r (line_raw spans)).
    rewrite (run_line spans above [] [] Hg Hadj I) by (simpl; lia).
    eexists. split; [done|]. done.
  - cbn [map join].
    rewrite (run_line spans above [] ([LF] ++ _) Hg Hadj eq_refl)
      by (simpl; lia).
    assert (rows' <> []) as Hne' by (by inversion Hrest).
    assert (1 <= length rows')%nat by (destruct rows'; [done|simpl; lia]).
    cbn [app]. rewrite tokenize_lf, run_cons, step_lf by lia.
    cbn [mbind outcome_bind].
    destruct (IH rows' (above ++ [flat_map span_cells spans]) Hrest)
      as (s & Hs & Hlb); [done|done|rewrite length_app; simpl; lia|].
    exists s. split; [exact Hs|]. by rewrite Hlb, <- app_assoc.
Qed.

(** * From the markup back to the text *)

Lemma replace_char_app c b x y :
  replace_char c b (x ++ y) = replace_char c b x ++ replace_char c b y.
Proof. apply flat_map_app. Qed.

Lemma escapeHtml_cons c t : escapeHtml (c :: t) = escapeHtml [c] ++ escapeHtml t.
Proof.
  unfold escapeHtml. change (c :: t) with ([c] ++ t).
  by rewrite !replace_char_app.
Qed.

Lemma escapeHtml_char c :
  escapeHtml [c]
  = if Ascii.eqb c "&" then str "&amp;"
    else if Ascii.eqb c "<" then str "&lt;"
    else if Ascii.eqb c ">" then str "&gt;"
    else [c].
Proof.
  unfold escapeHtml, replace_char. cbn [flat_map].
  destruct (Ascii.eqb_spec c "&") as [->|H1]; [reflexivity|]. cbn [app flat_map].
  destruct (Ascii.eqb_spec c "<") as [->|H2]; [reflexivity|]. cbn [app flat_map].
  destruct (Ascii.eqb_spec c ">") as [->|H3]; reflexivity.
Qed.

Lemma spans_of_good spans line :
  spans_of spans line -> Forall good_cell line -> Forall span_good spans.
Proof.
  intros (Hc & Hn & _) Hl. subst line. induction Hn as [|sp spans Hne _ IH].
  - constructor.
  - cbn [flat_map] in Hl. apply Forall_app in Hl as [Hsp Hl].
    constructor; [|by apply IH]. unfold span_cells in Hsp.
    rewrite Forall_map in Hsp. split; [done|]. split.
    + eapply Forall_impl; [exact Hsp|]. by intros ch [? _].
    + destruct (spanText sp) as [|ch txt]; [done|].
      by apply Forall_inv in Hsp as [_ ?].
Qed.

(** * Further properties of the tokenizer *)

Lemma tokenRegex_none_esc c r : tokenRegex (c :: r) = None -> c = ESC.
Proof.
  unfold tokenRegex.
  destruct (match_csi (c :: r)) as [[m r1]|]; [done|].
  destruct (match_osc (c :: r)) as [[m r1]|]; [done|].
  destruct (match_keypad (c :: r)) as [[m r1]|]; [done|].
  destruct (is_control c) eqn:Ec; [done|].
  destruct (is_text c) eqn:Et; [done|]. intros _.
  unfold is_text, is_control in *. apply negb_false_iff in Et.
  destruct (Ascii.eqb_spec c ESC) as [->|Hne]; [done|].
  cbn [orb] in Et. congruence.
Qed.

Lemma exec_loop_keeps fuel : forall s,
  (length s <= fuel)%nat ->
  filter (fun c => c <> ESC) (concat (map token_text (exec_loop fuel s)))
  = filter (fun c => c <> ESC) s
  /\ concat (map token_text (exec_loop fuel s)) `sublist_of` s.
Proof.
  induction fuel as [|fuel IH]; intros s Hl.
  - destruct s; [|simpl in Hl; lia]. split; [done|constructor].
  - destruct s as [|c s']; [split; [done|constructor]|]. cbn [exec_loop].
    destruct (tokenRegex (c :: s')) as [[t rest]|] eqn:E.
    + pose proof (tokenRegex_shorter _ _ _ E) as Hs.
      apply tokenRegex_split in E as [E _]. rewrite E. cbn [map concat].
      destruct (IH rest) as [Hf Hsub]; [simpl in *; lia|].
      split; [by rewrite !filter_app, Hf|]. by apply sublist_app.
    + apply tokenRegex_none_esc in E as ->.
      destruct (IH s') as [Hf Hsub]; [simpl in *; lia|]. split.
      * rewrite filter_cons_False by (by intros H; apply H). exact Hf.
      * by apply sublist_cons.
Qed.

(** X1: the tokens keep the characters of the text in their order and
    leave out nothing but ESC characters at which no alternative of the
    pattern matches. *)
Theorem X1_tokens_keep_text (text : jsstring) :
  concat (map token_text (tokenize text)) `sublist_of` text
  /\ filter (fun c => c <> ESC) (concat (map token_text (tokenize text)))
     = filter (fun c => c <> ESC) text.
Proof.
  destruct (exec_loop_keeps (length text) text) as [Hf Hs]; [lia|]. done.
Qed.

Section StopLemmas.
Context {A : Type} (p : A -> bool).

Lemma take_while_app_stop (l r : list A) x :
  p x = false -> take_while p (l ++ x :: r) = take_while p l.
Proof.
  intros Hx. induction l as [|y l IH]; simpl; [by rewrite Hx|].
  destruct (p y); [by rewrite IH|done].
Qed.

Lemma drop_while_app_stop (l r : list A) x :
  p x = false -> drop_while p (l ++ x :: r) = drop_while p l ++ x :: r.
Proof.
  intros Hx. induction l as [|y l IH]; simpl; [by rewrite Hx|].
  destruct (p y); [by rewrite IH|done].
Qed.
End StopLemmas.

Lemma line_terminator_classes c :
  is_line_terminator c = true ->
  is_control c = true /\ is_text c = false /\ is_param c = false
  /\ is_letter c = false /\ Ascii.eqb c ESC = false /\ Ascii.eqb c BEL = false
  /\ Ascii.eqb c BACKSLASH = false /\ Ascii.eqb c "[" = false
  /\ Ascii.eqb c "]" = false /\ Ascii.eqb c "=" = false
  /\ Ascii.eqb c ">" = false.
Proof.
  unfold is_line_terminator. intros H%orb_prop.
  destruct H as [->%Ascii.eqb_eq| ->%Ascii.eqb_eq]; by vm_compute.
Qed.

Lemma osc_body_line_end r : line_end r -> osc_body r = None.
Proof.
  destruct r as [|c r]; [done|]. intros Hc. cbn [osc_body].
  destruct (line_terminator_classes c Hc) as (_ & _ & _ & _ & He & Hb & _).
  rewrite Hb, He, Hc. by destruct r.
Qed.

Lemma osc_body_before c s2 : is_line_terminator c = true -> forall r,
  osc_body (r ++ c :: s2)
  = match osc_body r with
    | Some (m, rest) => Some (m, rest ++ c :: s2)
    | None => None
    end.
Proof.
  intros Hc.
  destruct (line_terminator_classes c Hc) as (_ & _ & _ & _ & _ & _ & Hbs & _).
  induction r as [|x r IH].
  - cbn [app]. by rewrite (osc_body_line_end (c :: s2) Hc).
  - change ((x :: r) ++ c :: s2) with (x :: (r ++ c :: s2)).
    cbn [osc_body]. destruct (Ascii.eqb x BEL); [done|].
    destruct r as [|d r'].
    + cbn [app]. rewrite Hbs, andb_false_r.
      rewrite (osc_body_line_end (c :: s2) Hc). destruct (is_line_terminator x); reflexivity.
    + change ((d :: r') ++ c :: s2) with (d :: (r' ++ c :: s2)) in *. cbn iota.
      destruct (Ascii.eqb x ESC && Ascii.eqb d BACKSLASH); [done|].
      destruct (is_line_terminator x); [done|].
      rewrite IH. by destruct (osc_body (d :: r')) as [[m rest]|].
Qed.

Lemma tokenRegex_before c s2 x r :
  is_line_terminator c = true ->
  tokenRegex ((x :: r) ++ c :: s2)
  = match tokenRegex (x :: r) with
    | Some (t, rest) => Some (t, rest ++ c :: s2)
    | None => None
    end.
Proof.
  intros Hc.
  destruct (line_terminator_classes c Hc)
    as (_ & Ht & Hp & Hl & _ & _ & _ & Hlb & Hrb & Heq & Hgt).
  assert (match_csi ((x :: r) ++ c :: s2)
          = match match_csi (x :: r) with
            | Some (m, rest) => Some (m, rest ++ c :: s2)
            | None => None
            end) as Ecsi.
  { destruct r as [|b r]; cbn [app match_csi].
    - by rewrite Hlb, andb_false_r.
    - destruct (Ascii.eqb x ESC && Ascii.eqb b "["); [|done].
      rewrite (drop_while_app_stop is_param r s2 c Hp).
      rewrite (take_while_app_stop is_param r s2 c Hp).
      destruct (drop_while is_param r) as [|f r']; cbn [app].
      + by rewrite Hl.
      + by destruct (is_letter f). }
  assert (match_osc ((x :: r) ++ c :: s2)
          = match match_osc (x :: r) with
            | Some (m, rest) => Some (m, rest ++ c :: s2)
            | None => None
            end) as Eosc.
  { destruct r as [|b r]; cbn [app match_osc].
    - by rewrite Hrb, andb_false_r.
    - destruct (Ascii.eqb x ESC && Ascii.eqb b "]"); [|done].
      rewrite (osc_body_before c s2 Hc r).
      by destruct (osc_body r) as [[m rest]|]. }
  assert (match_keypad ((x :: r) ++ c :: s2)
          = match match_keypad (x :: r) with
            | Some (m, rest) => Some (m, rest ++ c :: s2)
            | None => None
            end) as Ekp.
  { destruct r as [|b r]; cbn [app match_keypad].
    - by rewrite Heq, Hgt, andb_false_r.
    - by destruct (Ascii.eqb x ESC && _). }
  unfold tokenRegex. rewrite Ecsi, Eosc, Ekp.
  destruct (match_csi (x :: r)) as [[m rest]|]; [done|].
  destruct (match_osc (x :: r)) as [[m rest]|]; [done|].
  destruct (match_keypad (x :: r)) as [[m rest]|]; [done|].
  cbn [app]. destruct (is_control x); [done|].
  destruct (is_text x); [|done].
  change (x :: r ++ c :: s2) with ((x :: r) ++ c :: s2).
  by rewrite (take_while_app_stop is_text _ s2 c Ht),
             (drop_while_app_stop is_text _ s2 c Ht).
Qed.

Lemma tokenize_control c r :
  is_control c = true -> tokenize (c :: r) = controlChar c :: tokenize r.
Proof.
  intros Hc. rewrite tokenize_cons. unfold tokenRegex.
  assert (Ascii.eqb c ESC = false) as He.
  { unfold is_control in Hc. destruct (Ascii.eqb_spec c ESC) as [->|]; done. }
  destruct (not_esc_no_escape c r He) as (-> & -> & ->). by rewrite Hc.
Qed.

Lemma tokenize_split_at n : forall s1 c s2,
  length s1 = n -> is_line_terminator c = true ->
  tokenize (s1 ++ c :: s2) = tokenize s1 ++ controlChar c :: tokenize s2.
Proof.
  induction n as [n IH] using lt_wf_ind. intros s1 c s2 Hn Hc.
  destruct s1 as [|x r].
  - apply tokenize_control. by destruct (line_terminator_classes c Hc).
  - change ((x :: r) ++ c :: s2) with (x :: (r ++ c :: s2)).
    rewrite tokenize_cons.
    change (x :: (r ++ c :: s2)) with ((x :: r) ++ c :: s2).
    rewrite (tokenRegex_before c s2 x r Hc), (tokenize_cons x r).
    destruct (tokenRegex (x :: r)) as [[t rest]|] eqn:E.
    + apply tokenRegex_shorter in E. cbn [app]. f_equal.
      apply (IH (length rest)); [lia|done..].
    + apply (IH (length r)); [simpl in Hn; lia|done..].
Qed.

(** X2: a line feed or carriage return is a token of its own wherever it
    stands: no sequence reaches across it, and the text on either side is
    scanned as if it stood alone. *)
Theorem X2_line_terminator_splits (s1 s2 : jsstring) (c : ascii) :
  is_line_terminator c = true ->
  tokenize (s1 ++ c :: s2) = tokenize s1 ++ controlChar c :: tokenize s2.
Proof. by apply (tokenize_split_at (length s1)). Qed.

Lemma X2_line_terminator_splits_witness :
  is_line_terminator LF = true
  /\ tokenize ((ESC :: str "]0;open") ++ LF :: str "next")
     = tokenize (ESC :: str "]0;open") ++ controlChar LF :: tokenize (str "next").
Proof.
  split; [reflexivity|].
  apply (X2_line_terminator_splits (ESC :: str "]0;open") (str "next") LF).
  reflexivity.
Defined.

Lemma osc_body_open body rest :
  osc_plain body = true -> line_end rest -> osc_body (body ++ rest) = None.
Proof.
  intros Hb Hr. induction body as [|x body IH].
  - by apply osc_body_line_end.
  - cbn [osc_plain] in Hb.
    apply andb_prop in Hb as [Hb Hpl]. apply andb_prop in Hb as [Hb Hesc].
    apply andb_prop in Hb as [Hbel Hlt].
    apply negb_true_iff in Hbel, Hlt, Hesc.
    change ((x :: body) ++ rest) with (x :: (body ++ rest)). cbn [osc_body].
    rewrite Hbel, (IH Hpl).
    destruct (body ++ rest) as [|d r'] eqn:E; [done|].
    rewrite Hlt.
    assert (Ascii.eqb x ESC && Ascii.eqb d BACKSLASH = false) as ->; [|done].
    destruct body as [|d' body'].
    + cbn [app] in E. subst rest. cbn [line_end] in Hr.
      destruct (line_terminator_classes d Hr) as (_ & _ & _ & _ & _ & _ & -> & _).
      apply andb_false_r.
    + by injection E as -> _.
Qed.

(** X3: an OSC opener that no terminator follows before the end of its
    line is not dropped: the ESC alone is stepped over, and the closing
    bracket and what follows it are scanned as if the ESC were not there,
    the bracket starting a text run. *)
Theorem X3_open_osc_is_text (body rest : jsstring) :
  osc_plain body = true -> line_end rest ->
  tokenize (ESC :: "]"%char :: body ++ rest)
  = tokenize ("]"%char :: body ++ rest)
  /\ (exists txt more,
       tokenize ("]"%char :: body ++ rest) = textPart ("]"%char :: txt) :: more)
  /\ (forall s, run s (tokenize (ESC :: "]"%char :: body ++ rest))
                = run s (tokenize ("]"%char :: body ++ rest))).
Proof.
  intros Hb Hr.
  assert (tokenize (ESC :: "]"%char :: body ++ rest)
          = tokenize ("]"%char :: body ++ rest)) as E; [|split; [exact E|split]].
  - rewrite tokenize_cons. unfold tokenRegex.
    change (match_csi (ESC :: "]"%char :: body ++ rest))
      with (@None (jsstring * jsstring)).
    cbn [match_osc]. change (Ascii.eqb ESC ESC && Ascii.eqb "]" "]") with true.
    cbn iota. by rewrite (osc_body_open body rest Hb Hr).
  - rewrite tokenize_cons. unfold tokenRegex.
    destruct (not_esc_no_escape "]" (body ++ rest) eq_refl) as (-> & -> & ->).
    by eexists _, _.
  - intros s. by rewrite E.
Qed.

Lemma X3_open_osc_is_text_witness :
  let body := str "0;ti" ++ ESC :: str "[31mtle" in
  osc_plain body = true
  /\ line_end [LF]
  /\ tokenize (ESC :: "]"%char :: body ++ [LF])
     = [textPart (str "]0;ti"); ansiCode (ESC :: str "[31m");
        textPart (str "tle"); controlChar LF].
Proof.
  split; [reflexivity|]. split; [reflexivity|].
  rewrite (proj1 (X3_open_osc_is_text (str "0;ti" ++ ESC :: str "[31mtle") [LF]
                    eq_refl eq_refl)).
  reflexivity.
Defined.

(** * Sequences without effect *)

Lemma endsWith_final ps f c :
  endsWith (ESC :: "["%char :: ps ++ [f]) c = Ascii.eqb f c.
Proof.
  change (ESC :: "["%char :: ps ++ [f]) with ((ESC :: "["%char :: ps) ++ [f]).
  apply endsWith_snoc.
Qed.

(** X4: a CSI sequence whose final letter is none of m, K, J, P, A, B, C,
    D is one token, and the interpreter goes on from the same buffer,
    cursor and current style as if it were not there. *)
Theorem X4_unknown_csi_ignored (ps rest : jsstring) (f : ascii) (s : state) :
  Forall (fun c => is_param c = true) ps ->
  is_letter f = true -> known_final f = false ->
  tokenize (ESC :: "["%char :: ps ++ f :: rest)
  = ansiCode (ESC :: "["%char :: ps ++ [f]) :: tokenize rest
  /\ step s (ansiCode (ESC :: "["%char :: ps ++ [f])) = Ok s
  /\ run s (tokenize (ESC :: "["%char :: ps ++ f :: rest))
     = run s (tokenize rest).
Proof.
  intros Hps Hf Hk.
  assert (step s (ansiCode (ESC :: "["%char :: ps ++ [f])) = Ok s) as Hstep.
  { cbn [step]. unfold step_ansi. rewrite !endsWith_final.
    unfold known_final in Hk. cbn [existsb] in Hk.
    repeat (apply orb_false_elim in Hk as [? Hk]).
    by repeat match goal with H : Ascii.eqb f _ = false |- _ => rewrite H; clear H end. }
  rewrite (tokenize_csi ps f rest Hps Hf). split; [done|]. split; [done|].
  rewrite run_cons, Hstep. done.
Qed.

Lemma X4_unknown_csi_ignored_witness :
  Forall (fun c => is_param c = true) (str "?25")
  /\ is_letter "l" = true /\ known_final "l" = false
  /\ run initial (tokenize (ESC :: "["%char :: str "?25" ++ "l"%char :: str "x"))
     = run initial (tokenize (str "x")).
Proof.
  assert (Forall (fun c => is_param c = true) (str "?25")) as H
    by (repeat constructor; done).
  split; [exact H|]. split; [reflexivity|]. split; [reflexivity|].
  exact (proj2 (proj2 (X4_unknown_csi_ignored (str "?25") (str "x") "l" initial
                         H eq_refl eq_refl))).
Defined.

(** X5: ESC followed by = or > is one keypad-mode token wherever the scan
    reaches it, and the interpreter goes on as if it were not there. *)
Theorem X5_keypad_ignored (k : ascii) (rest : jsstring) (s : state) :
  k = "="%char \/ k = ">"%char ->
  tokenize (ESC :: k :: rest) = keypadMode [ESC; k] :: tokenize rest
  /\ run s (tokenize (ESC :: k :: rest)) = run s (tokenize rest).
Proof.
  intros Hk.
  assert (tokenize (ESC :: k :: rest) = keypadMode [ESC; k] :: tokenize rest)
    as E by (rewrite tokenize_cons; by destruct Hk as [-> | ->]).
  by rewrite E.
Qed.

Lemma X5_keypad_ignored_witness :
  ("="%char = "="%char \/ "="%char = ">"%char)
  /\ run initial (tokenize (ESC :: "="%char :: str "x"))
     = run initial (tokenize (str "x")).
Proof.
  split; [by left|].
  exact (proj2 (X5_keypad_ignored "=" (str "x") initial (or_introl eq_refl))).
Defined.

(** * Further properties of the interpreter *)

Lemma length_assign {A} (arr : list A) i v arr' :
  assign arr i v = Ok arr' -> (length arr <= length arr')%nat.
Proof.
  intros (j & -> & [(Hj & ->)|(Hj & Hm & ->)])%assign_Ok.
  - by rewrite length_insert.
  - rewrite length_app. simpl. lia.
Qed.

Lemma assign_undefined {A} (arr : list A) i v arr' :
  index arr i = None -> assign arr i v = Ok arr' -> arr' = arr ++ [v].
Proof.
  intros Hn (j & -> & [(Hj & ->)|(Hj & Hm & ->)])%assign_Ok; [|done].
  destruct (index_in_range arr j Hj) as [w Hw]. congruence.
Qed.

Lemma length_grow lb y lb' :
  grow lb y = Ok lb' ->
  exists k, lb' = lb ++ replicate k [].
Proof.
  intros [(_ & ->)|(i & -> & Hi & ->)]%grow_Ok; [|by eexists].
  exists 0%nat. by rewrite app_nil_r.
Qed.

(** X6: no token removes a row, apart from the erase-display sequence
    with parameter 2, which leaves exactly one empty row. *)
Theorem X6_rows_never_removed (s s' : state) (t : token) :
  step s t = Ok s' ->
  (length (linesBuffer s) <= length (linesBuffer s'))%nat
  \/ (linesBuffer s' = [[]]
      /\ exists a, t = ansiCode a /\ endsWith a "J" = true
                   /\ param_or 0 a = Num 2).
Proof.
  destruct t as [a|a|a|c|a]; simpl.
  - destruct a as [|a0 a]; [intros [= <-]; by left|].
    remember (a0 :: a) as ansi eqn:Ea. clear Ea. unfold step_ansi.
    destruct (endsWith ansi "m").
    { destruct (str_eqb ansi reset); intros [= <-]; by left. }
    destruct (endsWith ansi "K").
    { branches; cbn [mbind outcome_bind]; try done; intros [= <-]; left;
        rewrite ?length_set_line; try done. by eapply length_assign. }
    destruct (endsWith ansi "J") eqn:EJ.
    { destruct (is_num (param_or 0 ansi) 0).
      { destruct (index _ _); [|done]. intros [= <-]. left. simpl.
        by rewrite length_clear_below, length_set_line. }
      destruct (is_num (param_or 0 ansi) 2) eqn:E2; intros [= <-].
      - right. split; [done|]. exists ansi. split; [done|]. split; [done|].
        destruct (param_or 0 ansi); try done. simpl in E2.
        by apply Z.eqb_eq in E2 as ->.
      - by left. }
    destruct (endsWith ansi "P").
    { destruct (index _ _); [|done]. intros [= <-]. left.
      by rewrite length_set_line. }
    destruct (endsWith ansi "A"); [intros [= <-]; by left|].
    destruct (endsWith ansi "B").
    { destruct (grow _ _) as [lb| | | |] eqn:Eg; try done.
      intros [= <-]. left. simpl.
      apply length_grow in Eg as [k ->]. rewrite length_app. lia. }
    branches; intros [= <-]; by left.
  - intros [= <-]. by left.
  - intros [= <-]. by left.
  - unfold step_control. destruct (Ascii.eqb c LF).
    + destruct (index _ _).
      * intros [= <-]. by left.
      * destruct (assign _ _ _) eqn:E; simpl; try done. intros [= <-]. left.
        simpl. by eapply length_assign.
    + branches; intros [= <-]; by left.
  - destruct a as [|a0 a]; [intros [= <-]; by left|].
    unfold step_text. destruct (index _ _) as [l|]; [|done].
    destruct (write _ _ _ _) as [[l' x]| | | |] eqn:E; simpl; try done.
    intros [= <-]. left. simpl. by rewrite length_set_line.
Qed.

Lemma X6_rows_never_removed_witness :
  step (at_row [[]] [] []) (ansiCode (ESC :: str "[2J")) = Ok initial
  /\ ((length (linesBuffer (at_row [[]] [] [])) <= length (linesBuffer initial))%nat
      \/ (linesBuffer initial = [[]]
          /\ exists a, ansiCode (ESC :: str "[2J") = ansiCode a
                       /\ endsWith a "J" = true /\ param_or 0 a = Num 2)).
Proof.
  split; [reflexivity|].
  apply (X6_rows_never_removed (at_row [[]] [] []) initial
           (ansiCode (ESC :: str "[2J"))).
  reflexivity.
Defined.

(** X7: only text runs and the sequences ending in K, J or P change
    cells.  Every other token leaves each row as it is and at most appends
    empty rows (line feed and cursor down do). *)
Theorem X7_other_tokens_keep_cells (s s' : state) (t : token) :
  edits_cells t = false -> step s t = Ok s' ->
  exists k, linesBuffer s' = linesBuffer s ++ replicate k [].
Proof.
  intros He. destruct t as [a|a|a|c|a]; simpl.
  - destruct a as [|a0 a]; [intros [= <-]; exists 0%nat; by rewrite app_nil_r|].
    cbn [edits_cells] in He. remember (a0 :: a) as ansi eqn:Ea. clear Ea.
    unfold step_ansi. destruct (endsWith ansi "m").
    { destruct (str_eqb ansi reset); intros [= <-]; exists 0%nat;
        by rewrite app_nil_r. }
    cbn [negb andb] in He. apply orb_false_elim in He as [He ->].
    apply orb_false_elim in He as [-> ->].
    destruct (endsWith ansi "A");
      [intros [= <-]; exists 0%nat; by rewrite app_nil_r|].
    destruct (endsWith ansi "B").
    { destruct (grow _ _) as [lb| | | |] eqn:Eg; try done.
      intros [= <-]. by apply length_grow in Eg. }
    branches; intros [= <-]; exists 0%nat; by rewrite app_nil_r.
  - intros [= <-]. exists 0%nat. by rewrite app_nil_r.
  - intros [= <-]. exists 0%nat. by rewrite app_nil_r.
  - unfold step_control. destruct (Ascii.eqb c LF).
    + destruct (index _ _) eqn:Ei.
      * intros [= <-]. exists 0%nat. by rewrite app_nil_r.
      * destruct (assign _ _ _) eqn:E; simpl; try done. intros [= <-].
        exists 1%nat. by apply (assign_undefined _ _ _ _ Ei E).
    + branches; intros [= <-]; exists 0%nat; by rewrite app_nil_r.
  - destruct a as [|a0 a]; [|done]. intros [= <-]. exists 0%nat.
    by rewrite app_nil_r.
Qed.

Lemma X7_other_tokens_keep_cells_witness :
  edits_cells (ansiCode (ESC :: str "[2B")) = false
  /\ step initial (ansiCode (ESC :: str "[2B"))
     = Ok {| linesBuffer := [[]; []; []]; cursorX := Num 0; cursorY := Num 2;
             currentStyle := [] |}
  /\ exists k, [[]; []; []] = linesBuffer initial ++ replicate k ([] : list cell).
Proof.
  split; [reflexivity|]. split; [reflexivity|].
  apply (X7_other_tokens_keep_cells initial
           {| linesBuffer := [[]; []; []]; cursorX := Num 0; cursorY := Num 2;
              currentStyle := [] |} (ansiCode (ESC :: str "[2B")));
    reflexivity.
Defined.

Lemma pad_padded line x :
  x <= max_length -> pad line (Num x) = Ok (padded line x).
Proof.
  intros H. unfold pad, padded. cbn [lt].
  destruct (Z.ltb_spec (Z.of_nat (length line)) x).
  - by destruct (Z.leb_spec x max_length); [|lia].
  - replace (Z.to_nat (x - Z.of_nat (length line))) with 0%nat by lia.
    by rewrite app_nil_r.
Qed.

Lemma length_padded line x :
  Z.of_nat (length (padded line x)) = Z.max (Z.of_nat (length line)) x.
Proof. unfold padded. rewrite length_app, length_replicate. lia. Qed.

Lemma padded_inside line x :
  x <= Z.of_nat (length line) -> padded line x = line.
Proof.
  intros H. unfold padded.
  replace (Z.to_nat (x - Z.of_nat (length line))) with 0%nat by lia.
  apply app_nil_r.
Qed.

Lemma write_inside sty txt : forall line x,
  0 <= x <= Z.of_nat (length line) ->
  x + Z.of_nat (length txt) <= max_length ->
  write line (Num x) sty txt
  = Ok (take (Z.to_nat x) line ++ map (mk_cell sty) txt
        ++ drop (Z.to_nat x + length txt) line,
        Num (x + Z.of_nat (length txt))).
Proof.
  induction txt as [|ch txt IH]; intros line x Hx Hm; cbn [write map length].
  - cbn [app]. rewrite Nat.add_0_r, take_drop. do 3 f_equal. lia.
  - cbn [length] in Hm.
    rewrite pad_padded, padded_inside by lia. cbn [mbind outcome_bind].
    unfold put.
    destruct (Z.leb_spec 0 x); [|lia].
    destruct (Z.ltb_spec x max_length); [|lia]. cbn [andb].
    assert (add (Num x) (Num 1) = Num (x + 1)) as Ea.
    { cbn [add]. apply to_number_exact.
      unfold max_length, max_safe in *. lia. }
    destruct (Z.eq_dec x (Z.of_nat (length line))) as [->|Hne].
    + rewrite assign_end by done. cbn [mbind outcome_bind].
      rewrite Ea, IH by (rewrite ?length_app; simpl; lia).
      rewrite Nat2Z.id.
      replace (Z.to_nat (Z.of_nat (length line) + 1)) with (S (length line)) by lia.
      rewrite (take_ge (line ++ _)) by (rewrite length_app; simpl; lia).
      rewrite (drop_ge (line ++ _)) by (rewrite length_app; simpl; lia).
      rewrite take_ge, (drop_ge line) by lia.
      rewrite <- app_assoc. do 3 f_equal. lia.
    + rewrite assign_inside by lia. cbn [mbind outcome_bind].
      rewrite Ea, IH by (rewrite ?length_insert; lia).
      replace (Z.to_nat (x + 1)) with (S (Z.to_nat x)) by lia.
      rewrite (take_S_r _ _ (mk_cell sty ch))
        by (apply list_lookup_insert_eq; lia).
      rewrite take_insert_ge by lia. rewrite drop_insert_lt by lia.
      rewrite <- app_assoc. cbn [app].
      replace (S (Z.to_nat x) + length txt)%nat
        with (Z.to_nat x + S (length txt))%nat by lia.
      do 3 f_equal. lia.
Qed.

Lemma write_pads sty ch txt line x :
  x <= max_length ->
  write line (Num x) sty (ch :: txt)
  = write (padded line x) (Num x) sty (ch :: txt).
Proof.
  intros H. cbn [write]. rewrite !pad_padded by done.
  rewrite (padded_inside (padded line x)); [done|].
  rewrite length_padded. lia.
Qed.

(** X8: a text run of n characters overwrites the n cells from the cursor
    column, in the current style, leaves the cells on either side as they
    are, fills the gap with blanks when the cursor stands beyond the end of
    the row, and moves the cursor n columns on.  This holds when the cursor
    column is an integer and the columns written are array indices. *)
Theorem X8_text_overwrites (s : state) (txt : jsstring) (x : Z) :
  cursor_ok s -> cursorX s = Num x -> txt <> [] ->
  x + Z.of_nat (length txt) <= max_length ->
  exists line,
    index (linesBuffer s) (cursorY s) = Some line
    /\ step s (textPart txt)
       = Ok (set_cursorX
               (set_line s
                  (take (Z.to_nat x) (padded line x)
                   ++ map (mk_cell (currentStyle s)) txt
                   ++ drop (Z.to_nat x + length txt) line))
               (Num (x + Z.of_nat (length txt)))).
Proof.
  intros (Hx & (y & Hy & Hr) & _) Ex Hne Hm. rewrite Ex in Hx. simpl in Hx.
  destruct (index_in_range _ _ Hr) as [line Hl]. rewrite Hy.
  exists line. split; [done|]. destruct txt as [|ch txt]; [done|].
  cbn [step]. unfold step_text. rewrite Hy, Hl, Ex, write_pads by lia.
  pose proof (length_padded line x) as Hp.
  rewrite write_inside by lia. cbn [mbind outcome_bind].
  do 4 f_equal. unfold padded. rewrite drop_app.
  rewrite (drop_ge (replicate _ _)); [by rewrite app_nil_r|].
  rewrite length_replicate. simpl. lia.
Qed.

Lemma X8_text_overwrites_witness :
  let s := {| linesBuffer := [map (mk_cell []) (str "ab")];
              cursorX := Num 4; cursorY := Num 0; currentStyle := [] |} in
  cursor_ok s /\ cursorX s = Num 4 /\ str "cd" <> []
  /\ 4 + Z.of_nat (length (str "cd")) <= max_length
  /\ step s (textPart (str "cd"))
     = Ok {| linesBuffer :=
               [map (mk_cell []) (str "ab") ++ [blank; blank]
                ++ map (mk_cell []) (str "cd")];
             cursorX := Num 6; cursorY := Num 0; currentStyle := [] |}.
Proof.
  intros s.
  assert (cursor_ok s) as H.
  { split; [simpl; lia|]. split; [exists 0; simpl; split; [done|lia]|].
    by vm_compute. }
  split; [exact H|]. split; [done|]. split; [done|]. split; [by vm_compute|].
  destruct (X8_text_overwrites s (str "cd") 4 H eq_refl ltac:(done)
              ltac:(by vm_compute)) as (line & Hl & ->).
  injection Hl as <-. reflexivity.
Defined.

(** * Erasing and deleting *)

Lemma splice_take {A} (arr : list A) x :
  0 <= x -> splice arr (Num x) = take (Z.to_nat x) arr.
Proof.
  intros Hx. unfold splice, relativeStart.
  destruct (Z.ltb_spec x 0); [lia|].
  destruct (Z.le_gt_cases x (Z.of_nat (length arr))).
  - by rewrite Z.min_l by lia.
  - rewrite Z.min_r, Nat2Z.id by lia. by rewrite !take_ge by lia.
Qed.

Lemma splice_count_take_drop {A} (arr : list A) x c :
  0 <= x -> count_ok c ->
  splice_count arr (Num x) c
  = take (Z.to_nat x) arr
    ++ drop (Z.to_nat x + count_cells c (length arr)) arr.
Proof.
  intros Hx Hc. unfold splice_count, relativeStart, count_cells.
  destruct (Z.ltb_spec x 0); [lia|].
  destruct (Z.le_gt_cases x (Z.of_nat (length arr))).
  - rewrite Z.min_l by lia. f_equal. destruct c as [n| | |]; try done.
    + simpl in Hc.
      destruct (Z.le_gt_cases n (Z.of_nat (length arr - Z.to_nat x))).
      * f_equal. lia.
      * rewrite !drop_ge; [done|lia..].
    + rewrite !drop_ge; [done|lia..].
  - rewrite Z.min_r, Nat2Z.id by lia.
    rewrite !take_ge, !drop_ge; [done|lia..].
Qed.

Lemma blank_before_replicate n : forall line,
  blank_before n line
  = replicate (min n (length line)) blank ++ drop n line.
Proof.
  induction n as [|n IH]; intros [|c line]; simpl; try done.
  by rewrite IH.
Qed.

Lemma set_line_same s line :
  index (linesBuffer s) (cursorY s) = Some line -> set_line s line = s.
Proof.
  intros H. destruct s as [lb cx cy st]. simpl in H.
  apply index_Some_range in H as (y & -> & _ & Hl).
  unfold set_line, set_linesBuffer. simpl.
  by rewrite (list_insert_id _ _ _ Hl).
Qed.

Lemma endsWith_nonempty a c : endsWith a c = true -> a <> [].
Proof. by intros H ->. Qed.

(** X9: erase in line changes the cursor row alone and never makes it
    longer.  With parameter 0 or none the row is cut at the cursor column;
    with 1 the cells left of the cursor that exist become blanks and the
    rest stays; with 2 the row becomes empty; any other parameter changes
    nothing.  The cursor and the current style stay.  This holds when the
    cursor column is an integer up to 2^53. *)
Theorem X9_erase_in_line (s : state) (a : jsstring) (x : Z) :
  cursor_ok s -> cursorX s = Num x -> x <= max_safe ->
  endsWith a "m" = false -> endsWith a "K" = true ->
  exists line,
    index (linesBuffer s) (cursorY s) = Some line
    /\ step s (ansiCode a)
       = Ok (set_line s
               (if is_num (param_or 0 a) 0 then take (Z.to_nat x) line
                else if is_num (param_or 0 a) 1
                then replicate (min (Z.to_nat x) (length line)) blank
                     ++ drop (Z.to_nat x) line
                else if is_num (param_or 0 a) 2 then []
                else line)).
Proof.
  intros (Hx & (y & Hy & Hr) & _) Ex Hs Hm HK. rewrite Ex in Hx. simpl in Hx.
  destruct (index_in_range _ _ Hr) as [line Hl]. rewrite Hy.
  exists line. split; [done|].
  destruct a as [|a0 a]; [done|]. cbn [step]. unfold step_ansi.
  rewrite Hm, HK, Hy, Hl, Ex. destruct (is_num (param_or 0 (a0 :: a)) 0).
  { by rewrite splice_take. }
  destruct (is_num (param_or 0 (a0 :: a)) 1).
  { unfold blank_loop. cbn [lt]. destruct (Z.ltb_spec 0 x).
    - destruct (Z.leb_spec x max_safe); [|lia]. cbn [mbind outcome_bind].
      by rewrite blank_before_replicate.
    - replace (Z.to_nat x) with 0%nat by lia. cbn [min replicate drop app].
      done. }
  destruct (is_num (param_or 0 (a0 :: a)) 2).
  { rewrite assign_inside by done. cbn [mbind outcome_bind].
    unfold set_line. by rewrite Hy. }
  rewrite set_line_same; [done|by rewrite Hy].
Qed.

Lemma X9_erase_in_line_witness :
  let s := {| linesBuffer := [map (mk_cell (ESC :: str "[1m")) (str "abcd")];
              cursorX := Num 2; cursorY := Num 0; currentStyle := [] |} in
  cursor_ok s /\ cursorX s = Num 2 /\ 2 <= max_safe
  /\ endsWith (ESC :: str "[1K") "m" = false
  /\ endsWith (ESC :: str "[1K") "K" = true
  /\ step s (ansiCode (ESC :: str "[1K"))
     = Ok {| linesBuffer :=
               [[blank; blank; mk_cell (ESC :: str "[1m") "c";
                 mk_cell (ESC :: str "[1m") "d"]];
             cursorX := Num 2; cursorY := Num 0; currentStyle := [] |}.
Proof.
  intros s.
  assert (cursor_ok s) as H.
  { split; [simpl; lia|]. split; [exists 0; simpl; split; [done|lia]|].
    by vm_compute. }
  split; [exact H|]. split; [done|]. split; [by vm_compute|].
  split; [reflexivity|]. split; [reflexivity|].
  destruct (X9_erase_in_line s (ESC :: str "[1K") 2 H eq_refl
              ltac:(by vm_compute) eq_refl eq_refl) as (line & Hl & ->).
  injection Hl as <-. reflexivity.
Defined.

(** X10: delete character takes the cells from the cursor column out of
    the cursor row, as many as the parameter says (1 when there is none,
    all of them when the parameter is Infinity), and moves the cells right
    of them left; the cells left of the cursor, the other rows, the cursor
    and the style stay, and nothing happens when the cursor stands at or
    beyond the end of the row.  This holds when the cursor column is an
    integer. *)
Theorem X10_delete_character (s : state) (a : jsstring) (x : Z) :
  cursor_ok s -> cursorX s = Num x ->
  endsWith a "m" = false -> endsWith a "K" = false ->
  endsWith a "J" = false -> endsWith a "P" = true ->
  exists line,
    index (linesBuffer s) (cursorY s) = Some line
    /\ step s (ansiCode a)
       = Ok (set_line s
               (take (Z.to_nat x) line
                ++ drop (Z.to_nat x
                         + count_cells (param_or 1 a) (length line)) line)).
Proof.
  intros (Hx & (y & Hy & Hr) & _) Ex Hm HK HJ HP. rewrite Ex in Hx.
  simpl in Hx. destruct (index_in_range _ _ Hr) as [line Hl]. rewrite Hy.
  exists line. split; [done|].
  destruct a as [|a0 a]; [done|]. cbn [step]. unfold step_ansi.
  rewrite Hm, HK, HJ, HP, Hy, Hl, Ex.
  rewrite splice_count_take_drop; [done|lia|]. by apply param_or_ok.
Qed.

Lemma X10_delete_character_witness :
  let s := {| linesBuffer := [map (mk_cell []) (str "abcdef")];
              cursorX := Num 1; cursorY := Num 0; currentStyle := [] |} in
  cursor_ok s /\ cursorX s = Num 1
  /\ endsWith (ESC :: str "[3P") "m" = false
  /\ endsWith (ESC :: str "[3P") "K" = false
  /\ endsWith (ESC :: str "[3P") "J" = false
  /\ endsWith (ESC :: str "[3P") "P" = true
  /\ step s (ansiCode (ESC :: str "[3P"))
     = Ok {| linesBuffer := [map (mk_cell []) (str "aef")];
             cursorX := Num 1; cursorY := Num 0; currentStyle := [] |}.
Proof.
  intros s.
  assert (cursor_ok s) as H.
  { split; [simpl; lia|]. split; [exists 0; simpl; split; [done|lia]|].
    by vm_compute. }
  split; [exact H|]. split; [done|]. do 4 (split; [reflexivity|]).
  destruct (X10_delete_character s (ESC :: str "[3P") 1 H eq_refl
              eq_refl eq_refl eq_refl eq_refl) as (line & Hl & ->).
  injection Hl as <-. reflexivity.
Defined.

(** X11: erase in display with parameter 0 or none keeps the rows above
    the cursor row, cuts the cursor row at the cursor column and empties
    every row below without removing it; with parameter 2 the buffer becomes
    one empty row and the cursor goes to column 0 of row 0; any other
    parameter changes nothing.  The current style stays in every case.
    This holds when the cursor column is an integer. *)
Theorem X11_erase_in_display (s : state) (a : jsstring) (x y : Z) :
  cursor_ok s -> cursorX s = Num x -> cursorY s = Num y ->
  endsWith a "m" = false -> endsWith a "K" = false ->
  endsWith a "J" = true ->
  exists line,
    index (linesBuffer s) (cursorY s) = Some line
    /\ step s (ansiCode a)
       = Ok (if is_num (param_or 0 a) 0
             then set_linesBuffer s
                    (take (Z.to_nat y) (linesBuffer s)
                     ++ take (Z.to_nat x) line
                     :: replicate (length (linesBuffer s)
                                   - S (Z.to_nat y)) [])
             else if is_num (param_or 0 a) 2
             then {| linesBuffer := [[]]; cursorX := Num 0; cursorY := Num 0;
                     currentStyle := currentStyle s |}
             else s).
Proof.
  intros (Hx & (y' & Hy' & Hr) & _) Ex Hy Hm HK HJ. rewrite Ex in Hx.
  simpl in Hx. rewrite Hy in Hy'. injection Hy' as <-.
  destruct (index_in_range _ _ Hr) as [line Hl]. rewrite Hy.
  exists line. split; [done|].
  destruct a as [|a0 a]; [done|]. cbn [step]. unfold step_ansi.
  rewrite Hm, HK, HJ, Hy, Hl, Ex.
  destruct (is_num (param_or 0 (a0 :: a)) 0); [|by destruct (is_num _ 2)].
  f_equal. unfold set_line, set_linesBuffer, clear_below. rewrite Hy.
  cbn [linesBuffer cursorX cursorY currentStyle].
  rewrite splice_take by done. rewrite length_insert.
  replace (Z.to_nat (Z.max 0 (y + 1))) with (S (Z.to_nat y)) by lia.
  rewrite (take_S_r _ _ (take (Z.to_nat x) line))
    by (apply list_lookup_insert_eq; lia).
  rewrite take_insert_ge by lia. by rewrite <- app_assoc.
Qed.

Lemma X11_erase_in_display_witness :
  let s := {| linesBuffer := [map (mk_cell []) (str "abc");
                              map (mk_cell []) (str "def");
                              map (mk_cell []) (str "ghi")];
              cursorX := Num 1; cursorY := Num 1; currentStyle := [] |} in
  cursor_ok s /\ cursorX s = Num 1 /\ cursorY s = Num 1
  /\ endsWith (ESC :: str "[J") "m" = false
  /\ endsWith (ESC :: str "[J") "K" = false
  /\ endsWith (ESC :: str "[J") "J" = true
  /\ step s (ansiCode (ESC :: str "[J"))
     = Ok {| linesBuffer := [map (mk_cell []) (str "abc");
                             map (mk_cell []) (str "d"); []];
             cursorX := Num 1; cursorY := Num 1; currentStyle := [] |}.
Proof.
  intros s.
  assert (cursor_ok s) as H.
  { split; [simpl; lia|]. split; [exists 1; simpl; split; [done|lia]|].
    by vm_compute. }
  split; [exact H|]. split; [done|]. split; [done|].
  do 3 (split; [reflexivity|]).
  destruct (X11_erase_in_display s (ESC :: str "[J") 1 1 H eq_refl eq_refl
              eq_refl eq_refl eq_refl) as (line & Hl & ->).
  injection Hl as <-. reflexivity.
Defined.

(** * What the buffer can hold *)

(** X12: whenever the interpreter gets through an input, no cell of its
    buffer holds ESC, a carriage return, a line feed or a backspace, and
    every cell style, like the current style, is a concatenation of SGR
    sequences none of which is the reset form. *)
Theorem X12_cells_are_printable (text : jsstring) (s : state) :
  interpret text = Ok s ->
  Forall (Forall (fun c => is_text (char c) = true /\ sgr_string (style c)))
    (linesBuffer s)
  /\ sgr_string (currentStyle s).
Proof.
  intros [Hg Hs]%interpret_grid_ok. split; [|done].
  eapply Forall_impl; [exact Hg|]. by intros row [? _].
Qed.

Lemma X12_cells_are_printable_witness :
  let text := ESC :: str "[1mab" ++ [CR] ++ str "c" ++ ESC :: str "[0m" ++ [BS]
              ++ ESC :: str "[31md" in
  let s := {| linesBuffer :=
                [[mk_cell (ESC :: str "[31m") "d";
                  mk_cell (ESC :: str "[1m") "b"]];
              cursorX := Num 1; cursorY := Num 0;
              currentStyle := ESC :: str "[31m" |} in
  interpret text = Ok s
  /\ Forall (Forall (fun c => is_text (char c) = true /\ sgr_string (style c)))
       (linesBuffer s)
  /\ sgr_string (currentStyle s).
Proof.
  intros text s.
  assert (interpret text = Ok s) as H by (vm_compute; reflexivity).
  split; [exact H|]. exact (X12_cells_are_printable text s H).
Defined.

(** * Line breaks and cursor moves *)

(** X13: a carriage return before a line feed changes nothing: the two
    together leave the interpreter where the line feed alone leaves it. *)
Theorem X13_crlf_is_lf (rest : jsstring) (s : state) :
  run s (tokenize (CR :: LF :: rest)) = run s (tokenize (LF :: rest)).
Proof.
  rewrite !(tokenize_control CR), !(tokenize_control LF) by done.
  rewrite !run_cons. reflexivity.
Qed.

Lemma match_digits_csi ds f :
  ds <> [] -> Forall (fun c => is_digit c = true) ds -> is_digit f = false ->
  match_digits (ESC :: "["%char :: ds ++ [f]) = Some ds.
Proof.
  intros Hne Hd Hf. unfold match_digits. cbn [drop_while].
  change (negb (is_digit ESC)) with true. change (negb (is_digit "[")) with true.
  cbn iota. destruct ds as [|d ds]; [done|].
  pose proof (Forall_inv Hd) as Hd0.
  change ((d :: ds) ++ [f]) with (d :: (ds ++ [f])). cbn [drop_while].
  rewrite Hd0. cbn [negb]. cbn iota.
  change (d :: (ds ++ [f])) with ((d :: ds) ++ [f]).
  rewrite (take_while_app is_digit _ [f] Hd), (take_while_stop is_digit f [] Hf).
  by rewrite app_nil_r.
Qed.

Lemma digit_is_param c : is_digit c = true -> is_param c = true.
Proof. unfold is_param. by intros ->. Qed.

(** Evaluates the comparisons of two given characters. *)
Ltac eval_eqb :=
  repeat match goal with
  | |- context [Ascii.eqb ?a ?b] =>
      let v := eval vm_compute in (Ascii.eqb a b) in
      change (Ascii.eqb a b) with v
  end.

(** X14: moving the cursor forward by a number of columns and back by the
    same number leaves the interpreter where it was, as long as the column
    reached lies below 2^53, where the arithmetic of doubles is exact. *)
Theorem X14_forward_then_back (ds rest : jsstring) (s : state) (x : Z) :
  cursorX s = Num x -> 0 <= x -> ds <> [] ->
  Forall (fun c => is_digit c = true) ds ->
  x + decimal ds < max_safe ->
  run s (tokenize ((ESC :: "["%char :: ds ++ ["C"%char])
                   ++ (ESC :: "["%char :: ds ++ ["D"%char]) ++ rest))
  = run s (tokenize rest).
Proof.
  intros Ex Hx Hne Hd Hs.
  pose proof (decimal_nonneg ds Hd) as Hn.
  assert (Forall (fun c => is_param c = true) ds) as Hp
    by (eapply Forall_impl; [exact Hd|]; apply digit_is_param).
  assert (forall f r,
    (ESC :: "["%char :: ds ++ [f]) ++ r = ESC :: "["%char :: ds ++ f :: r) as Ea
    by (intros f r; cbn [app]; by rewrite <- app_assoc).
  assert (parseInt ds = Num (decimal ds)) as Ep.
  { rewrite parseInt_digits by done. apply to_number_exact.
    unfold max_safe in *. lia. }
  assert (forall s0, step s0 (ansiCode (ESC :: "["%char :: ds ++ ["C"%char]))
                     = Ok (set_cursorX s0 (add (cursorX s0) (Num (decimal ds)))))
    as HC.
  { intros s0. cbn [step]. unfold step_ansi, param_or.
    rewrite !endsWith_final, match_digits_csi, Ep by done. by eval_eqb. }
  assert (forall s0, step s0 (ansiCode (ESC :: "["%char :: ds ++ ["D"%char]))
                     = Ok (set_cursorX s0
                             (Math_max (Num 0)
                                (sub (cursorX s0) (Num (decimal ds))))))
    as HD.
  { intros s0. cbn [step]. unfold step_ansi, param_or.
    rewrite !endsWith_final, match_digits_csi, Ep by done. by eval_eqb. }
  rewrite Ea, (tokenize_csi ds "C" _ Hp eq_refl).
  rewrite Ea, (tokenize_csi ds "D" _ Hp eq_refl).
  rewrite run_cons, HC. cbn [mbind outcome_bind]. rewrite run_cons, HD.
  cbn [mbind outcome_bind set_cursorX linesBuffer cursorX cursorY currentStyle].
  rewrite Ex. cbn [add sub].
  rewrite (to_number_exact (x + decimal ds)) by (unfold max_safe in *; lia).
  cbn [sub]. rewrite to_number_exact by (unfold max_safe in *; lia).
  cbn [Math_max].
  replace (Z.max 0 (x + decimal ds - decimal ds)) with x by lia.
  rewrite <- Ex. by destruct s.
Qed.

Lemma X14_forward_then_back_witness :
  cursorX initial = Num 0 /\ 0 <= 0 /\ str "12" <> []
  /\ Forall (fun c => is_digit c = true) (str "12")
  /\ 0 + decimal (str "12") < max_safe
  /\ run initial (tokenize ((ESC :: "["%char :: str "12" ++ ["C"%char])
                            ++ (ESC :: "["%char :: str "12" ++ ["D"%char])
                            ++ str "x"))
     = run initial (tokenize (str "x")).
Proof.
  assert (Forall (fun c => is_digit c = true) (str "12")) as H
    by (repeat constructor; done).
  split; [done|]. split; [done|]. split; [done|]. split; [exact H|].
  split; [by vm_compute|].
  exact (X14_forward_then_back (str "12") (str "x") initial 0 eq_refl
           ltac:(done) ltac:(done) H ltac:(by vm_compute)).
Defined.

(** * Plain text *)

Lemma line_raw_text_spans l : line_raw (text_spans l) = l.
Proof. destruct l; [done|]. unfold line_raw. simpl. by rewrite app_nil_r. Qed.

Lemma cells_text_spans l :
  flat_map span_cells (text_spans l) = map (mk_cell []) l.
Proof. destruct l; [done|]. unfold text_spans. cbn [flat_map]. apply app_nil_r. Qed.

Lemma text_spans_good l :
  Forall (fun c => is_text c = true) l ->
  Forall span_good (text_spans l) /\ adjacent_differ (text_spans l).
Proof.
  intros H. destruct l as [|c l].
  - split; [constructor|apply adjacent_differ_nil].
  - split.
    + constructor; [|constructor]. split; [done|]. split; [done|constructor].
    + intros i a b _ Hb. by destruct i.
Qed.

Lemma plain_grid lines :
  lines <> [] -> Forall (Forall (fun c => is_text c = true)) lines ->
  fits lines ->
  exists s, interpret (join [LF] lines) = Ok s
            /\ linesBuffer s = map (map (mk_cell [])) lines.
Proof.
  intros Hne Ht [Hn Hw].
  destruct (run_lines (map text_spans lines) (map (map (mk_cell [])) lines) [])
    as (s & Hs & Hlb).
  - clear Hne Hn Hw. induction Ht as [|l lines Hl _ IH]; [constructor|].
    cbn [map]. constructor; [|exact IH].
    destruct (text_spans_good l Hl) as [Hg Ha].
    split; [done|]. split; [done|]. apply cells_text_spans.
  - by destruct lines.
  - rewrite Forall_map. eapply Forall_impl; [exact Hw|].
    intros l Hl. by rewrite length_map.
  - by rewrite length_map.
  - exists s. split; [|done]. unfold interpret.
    rewrite map_map in Hs.
    by rewrite (map_ext _ id line_raw_text_spans), map_id in Hs.
Qed.

Lemma fits_small lines :
  (length lines <= 1000)%nat ->
  Forall (fun l : jsstring => (length l <= 1000)%nat) lines -> fits lines.
Proof.
  intros Hn Hw. split; [unfold max_length; lia|].
  eapply Forall_impl; [exact Hw|]. intros l Hl. simpl in *.
  unfold max_length. lia.
Qed.

(** X15: a text of lines of plain characters (none of them ESC, carriage
    return, line feed or backspace), with no more lines and no longer
    lines than an array has room for, is interpreted into one row for each
    line, holding the characters of the line, each in the empty style. *)
Theorem X15_plain_text_grid (lines : list jsstring) :
  lines <> [] -> Forall (Forall (fun c => is_text c = true)) lines ->
  fits lines ->
  exists s, interpret (join [LF] lines) = Ok s
            /\ linesBuffer s = map (map (mk_cell [])) lines.
Proof. apply plain_grid. Qed.

Lemma X15_plain_text_grid_witness :
  [str "ab"; []; str "c"] <> []
  /\ Forall (Forall (fun c => is_text c = true)) [str "ab"; []; str "c"]
  /\ fits [str "ab"; []; str "c"]
  /\ exists s, interpret (join [LF] [str "ab"; []; str "c"]) = Ok s
               /\ linesBuffer s = map (map (mk_cell [])) [str "ab"; []; str "c"].
Proof.
  assert (Forall (Forall (fun c => is_text c = true)) [str "ab"; []; str "c"])
    as H by (repeat constructor; done).
  assert (fits [str "ab"; []; str "c"]) as Hf
    by (apply fits_small; [simpl; lia|repeat constructor; simpl; lia]).
  split; [done|]. split; [exact H|]. split; [exact Hf|].
  exact (X15_plain_text_grid [str "ab"; []; str "c"] ltac:(done) H Hf).
Defined.

Section PlainRendering.
Context {AnsiUp : Type} (new_AnsiUp : AnsiUp).
Context (ansi_to_html : AnsiUp -> jsstring -> jsstring * AnsiUp).

Lemma foldl_addCell_plain l : forall st,
  currentSpanAnsi st = [] ->
  foldl (addCell ansi_to_html) st (map (mk_cell []) l)
  = {| ansiUp := ansiUp st; lineHtml := lineHtml st; currentSpanAnsi := [];
       currentSpanText := currentSpanText st ++ l |}.
Proof.
  induction l as [|c l IH]; intros st Hst.
  - simpl. rewrite app_nil_r. destruct st; simpl in *. by subst.
  - cbn [map foldl]. rewrite IH.
    + unfold addCell. cbn [style mk_cell char]. rewrite Hst.
      change (str_eqb [] []) with true. cbn iota.
      cbn [ansiUp lineHtml currentSpanAnsi currentSpanText].
      by rewrite <- app_assoc.
    + unfold addCell. cbn [style mk_cell]. rewrite Hst.
      by change (str_eqb [] []) with true.
Qed.

Lemma renderLine_plain up l :
  renderLine ansi_to_html up (map (mk_cell []) l) = (text_spans l, up).
Proof.
  unfold renderLine. rewrite foldl_addCell_plain by done.
  cbn [ansiUp lineHtml currentSpanAnsi currentSpanText app].
  by destruct l.
Qed.

Lemma renderLines_plain lines : forall up,
  renderLines ansi_to_html up (map (map (mk_cell [])) lines)
  = map text_spans lines.
Proof.
  induction lines as [|l lines IH]; intros up; [done|].
  cbn [map renderLines]. by rewrite renderLine_plain, IH.
Qed.

Lemma lineMarkup_text_spans l : lineMarkup (text_spans l) = plain_markup l.
Proof.
  destruct l as [|c l]; [reflexivity|].
  unfold lineMarkup, plain_markup, text_spans. cbn [map concat].
  rewrite app_nil_r. reflexivity.
Qed.

(** X16: plain text needs no styling: each line of a text of plain
    characters is rendered as one [div] of class line holding one span
    without attributes around the escaped text of the line, or the [br]
    placeholder when the line is empty, whatever the [ansi_up] package
    would return.  The lines are no more and no longer than an array has
    room for. *)
Theorem X16_plain_text_markup
    (this : TermViewProvider) (document : TextDocument) (lines : list jsstring) :
  lines <> [] -> Forall (Forall (fun c => is_text c = true)) lines ->
  fits lines ->
  getText document = join [LF] lines ->
  getAnsiHtml new_AnsiUp ansi_to_html this document
  = Ok (concat (map plain_markup lines)).
Proof.
  intros Hne Ht Hf Hd. unfold getAnsiHtml, render. rewrite Hd.
  destruct (plain_grid lines Hne Ht Hf) as (s & Hs & Hlb).
  rewrite Hs. cbn [mbind outcome_bind].
  rewrite Hlb, renderLines_plain, map_map.
  by rewrite (map_ext _ _ lineMarkup_text_spans).
Qed.

End PlainRendering.

Lemma X16_plain_text_markup_witness :
  [str "a<b"; []] <> []
  /\ Forall (Forall (fun c => is_text c = true)) [str "a<b"; []]
  /\ fits [str "a<b"; []]
  /\ getAnsiHtml tt (fun up s => (s, up)) {| isUpdatingFromWebview := false |}
       {| getText := str "a<b" ++ [LF]; uri := [] |}
     = Ok (concat (map plain_markup [str "a<b"; []])).
Proof.
  assert (Forall (Forall (fun c => is_text c = true)) [str "a<b"; []]) as H
    by (repeat constructor; done).
  assert (fits [str "a<b"; []]) as Hf
    by (apply fits_small; [simpl; lia|repeat constructor; simpl; lia]).
  split; [done|]. split; [exact H|]. split; [exact Hf|].
  apply (X16_plain_text_markup tt (fun up s => (s, up)) _ _ [str "a<b"; []]);
    [done|exact H|exact Hf|reflexivity].
Defined.

(** * Further properties of the renderer *)

Section RenderedSpans.
Context {AnsiUp : Type} (new_AnsiUp : AnsiUp).
Context (ansi_to_html : AnsiUp -> jsstring -> jsstring * AnsiUp).

(** X17: whenever the interpreter gets through an input, the renderer
    gives the spans of every row, and the spans of a line spell its row:
    read in order, the characters of the spans, each in the style of its
    span, are the cells of the row, and no span is empty. *)
Theorem X17_spans_spell_rows (text : jsstring) (s : state) :
  interpret text = Ok s ->
  exists lines,
    render new_AnsiUp ansi_to_html text = Ok lines
    /\ Forall2 (fun spans row =>
                  flat_map span_cells spans = row
                  /\ Forall (fun sp => spanText sp <> []) spans)
         lines (linesBuffer s).
Proof.
  intros Hs. exists (renderLines ansi_to_html new_AnsiUp (linesBuffer s)).
  split; [by unfold render; rewrite Hs|].
  eapply Forall2_impl; [apply renderLines_spans|].
  by intros spans row (? & ? & _).
Qed.

Lemma flushSpan_attr (P : jsstring -> Prop) (st : lineState AnsiUp) :
  P [] -> (forall snippet v, styleMatch snippet = Some v -> P v) ->
  Forall (fun sp => P (styleAttr sp)) (lineHtml st) ->
  Forall (fun sp => P (styleAttr sp)) (lineHtml (flushSpan ansi_to_html st)).
Proof.
  intros Hnil Hm H. unfold flushSpan.
  destruct (currentSpanText st) as [|c txt]; [done|].
  destruct (currentSpanAnsi st) as [|a0 a].
  - cbn [lineHtml]. apply Forall_app. split; [done|]. by repeat constructor.
  - destruct (ansi_to_html _ _) as [snippet up]. cbn [lineHtml].
    apply Forall_app. split; [done|]. repeat constructor. cbn [styleAttr].
    destruct (styleMatch snippet) eqn:E; [by eapply Hm|done].
Qed.

Lemma renderLine_attr (P : jsstring -> Prop) up line :
  P [] -> (forall snippet v, styleMatch snippet = Some v -> P v) ->
  Forall (fun sp => P (styleAttr sp)) (fst (renderLine ansi_to_html up line)).
Proof.
  intros Hnil Hm. unfold renderLine. cbn [fst].
  apply flushSpan_attr; [done..|].
  set (st0 := {| ansiUp := up; lineHtml := []; currentSpanAnsi := [];
                 currentSpanText := [] |}).
  assert (Forall (fun sp => P (styleAttr sp)) (lineHtml st0)) as H0
    by constructor.
  generalize dependent st0. induction line as [|c line IH]; intros st0 H0.
  - done.
  - cbn [foldl]. apply IH. unfold addCell.
    destruct (str_eqb (style c) (currentSpanAnsi st0)); cbn [lineHtml]; [done|].
    by apply flushSpan_attr.
Qed.

Lemma renderLines_attr (P : jsstring -> Prop) lb : forall up,
  P [] -> (forall snippet v, styleMatch snippet = Some v -> P v) ->
  Forall (Forall (fun sp => P (styleAttr sp))) (renderLines ansi_to_html up lb).
Proof.
  induction lb as [|line lb IH]; intros up Hnil Hm; cbn [renderLines];
    [constructor|].
  pose proof (renderLine_attr P up line Hnil Hm) as H.
  destruct (renderLine ansi_to_html up line) as [spans up'].
  constructor; [exact H|by apply IH].
Qed.

End RenderedSpans.

Lemma X17_spans_spell_rows_witness :
  let text := str "a" ++ ESC :: str "[1mbc" in
  let s := {| linesBuffer := [[mk_cell [] "a"; mk_cell (ESC :: str "[1m") "b";
                               mk_cell (ESC :: str "[1m") "c"]];
              cursorX := Num 3; cursorY := Num 0;
              currentStyle := ESC :: str "[1m" |} in
  interpret text = Ok s
  /\ exists lines,
       render tt (fun up snippet => (snippet, up)) text = Ok lines
       /\ Forall2 (fun spans row =>
                     flat_map span_cells spans = row
                     /\ Forall (fun sp => spanText sp <> []) spans)
            lines (linesBuffer s).
Proof.
  intros text s.
  assert (interpret text = Ok s) as H by (vm_compute; reflexivity).
  split; [exact H|].
  exact (X17_spans_spell_rows tt (fun up snippet => (snippet, up)) text s H).
Defined.

Lemma strip_prefix_Some p : forall s r, strip_prefix p s = Some r -> s = p ++ r.
Proof.
  induction p as [|c p IH]; intros s r; simpl; [by intros [= ->]|].
  destruct s as [|d s]; [done|].
  destruct (Ascii.eqb_spec c d) as [->|]; [|done].
  intros H. by rewrite (IH _ _ H).
Qed.

Lemma styleMatch_sound (snippet v : jsstring) :
  styleMatch snippet = Some v ->
  v <> [] /\ Forall (fun c => c <> QUOTE) v
  /\ exists pre post,
       snippet = pre ++ (str "style=" ++ [QUOTE]) ++ v ++ QUOTE :: post.
Proof.
  induction snippet as [|c s IH]; [done|]. cbn [styleMatch].
  assert (styleMatch s = Some v ->
          v <> [] /\ Forall (fun c => c <> QUOTE) v
          /\ exists pre post,
               c :: s = pre ++ (str "style=" ++ [QUOTE]) ++ v ++ QUOTE :: post)
    as Hrec.
  { intros H. destruct (IH H) as (? & ? & pre & post & ->).
    split; [done|]. split; [done|]. by exists (c :: pre), post. }
  destruct (strip_prefix _ (c :: s)) as [r|] eqn:Ep; [|done].
  pose proof (take_drop_while not_quote r) as Hr.
  pose proof (take_while_Forall not_quote r) as Hv.
  destruct (take_while not_quote r) as [|v0 v'] eqn:Et; [done|].
  destruct (drop_while not_quote r) as [|q post] eqn:Ed; [done|].
  intros [= <-]. split; [done|]. split.
  - eapply Forall_impl; [exact Hv|]. intros x Hx ->. done.
  - apply drop_while_head in Ed. unfold not_quote in Ed.
    apply negb_false_iff, Ascii.eqb_eq in Ed as ->.
    exists [], post. apply strip_prefix_Some in Ep. by rewrite Ep, <- Hr.
Qed.

(** X18: when a style is found in a snippet it is not empty, holds no
    double quote, and stands in the snippet between style= with an opening
    double quote and a closing double quote. *)
Theorem X18_styleMatch_sound (snippet v : jsstring) :
  styleMatch snippet = Some v ->
  v <> [] /\ Forall (fun c => c <> QUOTE) v
  /\ exists pre post,
       snippet = pre ++ (str "style=" ++ [QUOTE]) ++ v ++ QUOTE :: post.
Proof. apply styleMatch_sound. Qed.

Lemma X18_styleMatch_sound_witness :
  styleMatch (str "<span style=" ++ [QUOTE] ++ str "color:red" ++ [QUOTE]
              ++ str ">X</span>") = Some (str "color:red")
  /\ str "color:red" <> [] /\ Forall (fun c => c <> QUOTE) (str "color:red").
Proof.
  split; [reflexivity|].
  destruct (X18_styleMatch_sound
              (str "<span style=" ++ [QUOTE] ++ str "color:red" ++ [QUOTE]
               ++ str ">X</span>") (str "color:red") eq_refl) as (H1 & H2 & _).
  by split.
Defined.

Lemma decodeRefs_other c r :
  c <> "&"%char -> decodeRefs (c :: r) = c :: decodeRefs r.
Proof.
  intros Hc.
  assert (forall l, str_eqb (c :: l) (str "&lt;") = false
                    /\ str_eqb (c :: l) (str "&gt;") = false
                    /\ str_eqb (c :: l) (str "&amp;") = false) as Hno.
  { intros l. repeat split; apply bool_decide_eq_false; intros [= E]; done. }
  destruct r as [|c1 [|c2 [|c3 r]]]; try done. cbn [decodeRefs].
  destruct (Hno [c1; c2; c3]) as (-> & -> & _).
  destruct r as [|c4 r]; [done|]. by destruct (Hno [c1; c2; c3; c4]) as (_ & _ & ->).
Qed.

Lemma decode_escapeHtml t : decodeRefs (escapeHtml t) = t.
Proof.
  induction t as [|c t IH]; [done|].
  rewrite escapeHtml_cons, escapeHtml_char.
  destruct (Ascii.eqb_spec c "&") as [->|H1].
  { change (decodeRefs (str "&amp;" ++ escapeHtml t))
      with ("&"%char :: decodeRefs (escapeHtml t)). by rewrite IH. }
  destruct (Ascii.eqb_spec c "<") as [->|H2].
  { change (decodeRefs (str "&lt;" ++ escapeHtml t))
      with ("<"%char :: decodeRefs (escapeHtml t)). by rewrite IH. }
  destruct (Ascii.eqb_spec c ">") as [->|H3].
  { change (decodeRefs (str "&gt;" ++ escapeHtml t))
      with (">"%char :: decodeRefs (escapeHtml t)). by rewrite IH. }
  cbn [app]. rewrite decodeRefs_other by done. by rewrite IH.
Qed.

Lemma escapeHtml_no_angle s :
  Forall (fun c => c <> "<"%char /\ c <> ">"%char) (escapeHtml s).
Proof.
  induction s as [|c s IH]; [constructor|].
  rewrite escapeHtml_cons, escapeHtml_char. apply Forall_app. split; [|done].
  destruct (Ascii.eqb_spec c "&"); [by repeat constructor|].
  destruct (Ascii.eqb_spec c "<"); [by repeat constructor|].
  destruct (Ascii.eqb_spec c ">"); by repeat constructor.
Qed.

(** X19: the escaped text of a span holds no angle bracket, whatever the
    text, and two different texts are escaped differently. *)
Theorem X19_escapeHtml_safe (s1 s2 : jsstring) :
  Forall (fun c => c <> "<"%char /\ c <> ">"%char) (escapeHtml s1)
  /\ (escapeHtml s1 = escapeHtml s2 -> s1 = s2).
Proof.
  split; [apply escapeHtml_no_angle|].
  intros E. by rewrite <- (decode_escapeHtml s1), E, decode_escapeHtml.
Qed.

Lemma X19_escapeHtml_safe_witness :
  escapeHtml (str "a<b&c") = escapeHtml (str "a<" ++ str "b&c")
  /\ str "a<b&c" = str "a<" ++ str "b&c".
Proof.
  split; [reflexivity|].
  apply (proj2 (X19_escapeHtml_safe (str "a<b&c") (str "a<" ++ str "b&c"))).
  reflexivity.
Defined.

Lemma escapeEsc_safe a :
  sgr_string a ->
  Forall (fun c => c <> QUOTE /\ c <> "&"%char /\ c <> "<"%char /\ c <> ">"%char)
    (escapeEsc a).
Proof.
  intros Hs. assert (Forall (fun c => is_param c = true \/ c = ESC
                                      \/ c = "["%char \/ c = "m"%char) a) as H.
  { induction Hs as [|c st (ps & -> & Hps & _) _ IH]; [constructor|].
    apply Forall_app. split; [|done].
    constructor; [tauto|]. constructor; [tauto|].
    apply Forall_app. split; [|constructor; [tauto|constructor]].
    eapply Forall_impl; [exact Hps|]. tauto. }
  clear Hs. induction H as [|c a Hc _ IH]; [constructor|].
  rewrite escapeEsc_cons. apply Forall_app. split; [|done].
  destruct (Ascii.eqb c ESC); [by repeat constructor|].
  repeat constructor; intros ->; destruct Hc as [Hc|[Hc|[Hc|Hc]]]; done.
Qed.

Lemma Forall2_combine {A B} (R : A -> B -> Prop) (P Q : A -> Prop)
    (S : B -> Prop) l k :
  Forall2 R l k -> Forall P l -> Forall S k ->
  (forall x y, R x y -> P x -> S y -> Q x) -> Forall Q l.
Proof.
  intros H. induction H as [|x y l k HR _ IH]; intros HP HS HQ; [constructor|].
  apply Forall_cons in HP as [? ?]. apply Forall_cons in HS as [? ?].
  constructor; eauto.
Qed.

Section Attributes.
Context {AnsiUp : Type} (new_AnsiUp : AnsiUp).
Context (ansi_to_html : AnsiUp -> jsstring -> jsstring * AnsiUp).

Lemma rendered_attributes (text : jsstring) (lines : list (list span)) :
  render new_AnsiUp ansi_to_html text = Ok lines ->
  Forall (Forall (fun sp =>
       Forall (fun c => c <> QUOTE) (styleAttr sp)
       /\ span_good sp)) lines.
Proof.
  unfold render. destruct (interpret text) as [s| | | |] eqn:Hs; try done.
  intros [= <-].
  destruct (interpret_grid_ok text s Hs) as [Hgrid _].
  pose proof (renderLines_attr ansi_to_html (Forall (fun c => c <> QUOTE))
                (linesBuffer s) new_AnsiUp ltac:(constructor)
                (fun snip v H => proj1 (proj2 (styleMatch_sound snip v H))))
    as Hattr.
  pose proof (renderLines_spans ansi_to_html (linesBuffer s) new_AnsiUp) as Hsp.
  apply (Forall2_combine _ _ _ _ _ _ Hsp Hattr Hgrid).
  intros spans row H Ha [Hrow _].
  pose proof (spans_of_good spans row H Hrow) as Hg.
  by apply Forall_and.
Qed.

(** X20: whatever the input and whatever ansi_up returns, no attribute
    value written into the markup holds a double quote: neither the style
    taken from the snippet nor the escaped tag of data-ansi, which holds no
    ampersand and no angle bracket either. *)
Theorem X20_attribute_values_closed
    (text : jsstring) (lines : list (list span)) :
  render new_AnsiUp ansi_to_html text = Ok lines ->
  Forall (Forall (fun sp =>
       Forall (fun c => c <> QUOTE) (styleAttr sp)
       /\ Forall (fun c => c <> QUOTE /\ c <> "&"%char
                           /\ c <> "<"%char /\ c <> ">"%char)
            (escapeEsc (spanAnsi sp)))) lines.
Proof.
  intros H%rendered_attributes.
  eapply Forall_impl; [exact H|]. intros spans Hs.
  eapply Forall_impl; [exact Hs|]. intros sp (Ha & _ & _ & Hsty).
  split; [done|]. by apply escapeEsc_safe.
Qed.

End Attributes.

Lemma X20_attribute_values_closed_witness :
  let text := ESC :: str "[31mA" in
  let up (_ : unit) (snippet : jsstring) :=
    (str "<span style=" ++ [QUOTE] ++ str "color:red" ++ [QUOTE]
     ++ str ">X</span>", tt) in
  let lines := [[{| styleAttr := str "color:red";
                    spanAnsi := ESC :: str "[31m"; spanText := str "A" |}]] in
  render tt up text = Ok lines
  /\ Forall (Forall (fun sp =>
        Forall (fun c => c <> QUOTE) (styleAttr sp)
        /\ Forall (fun c => c <> QUOTE /\ c <> "&"%char
                            /\ c <> "<"%char /\ c <> ">"%char)
             (escapeEsc (spanAnsi sp)))) lines.
Proof.
  intros text up lines.
  assert (render tt up text = Ok lines) as H by (vm_compute; reflexivity).
  split; [exact H|].
  exact (X20_attribute_values_closed tt up text lines H).
Defined.


(** X21: every style that the interpreter gives a cell survives the
    escaping of the data-ansi attribute: turning each ESC into the four
    characters and back returns the style. *)
Theorem X21_tags_survive_escaping (text : jsstring) (s : state) :
  interpret text = Ok s ->
  Forall (Forall (fun c => unescapeEsc (escapeEsc (style c)) = style c))
    (linesBuffer s).
Proof.
  intros Hs. destruct (interpret_grid_ok text s Hs) as [Hgrid _].
  eapply Forall_impl; [exact Hgrid|]. intros row [Hrow _].
  eapply Forall_impl; [exact Hrow|]. intros c [_ Hc].
  by apply unescape_escape, sgr_string_no_backslash.
Qed.

Lemma X21_tags_survive_escaping_witness :
  let text := ESC :: str "[1;31mA" ++ ESC :: str "[4mB" in
  let s := {| linesBuffer :=
                [[mk_cell (ESC :: str "[1;31m") "A";
                  mk_cell (ESC :: str "[1;31m" ++ ESC :: str "[4m") "B"]];
              cursorX := Num 2; cursorY := Num 0;
              currentStyle := ESC :: str "[1;31m" ++ ESC :: str "[4m" |} in
  interpret text = Ok s
  /\ Forall (Forall (fun c => unescapeEsc (escapeEsc (style c)) = style c))
       (linesBuffer s).
Proof.
  intros text s.
  assert (interpret text = Ok s) as H by (vm_compute; reflexivity).
  split; [exact H|]. exact (X21_tags_survive_escaping text s H).
Defined.

(** * Reading the markup *)

Lemma tokenizer_app s1 : forall st s2,
  tokenizer st (s1 ++ s2)
  = '(ts, st1) ← tokenizer st s1;
    '(ts', st2) ← tokenizer st1 s2;
    Some (ts ++ ts', st2).
Proof.
  induction s1 as [|c s1 IH]; intros st s2.
  - cbn [app tokenizer mbind option_bind]. by destruct (tokenizer st s2) as [[ts st2]|].
  - cbn [app tokenizer]. destruct (tokenizer_step st c) as [[ts st1]|]; [|done].
    cbn [mbind option_bind]. rewrite IH.
    destruct (tokenizer st1 s1) as [[ts1 st2]|]; [|done]. cbn [mbind option_bind].
    destruct (tokenizer st2 s2) as [[ts2 st3]|]; [|done]. cbn [mbind option_bind].
    by rewrite app_assoc.
Qed.

Lemma tokenizer_seq st s1 s2 ts1 st1 ts2 st2 :
  tokenizer st s1 = Some (ts1, st1) -> tokenizer st1 s2 = Some (ts2, st2) ->
  tokenizer st (s1 ++ s2) = Some (ts1 ++ ts2, st2).
Proof. intros H1 H2. rewrite tokenizer_app, H1. cbn [mbind option_bind]. by rewrite H2. Qed.

Lemma tokenizer_value name attrs aname v :
  Forall (fun c => c <> QUOTE) v -> forall v0,
  tokenizer (AttributeValue name attrs aname v0) v
  = Some ([], AttributeValue name attrs aname (v0 ++ v)).
Proof.
  induction 1 as [|c v Hc _ IH]; intros v0.
  - by rewrite app_nil_r.
  - cbn [tokenizer tokenizer_step].
    destruct (Ascii.eqb_spec c QUOTE) as [->|_]; [done|].
    cbn [mbind option_bind]. rewrite IH. cbn [mbind option_bind app].
    by rewrite <- app_assoc.
Qed.

Lemma strip_nul_cons c t :
  strip_nul (c :: t) = if Ascii.eqb c NUL then strip_nul t else c :: strip_nul t.
Proof. unfold strip_nul. cbn [List.filter]. by destruct (Ascii.eqb c NUL). Qed.

Lemma strip_nul_id t : Forall (fun c => c <> NUL) t -> strip_nul t = t.
Proof.
  induction 1 as [|c t Hc _ IH]; [done|]. rewrite strip_nul_cons, IH.
  by destruct (Ascii.eqb_spec c NUL).
Qed.

Lemma tokenizer_text t :
  Forall (fun c => is_text c = true) t ->
  tokenizer Data (escapeHtml t) = Some (map Character (strip_nul t), Data).
Proof.
  induction 1 as [|c t Hc _ IH]; [done|].
  rewrite escapeHtml_cons, escapeHtml_char, strip_nul_cons.
  destruct (Ascii.eqb_spec c "&") as [->|H1].
  { by rewrite (tokenizer_seq Data (str "&amp;") _ [Character "&"] Data _ _ eq_refl IH). }
  destruct (Ascii.eqb_spec c "<") as [->|H2].
  { by rewrite (tokenizer_seq Data (str "&lt;") _ [Character "<"] Data _ _ eq_refl IH). }
  destruct (Ascii.eqb_spec c ">") as [->|H3].
  { by rewrite (tokenizer_seq Data (str "&gt;") _ [Character ">"] Data _ _ eq_refl IH). }
  assert (tokenizer Data [c]
          = Some (if Ascii.eqb c NUL then [] else [Character c], Data)) as Hd.
  { cbn [tokenizer tokenizer_step]. unfold data_char.
    destruct (Ascii.eqb_spec c "<"); [done|]. destruct (Ascii.eqb_spec c "&"); [done|].
    destruct (Ascii.eqb_spec c NUL); [done|].
    destruct (Ascii.eqb_spec c CR) as [->|_]; [done|]. done. }
  rewrite (tokenizer_seq _ _ _ _ _ _ _ Hd IH).
  by destruct (Ascii.eqb c NUL).
Qed.

Ltac tokens_of_parts :=
  repeat first
    [ eapply tokenizer_seq;
      [ first [ reflexivity
              | by apply tokenizer_value
              | by apply tokenizer_text ] | ]
    | reflexivity ].

Lemma tokenizer_span sp :
  Forall (fun c => c <> QUOTE) (styleAttr sp) ->
  Forall (fun c => c <> QUOTE) (escapeEsc (spanAnsi sp)) ->
  Forall (fun c => is_text c = true) (spanText sp) ->
  tokenizer Data (spanHtml sp) = Some (span_tokens sp, Data).
Proof.
  intros Hst Han Htx.
  enough (exists ts, tokenizer Data (spanHtml sp) = Some (ts, Data)
                     /\ ts = span_tokens sp) as (ts & -> & ->) by done.
  unfold spanHtml, span_tokens, span_attributes.
  destruct (styleAttr sp) as [|s0 sa]; destruct (spanAnsi sp) as [|a0 a];
    rewrite <- ?app_assoc; eexists; (split; [tokens_of_parts|]); try reflexivity.
Qed.

Lemma tokenizer_spans spans :
  Forall span_readable spans ->
  tokenizer Data (concat (map spanHtml spans))
  = Some (concat (map span_tokens spans), Data).
Proof.
  induction 1 as [|sp spans (H1 & H2 & _ & H3) _ IH]; [done|].
  cbn [map concat]. apply (tokenizer_seq _ _ _ _ Data); [by apply tokenizer_span|done].
Qed.

Lemma spanHtml_cons sp : exists r, spanHtml sp = "<"%char :: r.
Proof. by eexists. Qed.

Lemma tokenizer_line spans :
  Forall span_readable spans ->
  tokenizer Data (lineMarkup spans) = Some (line_tokens spans, Data).
Proof.
  intros H. unfold lineMarkup, line_tokens.
  pose proof (tokenizer_spans spans H) as Hs.
  destruct spans as [|sp spans]; [reflexivity|].
  destruct (concat (map spanHtml (sp :: spans))) as [|c r] eqn:E.
  { cbn [map concat] in E. destruct (spanHtml_cons sp) as [r Hr].
    by rewrite Hr in E. }
  change (tokenizer Data
            ((str "<div class=" ++ [QUOTE] ++ str "line" ++ [QUOTE] ++ str ">")
             ++ (c :: r) ++ str "</div>")
          = Some ([StartTag (str "div") [(str "class", str "line")]]
                  ++ concat (map span_tokens (sp :: spans))
                  ++ [EndTag (str "div")], Data)).
  apply (tokenizer_seq _ _ _ _ Data); [reflexivity|].
  by apply (tokenizer_seq _ _ _ _ Data).
Qed.

Lemma tokenizer_lines lines :
  Forall (Forall span_readable) lines ->
  tokenizer Data (concat (map lineMarkup lines))
  = Some (concat (map line_tokens lines), Data).
Proof.
  induction 1 as [|l lines Hl _ IH]; [done|].
  cbn [map concat]. apply (tokenizer_seq _ _ _ _ Data); [by apply tokenizer_line|done].
Qed.

Lemma html_tokens_lines with_page lines :
  Forall (Forall span_readable) lines ->
  html_tokens (template_space with_page 5 ++ concat (map lineMarkup lines)
               ++ template_space with_page 4)
  = Some (map Character (template_space with_page 5)
          ++ concat (map line_tokens lines)
          ++ map Character (template_space with_page 4)).
Proof.
  intros H. unfold html_tokens.
  rewrite (tokenizer_seq Data _ _ (map Character (template_space with_page 5)) Data
             (concat (map line_tokens lines)
              ++ map Character (template_space with_page 4)) Data).
  - cbn [mbind option_bind end_of_input]. by rewrite !app_nil_r.
  - by destruct with_page.
  - apply (tokenizer_seq _ _ _ _ Data); [by apply tokenizer_lines|].
    by destruct with_page.
Qed.

Lemma tree_app ts1 : forall b ts2,
  tree b (ts1 ++ ts2) = b' ← tree b ts1; tree b' ts2.
Proof.
  induction ts1 as [|t ts1 IH]; intros b ts2; [done|].
  cbn [app tree]. destruct (tree_step b t) as [b'|]; [|done].
  cbn [mbind option_bind]. apply IH.
Qed.

Lemma tree_seq b ts1 ts2 b1 r :
  tree b ts1 = Some b1 -> tree b1 ts2 = r -> tree b (ts1 ++ ts2) = r.
Proof. intros H1 H2. by rewrite tree_app, H1. Qed.

(** Characters after a text node join it. *)
Lemma tree_more_text t : forall kids u open,
  tree {| current_children := kids ++ [TextNode u]; open_elements := open |}
    (map Character t)
  = Some {| current_children := kids ++ [TextNode (u ++ t)];
            open_elements := open |}.
Proof.
  induction t as [|c t IH]; intros kids u open.
  - by rewrite app_nil_r.
  - cbn [map tree tree_step mbind option_bind current_children open_elements].
    unfold insert_character. rewrite last_snoc, removelast_last, IH.
    by rewrite <- app_assoc.
Qed.

(** Characters after anything else begin a text node. *)
Lemma tree_text t kids open :
  match last kids with Some (TextNode _) => False | _ => True end ->
  tree {| current_children := kids; open_elements := open |} (map Character t)
  = Some {| current_children := kids ++ text_nodes t; open_elements := open |}.
Proof.
  intros Hl. destruct t as [|c t]; [by rewrite app_nil_r|].
  cbn [map tree tree_step mbind option_bind current_children open_elements].
  unfold insert_character.
  replace (match last kids with
           | Some (TextNode t0) => removelast kids ++ [TextNode (t0 ++ [c])]
           | _ => kids ++ [TextNode [c]]
           end) with (kids ++ [TextNode [c]])
    by (by destruct (last kids) as [[]|]).
  apply tree_more_text.
Qed.

Lemma rendered_text_nodes t : concat (map rendered_text (text_nodes t)) = t.
Proof. destruct t; [done|]. cbn [text_nodes map concat rendered_text]. apply app_nil_r. Qed.

Lemma get_attribute_span sp :
  get_attribute (str "class") (span_attributes sp) = None
  /\ get_attribute (str "data-ansi") (span_attributes sp)
     = match spanAnsi sp with [] => None | a => Some (escapeEsc a) end.
Proof.
  unfold span_attributes.
  by destruct (styleAttr sp) as [|s0 sa]; destruct (spanAnsi sp) as [|a0 a].
Qed.

Lemma tree_span sp b :
  plain_value (escapeEsc (spanAnsi sp)) = true ->
  tree b (span_tokens sp) = Some (append_child b (span_element sp)).
Proof.
  intros Hp. unfold span_tokens.
  change (StartTag (str "span") (span_attributes sp)
          :: map Character (strip_nul (spanText sp)) ++ [EndTag (str "span")])
    with ([StartTag (str "span") (span_attributes sp)]
          ++ map Character (strip_nul (spanText sp)) ++ [EndTag (str "span")]).
  eapply tree_seq; [reflexivity|].
  eapply tree_seq; [by apply (tree_text _ [])|].
  cbn [tree tree_step app mbind option_bind].
  change (str_eqb (str "span") (str "br")) with false. cbn iota.
  change (str_eqb (str "span") (str "span")) with true. cbn iota.
  unfold current_name, open_element. cbn [open_elements current_children].
  change (str_eqb (str "span") (str "span")) with true. cbn iota.
  unfold pop. cbn [open_elements current_children].
  unfold createElement. destruct (get_attribute_span sp) as [-> ->].
  cbn [default]. rewrite rendered_text_nodes.
  replace (plain_value
             (default [] match spanAnsi sp with
                         | [] => None
                         | a => Some (escapeEsc a)
                         end)) with true.
  2:{ destruct (spanAnsi sp); [done|]. by rewrite <- Hp. }
  reflexivity.
Qed.

Lemma tree_spans spans : forall b,
  Forall span_readable spans ->
  tree b (concat (map span_tokens spans))
  = Some {| current_children := current_children b ++ map span_element spans;
            open_elements := open_elements b |}.
Proof.
  induction spans as [|sp spans IH]; intros b H.
  - cbn [map concat tree]. rewrite app_nil_r. by destruct b.
  - apply Forall_cons in H as [(_ & _ & Hp & _) H].
    cbn [map concat]. eapply tree_seq; [by apply tree_span|].
    rewrite IH by done. unfold append_child. cbn [current_children open_elements].
    by rewrite <- app_assoc.
Qed.

Lemma tree_line spans kids :
  Forall span_readable spans ->
  tree {| current_children := kids; open_elements := [] |} (line_tokens spans)
  = Some {| current_children := kids ++ [line_element spans];
            open_elements := [] |}.
Proof.
  intros H. unfold line_tokens.
  destruct spans as [|sp spans]; [reflexivity|].
  change (StartTag (str "div") [(str "class", str "line")]
          :: concat (map span_tokens (sp :: spans)) ++ [EndTag (str "div")])
    with ([StartTag (str "div") [(str "class", str "line")]]
          ++ concat (map span_tokens (sp :: spans)) ++ [EndTag (str "div")]).
  eapply tree_seq; [reflexivity|].
  eapply tree_seq; [by apply tree_spans|].
  reflexivity.
Qed.

Lemma tree_lines lines : forall kids,
  Forall (Forall span_readable) lines ->
  tree {| current_children := kids; open_elements := [] |}
    (concat (map line_tokens lines))
  = Some {| current_children := kids ++ map line_element lines;
            open_elements := [] |}.
Proof.
  induction lines as [|l lines IH]; intros kids H.
  - by rewrite app_nil_r.
  - apply Forall_cons in H as [Hl H]. cbn [map concat].
    eapply tree_seq; [by apply tree_line|]. rewrite IH by done.
    by rewrite <- app_assoc.
Qed.

(** The markup of the renderer is read into one element per line, between
    the text nodes of the white space of the template. *)
Lemma parseFragment_lines with_page lines :
  lines <> [] -> Forall (Forall span_readable) lines ->
  parseFragment (template_space with_page 5 ++ concat (map lineMarkup lines)
                 ++ template_space with_page 4)
  = Some (text_nodes (template_space with_page 5) ++ map line_element lines
          ++ text_nodes (template_space with_page 4)).
Proof.
  intros Hne H. unfold parseFragment. rewrite html_tokens_lines by done.
  cbn [mbind option_bind].
  rewrite (tree_seq _ _ _
             {| current_children := text_nodes (template_space with_page 5);
                open_elements := [] |}
             (Some {| current_children :=
                        text_nodes (template_space with_page 5)
                        ++ map line_element lines
                        ++ text_nodes (template_space with_page 4);
                      open_elements := [] |})); [done| |].
  - by rewrite (tree_text _ []).
  - eapply tree_seq; [by apply tree_lines|].
    rewrite tree_text; [by rewrite app_assoc|].
    destruct (exists_last Hne) as (ls & l & ->).
    rewrite map_app. cbn [map]. by rewrite app_assoc, last_snoc.
Qed.

Lemma contribution_span_element sp :
  sgr_string (spanAnsi sp) -> Forall (fun c => c <> NUL) (spanText sp) ->
  contribution (span_element sp) = span_raw sp.
Proof.
  intros Hs Hn. unfold span_element, span_raw. cbn [contribution].
  change (str_eqb (str "SPAN") (str "SPAN")) with true. cbn iota.
  rewrite (strip_nul_id _ Hn).
  destruct (spanAnsi sp) as [|a0 a] eqn:E; [done|].
  pose proof (unescape_escape (a0 :: a) (sgr_string_no_backslash _ Hs)) as Hu.
  assert (exists e0 e, escapeEsc (a0 :: a) = e0 :: e) as (e0 & e & Ee).
  { rewrite escapeEsc_cons. destruct (Ascii.eqb a0 ESC); by eexists _, _. }
  rewrite Ee in *. by rewrite Hu.
Qed.

Lemma processNode_line_element spans :
  Forall span_clean spans -> processNode (line_element spans) = line_raw spans.
Proof.
  intros Hg. unfold line_element. rewrite processNode_children.
  destruct spans as [|sp spans]; [done|].
  unfold line_raw, line_children. f_equal. rewrite map_map.
  apply map_ext_Forall, (Forall_impl _ _ _ Hg).
  intros sp' ((_ & _ & Hs) & Hn). by apply contribution_span_element.
Qed.

Lemma filter_line_elements (lines : list (list span)) :
  filter (fun n => is_line n = true) (map line_element lines)
  = map line_element lines.
Proof.
  induction lines as [|l lines IH]; [done|].
  cbn [map]. rewrite filter_cons_True by done. by rewrite IH.
Qed.

Lemma filter_text_nodes t :
  filter (fun n => is_line n = true) (text_nodes t) = [].
Proof. by destruct t. Qed.

(** The lines among the children of the content element. *)
Lemma content_lines with_page lines innerText :
  filter (fun n => is_line n = true)
    (children_of (Element (str "DIV") [] None innerText
       (text_nodes (template_space with_page 5) ++ map line_element lines
        ++ text_nodes (template_space with_page 4))))
  = map line_element lines.
Proof.
  cbn [children_of].
  by rewrite !filter_app, !filter_text_nodes, filter_line_elements, app_nil_r.
Qed.

Lemma reconstructAnsi_lines with_page lines innerText :
  lines <> [] -> Forall (Forall span_clean) lines ->
  reconstructAnsi (Element (str "DIV") [] None innerText
     (text_nodes (template_space with_page 5) ++ map line_element lines
      ++ text_nodes (template_space with_page 4)))
  = join [LF] (map line_raw lines).
Proof.
  intros Hne Hg. unfold reconstructAnsi.
  match goal with
  | |- context [querySelectorAll ?c] =>
      assert (exists n ns, querySelectorAll c = n :: ns) as (n & ns & ->)
  end.
  { destruct lines as [|l lines]; [done|]. unfold querySelectorAll.
    destruct with_page; cbn [template_space text_nodes replicate descendants app
                               map flat_map].
    - rewrite filter_cons_False by done.
      rewrite filter_cons_True by done. by eexists _, _.
    - rewrite filter_cons_True by done. by eexists _, _. }
  rewrite content_lines, map_map. f_equal.
  apply map_ext_Forall, (Forall_impl _ _ _ Hg).
  intros spans. apply processNode_line_element.
Qed.

Lemma sgr_string_chars a :
  sgr_string a ->
  Forall (fun c => is_param c = true \/ c = ESC \/ c = "["%char \/ c = "m"%char) a.
Proof.
  induction 1 as [|c st (ps & -> & Hps & _) _ IH]; [constructor|].
  apply Forall_app. split; [|done].
  constructor; [tauto|]. constructor; [tauto|].
  apply Forall_app. split; [|constructor; [tauto|constructor]].
  eapply Forall_impl; [exact Hps|]. tauto.
Qed.

Lemma escapeEsc_plain a : sgr_string a -> plain_value (escapeEsc a) = true.
Proof.
  intros Hs. apply sgr_string_chars in Hs.
  induction Hs as [|c a Hc _ IH]; [done|].
  rewrite escapeEsc_cons. unfold plain_value in *. rewrite forallb_app, IH.
  destruct (Ascii.eqb_spec c ESC) as [->|_]; [done|].
  destruct Hc as [Hc | [-> | [-> | ->]]]; try done.
  cbn [forallb]. rewrite !andb_true_r. apply negb_true_iff.
  destruct (Ascii.eqb_spec c "&") as [->|_]; [done|].
  destruct (Ascii.eqb_spec c NUL) as [->|_]; [done|].
  by destruct (Ascii.eqb_spec c CR) as [->|_].
Qed.

Lemma span_good_readable sp :
  Forall (fun c => c <> QUOTE) (styleAttr sp) -> span_good sp -> span_readable sp.
Proof.
  intros Hq (_ & Ht & Hs). split; [done|]. split; [|split; [|done]].
  - eapply Forall_impl; [by apply escapeEsc_safe|]. by intros c (? & _).
  - by apply escapeEsc_plain.
Qed.

Section RoundTrip.
Context {AnsiUp : Type} (new_AnsiUp : AnsiUp).
Context (ansi_to_html : AnsiUp -> jsstring -> jsstring * AnsiUp).

(** The content element that the webview builds from the markup of a
    text: the elements of its lines, in the white space of the template. *)
Lemma content_of_markup text lines with_page this u :
  render new_AnsiUp ansi_to_html text = Ok lines -> lines <> [] ->
  exists html innerText,
    getAnsiHtml new_AnsiUp ansi_to_html this {| getText := text; uri := u |}
    = Ok html
    /\ html = concat (map lineMarkup lines)
    /\ content_of with_page html
       = Some (Element (str "DIV") [] None innerText
                 (text_nodes (template_space with_page 5)
                  ++ map line_element lines
                  ++ text_nodes (template_space with_page 4))).
Proof.
  intros Hr Hne. unfold getAnsiHtml. cbn [getText]. rewrite Hr.
  cbn [mbind outcome_bind]. eexists _, _. split; [done|]. split; [done|].
  unfold content_of. rewrite parseFragment_lines; [done|done|].
  eapply Forall_impl; [exact (rendered_attributes _ _ _ _ Hr)|].
  intros spans Hs. eapply Forall_impl; [exact Hs|].
  intros sp [Hq Hg]. by apply span_good_readable.
Qed.

(** C3, amended: when the interpreter gets through a text and no cell of
    its buffer holds U+0000, the webview reads the markup of the text into
    a content element, and the text reconstructed from that element, left
    unedited, is interpreted into the same buffer: the same rows of the
    same cells, character and style alike; its markup is the same. *)
Theorem C3_round_trip (text : jsstring) (s : state) (with_page : bool)
    (this : TermViewProvider) (u : jsstring) :
  interpret text = Ok s ->
  Forall (Forall (fun c => char c <> NUL)) (linesBuffer s) ->
  exists html content s',
    getAnsiHtml new_AnsiUp ansi_to_html this {| getText := text; uri := u |}
    = Ok html
    /\ content_of with_page html = Some content
    /\ interpret (reconstructAnsi content) = Ok s'
    /\ linesBuffer s' = linesBuffer s
    /\ getAnsiHtml new_AnsiUp ansi_to_html this
         {| getText := reconstructAnsi content; uri := u |} = Ok html.
Proof.
  intros Hs Hnul.
  pose proof (interpret_ok text) as Hc. rewrite Hs in Hc.
  destruct Hc as (_ & (y & _ & Hy) & Hlen).
  destruct (interpret_grid_ok text s Hs) as [Hgrid _].
  set (lines := renderLines ansi_to_html new_AnsiUp (linesBuffer s)).
  assert (render new_AnsiUp ansi_to_html text = Ok lines) as Hr
    by (by unfold render; rewrite Hs).
  pose proof (renderLines_spans ansi_to_html (linesBuffer s) new_AnsiUp) as Hsp.
  fold lines in Hsp.
  assert (lines <> []) as Hne.
  { intros E. apply Forall2_length in Hsp. rewrite E in Hsp. simpl in Hsp. lia. }
  assert (Forall2 (fun spans row =>
            Forall span_good spans /\ adjacent_differ spans
            /\ flat_map span_cells spans = row) lines (linesBuffer s)) as H2.
  { clearbody lines. clear Hs Hy Hr Hne Hnul Hlen.
    induction Hsp as [|spans row ls rows H _ IH]; [constructor|].
    apply Forall_cons in Hgrid as [[Hrow _] Hgrid].
    constructor; [|by apply IH].
    split; [by apply (spans_of_good spans row)|].
    by destruct H as (Hc & _ & Hadj). }
  assert (Forall (Forall span_clean) lines) as Hclean.
  { clearbody lines. clear Hs Hy Hr Hne Hsp Hgrid Hlen.
    induction H2 as [|spans row ls rows (Hg & _ & Hc) _ IH]; [constructor|].
    apply Forall_cons in Hnul as [Hrow Hnul]. constructor; [|by apply IH].
    subst row. clear IH. induction Hg as [|sp spans Hg _ IH]; [constructor|].
    cbn [flat_map] in Hrow. apply Forall_app in Hrow as [Hsp Hrow].
    constructor; [|by apply IH]. split; [done|].
    unfold span_cells in Hsp. by rewrite Forall_map in Hsp. }
  destruct (content_of_markup text lines with_page this u Hr Hne)
    as (html & innerText & Hhtml & -> & Hcontent).
  destruct (run_lines lines (linesBuffer s) [] H2 Hne) as (s' & Hs' & Hlb).
  { eapply Forall_impl; [exact Hgrid|]. by intros row [_ ?]. }
  { simpl. lia. }
  eexists (concat (map lineMarkup lines)), _, s'.
  split; [done|]. split; [exact Hcontent|].
  rewrite (reconstructAnsi_lines with_page lines innerText Hne Hclean).
  split; [exact Hs'|]. split; [exact Hlb|].
  unfold getAnsiHtml, render. cbn [getText]. unfold interpret.
  change (run initial) with (run (at_row [] [] [])). rewrite Hs'.
  cbn [mbind outcome_bind]. by rewrite Hlb.
Qed.


End RoundTrip.

Lemma C3_round_trip_witness :
  let text := str "A<" ++ ESC :: str "[31mB&" ++ ESC :: str "[0m" ++ LF :: str "C" in
  let s := {| linesBuffer := [[mk_cell [] "A"; mk_cell [] "<";
                               mk_cell (ESC :: str "[31m") "B";
                               mk_cell (ESC :: str "[31m") "&"];
                              [mk_cell [] "C"]];
              cursorX := Num 1; cursorY := Num 1; currentStyle := [] |} in
  let this := {| isUpdatingFromWebview := false |} in
  interpret text = Ok s
  /\ exists html content s',
       getAnsiHtml tt (fun up snippet => (snippet, up)) this
         {| getText := text; uri := [] |} = Ok html
       /\ content_of true html = Some content
       /\ interpret (reconstructAnsi content) = Ok s'
       /\ linesBuffer s' = linesBuffer s
       /\ getAnsiHtml tt (fun up snippet => (snippet, up)) this
            {| getText := reconstructAnsi content; uri := [] |} = Ok html.
Proof.
  intros text s this.
  assert (interpret text = Ok s) as H by (vm_compute; reflexivity).
  split; [exact H|].
  apply (C3_round_trip tt (fun up snippet => (snippet, up)) text s true this [] H).
  repeat constructor; done.
Defined.

(** The text a U+0000 b has a row of three cells; the text reconstructed
    from its markup has a row of two. *)
Lemma C3_nul_is_dropped :
  let text := ["a"%char; NUL; "b"%char] in
  let this := {| isUpdatingFromWebview := false |} in
  exists s html content s',
    interpret text = Ok s
    /\ getAnsiHtml tt (fun up snippet => (snippet, up)) this
         {| getText := text; uri := [] |} = Ok html
    /\ content_of false html = Some content
    /\ interpret (reconstructAnsi content) = Ok s'
    /\ map (map char) (linesBuffer s) = [["a"%char; NUL; "b"%char]]
    /\ map (map char) (linesBuffer s') = [["a"%char; "b"%char]]
    /\ linesBuffer s' <> linesBuffer s.
Proof.
  intros text this. eexists _, _, _, _.
  split; [vm_compute; reflexivity|]. split; [vm_compute; reflexivity|].
  split; [vm_compute; reflexivity|]. split; [vm_compute; reflexivity|].
  split; [reflexivity|]. split; [reflexivity|]. done.
Qed.

(** * Further properties of the reconstructor *)

Lemma node_ind_deep (P : node -> Prop) :
  (forall tagName classList dataAnsi innerText children,
      Forall P children ->
      P (Element tagName classList dataAnsi innerText children)) ->
  (forall textContent, P (TextNode textContent)) ->
  P OtherNode ->
  forall n, P n.
Proof.
  intros HE HT HO. fix IH 1. intros [t c d i children| |].
  - apply HE. induction children as [|k ks IHks]; constructor; [apply IH|done].
  - apply HT.
  - apply HO.
Qed.

Lemma forallb_no_esc s :
  forallb (fun c => negb (Ascii.eqb c ESC)) s = true ->
  Forall (fun c => c <> ESC) s.
Proof.
  induction s as [|c s IH]; [constructor|]. simpl.
  intros [Hc Hs]%andb_prop. constructor; [|by apply IH].
  by apply negb_true_iff, Ascii.eqb_neq in Hc.
Qed.

Lemma processNode_esc_free n :
  esc_free n = true -> Forall (fun c => c <> ESC) (processNode n).
Proof.
  induction n as [t c d i children IH| |] using node_ind_deep;
    [|constructor..].
  rewrite processNode_children. cbn [esc_free].
  intros [_ Hk]%andb_prop. apply Forall_concat, Forall_map.
  induction IH as [|k ks IHk _ IHks]; [constructor|].
  cbn [forallb] in Hk. apply andb_prop in Hk as [Hk Hks].
  constructor; [|by apply IHks].
  destruct k as [kt kc kd ki kch| |]; cbn [contribution].
  - destruct (str_eqb kt (str "SPAN")) eqn:Es.
    + cbn [esc_free] in Hk. rewrite Es in Hk. apply andb_prop in Hk as [Hk _].
      destruct kd as [[|d0 d']|]; [by apply forallb_no_esc|done|
                                    by apply forallb_no_esc].
    + destruct (str_eqb kt (str "BR")); [constructor|]. by apply IHk.
  - by apply forallb_no_esc.
  - constructor.
Qed.

Lemma Forall_join (P : ascii -> Prop) sep parts :
  Forall P sep -> Forall (Forall P) parts -> Forall P (join sep parts).
Proof.
  intros Hsep Hp. induction Hp as [|p ps Hp0 Hps IH]; [constructor|].
  cbn [join]. destruct ps as [|p' ps']; [done|].
  apply Forall_app. split; [done|]. apply Forall_app. by split.
Qed.

(** X22: the reconstructor invents no styling: when no span of the edited
    tree carries a tag and no text of it holds ESC, the reconstructed text
    holds no ESC, hence no escape sequence at all. *)
Theorem X22_no_invented_styling (content : node) :
  esc_free content = true ->
  Forall (fun c => c <> ESC) (reconstructAnsi content).
Proof.
  intros H. unfold reconstructAnsi.
  destruct (querySelectorAll content);
    (apply Forall_join; [by repeat constructor|]).
  - constructor; [by apply processNode_esc_free|constructor].
  - destruct content as [t c d i children| |]; cbn [children_of];
      [|constructor..].
    cbn [esc_free] in H. apply andb_prop in H as [_ H].
    apply Forall_map. induction children as [|k ks IH]; [constructor|].
    cbn [forallb] in H. apply andb_prop in H as [Hk Hks].
    rewrite filter_cons. destruct (decide (is_line k = true)); [|by apply IH].
    constructor; [by apply processNode_esc_free|by apply IH].
Qed.

Lemma X22_no_invented_styling_witness :
  let content :=
    Element (str "DIV") [] None (str "hi")
      [Element (str "DIV") [str "line"] None (str "hi")
         [TextNode (str "h"); Element (str "SPAN") [] None (str "i") []]] in
  esc_free content = true
  /\ Forall (fun c => c <> ESC) (reconstructAnsi content).
Proof.
  split; [reflexivity|].
  apply X22_no_invented_styling. reflexivity.
Defined.

(** X26: an element that is neither a span nor a line break is
    transparent to the reconstructor: a line reads the same with the
    element in place as with the children of the element put in its
    stead. *)
Theorem X26_wrappers_are_transparent
    (tagName : jsstring) (classList : list jsstring) (dataAnsi : option jsstring)
    (innerText : jsstring) (children before after : list node) (line : node) :
  str_eqb tagName (str "SPAN") = false -> str_eqb tagName (str "BR") = false ->
  children_of line
  = before ++ Element tagName classList dataAnsi innerText children :: after ->
  processNode line
  = concat (map contribution (before ++ children ++ after)).
Proof.
  intros Hs Hb Hl. rewrite processNode_contributions, Hl.
  rewrite !map_app, !concat_app. cbn [map concat contribution].
  by rewrite Hs, Hb, processNode_children.
Qed.

Lemma X26_wrappers_are_transparent_witness :
  let bold := Element (str "B") [] None (str "bc")
                [TextNode (str "b"); TextNode (str "c")] in
  let line := Element (str "DIV") [str "line"] None (str "abcd")
                [TextNode (str "a"); bold; TextNode (str "d")] in
  str_eqb (str "B") (str "SPAN") = false
  /\ str_eqb (str "B") (str "BR") = false
  /\ processNode line
     = concat (map contribution
                 ([TextNode (str "a")] ++ [TextNode (str "b"); TextNode (str "c")]
                  ++ [TextNode (str "d")])).
Proof.
  split; [reflexivity|]. split; [reflexivity|].
  apply (X26_wrappers_are_transparent (str "B") [] None (str "bc")
           [TextNode (str "b"); TextNode (str "c")]
           [TextNode (str "a")] [TextNode (str "d")]); reflexivity.
Defined.

(** * Styles and layout *)

Section ArrayRel.
Context {A : Type} (Q : A -> A -> Prop).

Lemma index_rel l1 l2 i :
  Forall2 Q l1 l2 ->
  match index l1 i, index l2 i with
  | Some a, Some b => Q a b
  | None, None => True
  | _, _ => False
  end.
Proof.
  intros H. unfold index. destruct i as [i| | |]; try done.
  destruct (i <? 0); [done|].
  destruct (l1 !! Z.to_nat i) as [a|] eqn:E1.
  - destruct (Forall2_lookup_l _ _ _ _ _ H E1) as (b & -> & Hab). done.
  - apply lookup_ge_None in E1. rewrite (Forall2_length _ _ _ H) in E1.
    by rewrite (lookup_ge_None_2 _ _ E1).
Qed.

Lemma assign_rel l1 l2 i v1 v2 :
  Forall2 Q l1 l2 -> Q v1 v2 ->
  outcome_rel (Forall2 Q) (assign l1 i v1) (assign l2 i v2).
Proof.
  intros H Hv. unfold assign. rewrite <- (Forall2_length _ _ _ H).
  destruct i as [i| | |]; try done.
  destruct (i <? 0); [done|].
  destruct (i <? Z.of_nat (length l1)); [by apply Forall2_insert|].
  destruct (_ && _); [|done].
  apply Forall2_app; [done|by constructor].
Qed.

Lemma splice_rel l1 l2 x :
  Forall2 Q l1 l2 -> Forall2 Q (splice l1 x) (splice l2 x).
Proof.
  intros H. unfold splice. rewrite <- (Forall2_length _ _ _ H).
  by apply Forall2_take.
Qed.

Lemma splice_count_rel l1 l2 x n :
  Forall2 Q l1 l2 -> Forall2 Q (splice_count l1 x n) (splice_count l2 x n).
Proof.
  intros H. unfold splice_count. rewrite <- (Forall2_length _ _ _ H).
  apply Forall2_app; [by apply Forall2_take|by apply Forall2_drop].
Qed.

End ArrayRel.

Lemma blank_before_rel n : forall l1 l2,
  Forall2 same_char l1 l2 ->
  Forall2 same_char (blank_before n l1) (blank_before n l2).
Proof.
  induction n as [|n IH]; intros l1 l2 H; [by destruct l1, l2|].
  destruct H as [|c1 c2 l1 l2 Hc H]; simpl; [constructor|].
  constructor; [done|by apply IH].
Qed.

Lemma pad_rel l1 l2 x :
  Forall2 same_char l1 l2 ->
  outcome_rel (Forall2 same_char) (pad l1 x) (pad l2 x).
Proof.
  intros H. unfold pad. rewrite <- (Forall2_length _ _ _ H).
  destruct (lt _ x); [|done]. destruct x as [i| | |]; try done.
  destruct (i <=? max_length); [|done].
  apply Forall2_app; [done|]. by apply Forall2_replicate.
Qed.

Lemma put_rel l1 l2 x c1 c2 :
  Forall2 same_char l1 l2 -> same_char c1 c2 ->
  outcome_rel (Forall2 same_char) (put l1 x c1) (put l2 x c2).
Proof.
  intros H Hc. unfold put. destruct x as [i| | |]; try done.
  destruct (_ && _); [|done]. by apply assign_rel.
Qed.

Lemma outcome_rel_bind {A B} (R : A -> A -> Prop) (S : B -> B -> Prop)
    m1 m2 (f1 f2 : A -> outcome B) :
  outcome_rel R m1 m2 ->
  (forall a1 a2, R a1 a2 -> outcome_rel S (f1 a1) (f2 a2)) ->
  outcome_rel S (m1 ≫= f1) (m2 ≫= f2).
Proof. destruct m1, m2; simpl; try done. auto. Qed.

Lemma write_rel txt : forall l1 l2 x sty1 sty2,
  Forall2 same_char l1 l2 ->
  outcome_rel (fun r1 r2 => Forall2 same_char r1.1 r2.1 /\ r1.2 = r2.2)
    (write l1 x sty1 txt) (write l2 x sty2 txt).
Proof.
  induction txt as [|ch txt IH]; intros l1 l2 x sty1 sty2 H; cbn [write].
  - by split.
  - eapply outcome_rel_bind; [by apply pad_rel|]. intros p1 p2 Hp.
    eapply outcome_rel_bind; [by apply put_rel|]. intros q1 q2 Hq.
    by apply IH.
Qed.

Lemma grow_rel lb1 lb2 y :
  Forall2 (Forall2 same_char) lb1 lb2 ->
  outcome_rel (Forall2 (Forall2 same_char)) (grow lb1 y) (grow lb2 y).
Proof.
  intros H. unfold grow. rewrite <- (Forall2_length _ _ _ H).
  destruct (le _ y); [|done]. destruct y as [i| | |]; try done.
  destruct (i <? max_length); [|done].
  apply Forall2_app; [done|]. apply Forall2_replicate. constructor.
Qed.

Lemma clear_below_rel lb1 lb2 y :
  Forall2 (Forall2 same_char) lb1 lb2 ->
  Forall2 (Forall2 same_char) (clear_below lb1 y) (clear_below lb2 y).
Proof.
  intros H. unfold clear_below. destruct y; [|done..].
  rewrite <- (Forall2_length _ _ _ H).
  apply Forall2_app; [by apply Forall2_take|].
  apply Forall2_replicate. constructor.
Qed.

Lemma blank_loop_rel l1 l2 x :
  option_Forall2 (Forall2 same_char) l1 l2 ->
  outcome_rel (option_Forall2 (Forall2 same_char))
    (blank_loop l1 x) (blank_loop l2 x).
Proof.
  intros H. unfold blank_loop. destruct (lt (Num 0) x); [|done].
  destruct H as [r1 r2 H|]; [|done]. destruct x as [i| | |]; try done.
  destruct (i <=? max_safe); [|done]. constructor. by apply blank_before_rel.
Qed.

Lemma set_line_rel s1 s2 l1 l2 :
  same_chars s1 s2 -> Forall2 same_char l1 l2 ->
  same_chars (set_line s1 l1) (set_line s2 l2).
Proof.
  destruct s1 as [lb1 x1 y1 st1], s2 as [lb2 x2 y2 st2].
  intros (Hx & Hy & H) Hl. cbn in Hx, Hy, H. subst x2 y2. unfold set_line.
  cbn [cursorY]. destruct y1; [|by repeat split..].
  repeat split; cbn; try done. by apply Forall2_insert.
Qed.

Lemma set_linesBuffer_rel s1 s2 lb1 lb2 :
  same_chars s1 s2 -> Forall2 (Forall2 same_char) lb1 lb2 ->
  same_chars (set_linesBuffer s1 lb1) (set_linesBuffer s2 lb2).
Proof. intros (Hx & Hy & H) Hl. by repeat split. Qed.

Lemma set_cursorX_rel s1 s2 x :
  same_chars s1 s2 -> same_chars (set_cursorX s1 x) (set_cursorX s2 x).
Proof. intros (Hx & Hy & H). by repeat split. Qed.

Lemma set_cursorY_rel s1 s2 y :
  same_chars s1 s2 -> same_chars (set_cursorY s1 y) (set_cursorY s2 y).
Proof. intros (Hx & Hy & H). by repeat split. Qed.

Create HintDb layout.
#[local] Hint Resolve Forall2_insert Forall2_take splice_rel splice_count_rel
  blank_before_rel clear_below_rel set_line_rel set_linesBuffer_rel
  set_cursorX_rel set_cursorY_rel : layout.
#[local] Hint Constructors Forall2 : layout.

(** The branches of [step] other than the one for sequences ending in m:
    from two states with the same characters and cursor they reach two
    such states, or the same failure. *)
Lemma layout_control s1 s2 c :
  same_chars s1 s2 ->
  outcome_rel same_chars (step_control s1 c) (step_control s2 c).
Proof.
  intros Hs. pose proof Hs as (Hx & Hy & H). unfold step_control.
  rewrite <- Hx, <- Hy.
  destruct (Ascii.eqb c LF).
  - pose proof (index_rel (Forall2 same_char) _ _
                  (add (cursorY s1) (Num 1)) H) as Hi.
    destruct (index (linesBuffer s1) _), (index (linesBuffer s2) _); try done.
    eapply outcome_rel_bind;
      [apply (assign_rel (Forall2 same_char)); [done|constructor]|].
    intros lb1 lb2 Hlb. by repeat split.
  - destruct (Ascii.eqb c CR); [by apply set_cursorX_rel|].
    destruct (Ascii.eqb c BS); [by apply set_cursorX_rel|done].
Qed.

Lemma layout_text s1 s2 txt :
  same_chars s1 s2 ->
  outcome_rel same_chars (step_text s1 txt) (step_text s2 txt).
Proof.
  intros Hs. pose proof Hs as (Hx & Hy & H). unfold step_text.
  rewrite <- Hx, <- Hy.
  pose proof (index_rel (Forall2 same_char) _ _ (cursorY s1) H) as Hi.
  destruct (index (linesBuffer s1) _) as [l1|],
           (index (linesBuffer s2) _) as [l2|]; try done.
  eapply outcome_rel_bind; [by apply write_rel|].
  intros [r1 z1] [r2 z2] [Hw Hz]. cbn in Hw, Hz. subst z2.
  cbn [outcome_rel]. auto with layout.
Qed.

Lemma layout_ansi s1 s2 ansi :
  same_chars s1 s2 -> endsWith ansi "m" = false ->
  outcome_rel same_chars (step_ansi s1 ansi) (step_ansi s2 ansi).
Proof.
  intros Hs Hm. pose proof Hs as (Hx & Hy & H).
  unfold step_ansi. rewrite Hm, <- Hx, <- Hy.
  pose proof (index_rel (Forall2 same_char) _ _ (cursorY s1) H) as Hi.
  destruct (endsWith ansi "K").
  { destruct (is_num _ 0).
    { destruct (index (linesBuffer s1) _), (index (linesBuffer s2) _);
        try done. cbn [outcome_rel]. auto with layout. }
    destruct (is_num _ 1).
    { eapply outcome_rel_bind.
      - apply blank_loop_rel.
        destruct (index (linesBuffer s1) _), (index (linesBuffer s2) _);
          try done; by constructor.
      - intros r1 r2 [l1 l2 Hl|]; cbn [outcome_rel]; auto with layout. }
    destruct (is_num _ 2); [|done].
    eapply outcome_rel_bind;
      [apply (assign_rel (Forall2 same_char)); [done|constructor]|].
    intros lb1 lb2 Hlb. cbn [outcome_rel]. auto with layout. }
  destruct (endsWith ansi "J").
  { destruct (is_num _ 0).
    { destruct (index (linesBuffer s1) _) as [l1|],
               (index (linesBuffer s2) _) as [l2|]; try done.
      cbn [outcome_rel]. apply set_linesBuffer_rel; [auto with layout|].
      apply clear_below_rel.
      by apply (set_line_rel s1 s2 _ _ Hs (splice_rel _ _ _ (cursorX s1) Hi)). }
    destruct (is_num _ 2); [|done]. cbn [outcome_rel].
    repeat split. cbn. auto with layout. }
  destruct (endsWith ansi "P").
  { destruct (index (linesBuffer s1) _), (index (linesBuffer s2) _);
      try done. cbn [outcome_rel]. auto with layout. }
  destruct (endsWith ansi "A"); [by apply set_cursorY_rel|].
  destruct (endsWith ansi "B").
  { eapply outcome_rel_bind; [by apply grow_rel|].
    intros lb1 lb2 Hlb. cbn [outcome_rel]. auto with layout. }
  destruct (endsWith ansi "D"); [by apply set_cursorX_rel|].
  destruct (endsWith ansi "C"); [by apply set_cursorX_rel|done].
Qed.

Lemma same_rows (lb : list (list cell)) : Forall2 (Forall2 same_char) lb lb.
Proof.
  induction lb as [|row lb IH]; constructor; [|done].
  induction row; by constructor.
Qed.

Lemma layout_sgr s ansi s' :
  ansi <> [] -> endsWith ansi "m" = true ->
  step s (ansiCode ansi) = Ok s' -> same_chars s' s.
Proof.
  intros Hne Hm. destruct ansi as [|a0 a]; [done|]. cbn [step].
  unfold step_ansi. rewrite Hm.
  destruct (str_eqb _ reset); intros [= <-]; repeat split; apply same_rows.
Qed.

Lemma same_chars_refl s : same_chars s s.
Proof. repeat split. apply same_rows. Qed.

Lemma same_chars_trans s1 s2 s3 :
  same_chars s1 s2 -> same_chars s2 s3 -> same_chars s1 s3.
Proof.
  intros (Hx & Hy & H) (Hx' & Hy' & H'). split; [congruence|].
  split; [congruence|].
  eapply Forall2_trans; [|exact H|exact H'].
  intros r1 r2 r3 H1 H2. eapply Forall2_trans; [|exact H1|exact H2].
  unfold same_char. congruence.
Qed.

Lemma same_char_rows lb1 lb2 :
  Forall2 (Forall2 same_char) lb1 lb2 ->
  map (map char) lb1 = map (map char) lb2.
Proof.
  induction 1 as [|r1 r2 lb1 lb2 Hr _ IH]; [done|]. cbn [map].
  rewrite IH. f_equal. induction Hr as [|c1 c2 r1 r2 Hc _ IHr]; [done|].
  cbn [map]. by rewrite Hc, IHr.
Qed.

Lemma same_layout_chars s1 s2 : same_chars s1 s2 -> same_layout s1 s2.
Proof.
  intros (Hx & Hy & H). split; [done|]. split; [done|].
  by apply same_char_rows.
Qed.

Lemma outcome_rel_impl {A} (R S : A -> A -> Prop) o1 o2 :
  outcome_rel R o1 o2 -> (forall a b, R a b -> S a b) -> outcome_rel S o1 o2.
Proof. destruct o1, o2; simpl; auto. Qed.

Lemma step_style_other s t s' :
  is_sgr t = false -> step s t = Ok s' -> currentStyle s' = currentStyle s.
Proof.
  intros Ht H. rewrite (step_style _ _ _ H).
  destruct t as [a| | | |]; try done. cbn [is_sgr] in Ht. cbn [style_after].
  by rewrite Ht.
Qed.

(** From two states with the same characters and cursor, a token that is
    no SGR sequence leads to two such states or to the same failure. *)
Lemma layout_step s1 s2 t :
  same_chars s1 s2 -> is_sgr t = false ->
  outcome_rel same_chars (step s1 t) (step s2 t).
Proof.
  intros H Ht. destruct t as [a|a|a|c|a]; cbn [step].
  - destruct a as [|a0 a]; [done|]. by apply layout_ansi.
  - done.
  - done.
  - by apply layout_control.
  - destruct a as [|a0 a]; [done|]. by apply layout_text.
Qed.

Lemma sgr_step_Ok s a :
  endsWith a "m" = true -> exists s', step s (ansiCode a) = Ok s'.
Proof.
  intros Hm. destruct a as [|a0 a]; [done|]. cbn [step]. unfold step_ansi.
  rewrite Hm. destruct (str_eqb _ _); by eexists.
Qed.

Lemma layout_run ts : forall s1 s2,
  same_chars s1 s2 ->
  outcome_rel same_chars
    (run s1 ts) (run s2 (filter (fun t => is_sgr t = false) ts)).
Proof.
  induction ts as [|t ts IH]; intros s1 s2 H; [done|].
  rewrite filter_cons. destruct (decide (is_sgr t = false)) as [Ht|Ht].
  - rewrite !run_cons. eapply outcome_rel_bind; [by apply layout_step|].
    apply IH.
  - apply not_false_is_true in Ht. rewrite run_cons.
    destruct t as [a| | | |]; try done. cbn [is_sgr] in Ht.
    destruct (sgr_step_Ok s1 a Ht) as [s1' E]. rewrite E.
    cbn [mbind outcome_bind]. apply IH.
    apply (same_chars_trans _ s1); [|done].
    apply (layout_sgr s1 a); [by apply (endsWith_nonempty a "m")|done..].
Qed.

(** X23: styles never move a character: interpreting a text and
    interpreting its tokens without the SGR sequences end alike: both fail
    in the same way, or both build the same rows of the same characters
    and leave the same cursor. *)
Theorem X23_styles_do_not_affect_layout (text : jsstring) :
  outcome_rel same_layout
    (run initial (tokenize text))
    (run initial (filter (fun t => is_sgr t = false) (tokenize text))).
Proof.
  eapply outcome_rel_impl; [apply layout_run, same_chars_refl|].
  apply same_layout_chars.
Qed.

(** * The compiled script and the source *)

Lemma compiled_ansi_layout s ansi :
  endsWith ansi "m" = false ->
  getHtmlForWebview_ansi s ansi = step_ansi s ansi.
Proof.
  intros Hm. unfold getHtmlForWebview_ansi, step_ansi. rewrite Hm.
  repeat match goal with
  | |- context [if ?b then _ else _] => destruct b
  end; reflexivity.
Qed.

Lemma compiled_step_layout s1 s2 t :
  same_chars s1 s2 ->
  outcome_rel same_chars (getHtmlForWebview_step s1 t) (step s2 t).
Proof.
  intros H. destruct (is_sgr t) eqn:Ht.
  - destruct t as [a| | | |]; try done. cbn [is_sgr] in Ht.
    destruct a as [|a0 a]; [done|].
    cbn [getHtmlForWebview_step step]. unfold getHtmlForWebview_ansi, step_ansi.
    rewrite Ht. destruct H as (Hx & Hy & H).
    destruct (str_eqb _ reset); by repeat split.
  - pose proof (layout_step s1 s2 t H Ht) as Hs.
    destruct t as [a|a|a|c|a]; try done.
    destruct a as [|a0 a]; [done|]. cbn [getHtmlForWebview_step].
    cbn [is_sgr] in Ht. by rewrite compiled_ansi_layout.
Qed.

Lemma compiled_run_layout ts : forall s1 s2,
  same_chars s1 s2 ->
  outcome_rel same_chars (getHtmlForWebview_run s1 ts) (run s2 ts).
Proof.
  induction ts as [|t ts IH]; intros s1 s2 H; [done|].
  cbn [getHtmlForWebview_run run].
  eapply outcome_rel_bind; [by apply compiled_step_layout|]. apply IH.
Qed.

(** X24: the compiled script and the source lay the text out alike: on
    every input the two interpreters end alike: both fail in the same way,
    or both build the same rows holding the same characters and leave the
    cursor in the same place; they can differ in styles only. *)
Theorem X24_compiled_same_layout (text : jsstring) :
  outcome_rel same_layout (getHtmlForWebview_buffer text) (interpret text).
Proof.
  eapply outcome_rel_impl; [apply compiled_run_layout, same_chars_refl|].
  apply same_layout_chars.
Qed.

Lemma compiled_step_style s t s' :
  getHtmlForWebview_step s t = Ok s' ->
  currentStyle s' = compiled_style_after (currentStyle s) t.
Proof.
  destruct t as [a|a|a|c|a]; cbn [getHtmlForWebview_step compiled_style_after].
  - destruct a as [|a0 a]; [by intros [= <-]|].
    destruct (endsWith (a0 :: a) "m") eqn:Hm.
    + unfold getHtmlForWebview_ansi. rewrite Hm. by intros [= <-].
    + rewrite compiled_ansi_layout by done. intros H.
      exact (step_style_other s (ansiCode (a0 :: a)) s' Hm H).
  - by intros [= <-].
  - by intros [= <-].
  - intros H. exact (step_style_other s (controlChar c) s' eq_refl H).
  - destruct a as [|a0 a]; [by intros [= <-]|]. intros H.
    exact (step_style_other s (textPart (a0 :: a)) s' eq_refl H).
Qed.

(** X25: in the compiled script the reset form does not empty the
    current style: after any prefix of the token stream that the
    interpreter gets through, the current style is all the sequences ending
    in m met so far, one after the other, the reset forms among them. *)
Theorem X25_compiled_style_only_grows (text : jsstring) (n : nat) (s : state) :
  getHtmlForWebview_run initial (take n (tokenize text)) = Ok s ->
  currentStyle s = foldl compiled_style_after [] (take n (tokenize text)).
Proof.
  change [] with (currentStyle initial) at 1.
  generalize initial as s0. generalize (take n (tokenize text)) as ts.
  induction ts as [|t ts IH]; intros s0; cbn [getHtmlForWebview_run foldl].
  - by intros [= <-].
  - destruct (getHtmlForWebview_step s0 t) as [s0'| | | |] eqn:Et; try done.
    cbn [mbind outcome_bind]. intros H. apply IH in H.
    by rewrite (compiled_step_style _ _ _ Et) in H.
Qed.

Lemma X25_compiled_style_only_grows_witness :
  let text := ESC :: str "[31ma" ++ ESC :: str "[0mb" in
  let s := {| linesBuffer :=
                [[mk_cell (ESC :: str "[31m") "a";
                  mk_cell (ESC :: str "[31m" ++ ESC :: str "[0m") "b"]];
              cursorX := Num 2; cursorY := Num 0;
              currentStyle := ESC :: str "[31m" ++ ESC :: str "[0m" |} in
  getHtmlForWebview_run initial (take 4 (tokenize text)) = Ok s
  /\ currentStyle s = foldl compiled_style_after [] (take 4 (tokenize text)).
Proof.
  intros text s.
  assert (getHtmlForWebview_run initial (take 4 (tokenize text)) = Ok s) as H
    by (vm_compute; reflexivity).
  split; [exact H|]. exact (X25_compiled_style_only_grows text 4 s H).
Defined.
